(** * autodocument: bottom-up directory aggregation

    A shallow embedding of the crawler ([src/crawler/index.ts]), the file
    analyzer ([src/analyzer/index.ts]), the generator tools
    ([src/tools/*-tool.ts]) and the aggregation driver
    ([build/tools/aggregator.js]), with the properties of the design
    document stated and proved against them.

    Strings are byte strings; the file system is passed explicitly. *)

From Stdlib Require Import ZArith Ascii DecimalString.
From stdpp Require Import base options list gmap strings.

Local Open Scope Z_scope.
#[local] Set Warnings "-clear-no-such-hyp".

(** ** Node's [path] module and the string helpers the code relies on *)

Module Path.

Definition slash : ascii := "/"%char.
Definition dot : ascii := "."%char.

(** [path.join(dir, entry)] for a normalised directory path and an entry
    name as returned by [readdirSync]: the two joined by one separator. *)
Definition join (dir entry : string) : string := dir +:+ "/" +:+ entry.

Fixpoint chars (s : string) : list ascii :=
  match s with
  | EmptyString => []
  | String c r => c :: chars r
  end.

Fixpoint of_chars (l : list ascii) : string :=
  match l with
  | [] => EmptyString
  | c :: r => String c (of_chars r)
  end.

Definition is_slash (c : ascii) : bool := Ascii.eqb c slash.
Definition is_dot (c : ascii) : bool := Ascii.eqb c dot.

(** Entry names never contain the separator. *)
Definition noslash (s : string) : bool := forallb (λ c, negb (is_slash c)) (chars s).

Fixpoint drop_while {A} (p : A → bool) (l : list A) : list A :=
  match l with
  | [] => []
  | x :: r => if p x then drop_while p r else l
  end.

Fixpoint take_until {A} (p : A → bool) (l : list A) : list A :=
  match l with
  | [] => []
  | x :: r => if p x then [] else x :: take_until p r
  end.

(** The last path segment, read from the end of the path with trailing
    separators skipped; kept reversed. *)
Definition rev_base (p : string) : list ascii :=
  take_until is_slash (drop_while is_slash (rev (chars p))).

(** [path.basename(p)]. *)
Definition basename (p : string) : string := of_chars (rev (rev_base p)).

(** [path.extname(p)]: from the last dot of the base name to its end;
    empty when there is no dot, when the only dot is the first character,
    and for the name [".."]. *)
Definition extname (p : string) : string :=
  let rb := rev_base p in
  let ext_rev := take_until is_dot rb in
  match drop_while (λ c, negb (is_dot c)) rb with
  | [] => ""
  | _ :: before =>
      match before, ext_rev with
      | [], _ => ""
      | [c], [] => if is_dot c then "" else of_chars (dot :: rev ext_rev)
      | _, _ => of_chars (dot :: rev ext_rev)
      end
  end.

(** [String.prototype.toLowerCase] on the ASCII letters. *)
Definition lower_char (c : ascii) : ascii :=
  let n := nat_of_ascii c in
  if (Nat.leb 65 n && Nat.leb n 90)%bool then ascii_of_nat (n + 32) else c.

Definition toLowerCase (s : string) : string := of_chars (map lower_char (chars s)).

(** [s.startsWith('.')]. *)
Definition startsWithDot (s : string) : bool :=
  match s with
  | String c _ => is_dot c
  | EmptyString => false
  end.

Fixpoint strip_prefix (pre s : string) : option string :=
  match pre, s with
  | EmptyString, _ => Some s
  | String a pre', String b s' => if Ascii.eqb a b then strip_prefix pre' s' else None
  | String _ _, EmptyString => None
  end.

(** [path.relative(from, to)] where [to] lies below [from] (the driver
    and the tools only call it for a directory and something inside it):
    the remainder of [to] after [from] and the separator. *)
Definition relative (from to : string) : string :=
  match strip_prefix (from +:+ "/") to with
  | Some rest => rest
  | None => if String.eqb from to then "" else to
  end.

End Path.

(** Decimal rendering of a number inside a template literal. *)
Definition show (z : Z) : string := NilZero.string_of_int (Z.to_int z).

(** [Math.round(bytes / 1024)]: the quotient rounded half up. *)
Definition roundKb (bytes : Z) : Z := (bytes + 512) `div` 1024.

(** The line feed. *)
Definition nl : string := String (ascii_of_nat 10) "".

(** JavaScript truthiness of a string. *)
Definition truthy (s : string) : bool := negb (String.eqb s "").

(** An operation that returns a value or throws an [Error] with a message. *)
Inductive Result (A : Type) : Type :=
  | Ok (a : A)
  | Throw (message : string).
Arguments Ok {A} a.
Arguments Throw {A} message.

(** ** The file system *)

(** The directory tree on disk, as [readdirSync] and [statSync] reveal it
    to a recursive walk. A directory whose listing is [None] cannot be
    read; a [NBroken] entry is listed by its parent but [statSync] throws
    on it. *)
#[local] Unset Elimination Schemes.
Inductive Node : Type :=
  | NFile (size : Z) (content : Result string)
  | NDir (entries : option (list (string * Node)))
  | NBroken.

Definition isDirectory (n : Node) : bool :=
  match n with NDir _ => true | _ => false end.

(** Well-formed trees: within a directory the entry names are pairwise
    distinct and none contains the separator. *)
Fixpoint wf_node (n : Node) : bool :=
  match n with
  | NDir (Some entries) =>
      bool_decide (NoDup (map fst entries))
      && forallb (λ e, Path.noslash (fst e)) entries
      && (fix all (l : list (string * Node)) : bool :=
            match l with
            | [] => true
            | (_, c) :: r => wf_node c && all r
            end) entries
  | _ => true
  end.

(** ** The crawler ([src/crawler/index.ts]) *)

(** [interface Directory]. *)
Inductive Directory : Type :=
  mkDirectory {
    dir_path : string;
    dir_name : string;
    subdirectories : list Directory;
    dir_files : list string;
    isLeaf : bool
  }.
#[local] Set Elimination Schemes.

Record CrawlerOptions : Type :=
  mkCrawlerOptions {
    respectGitignore : bool;
    includeHidden : bool
  }.

Section Crawler.

(** The ignore rules, [GitIgnoreParser.shouldIgnore]. *)
Variable shouldIgnore : string → bool.
Variable options : CrawlerOptions.

Definition emptyLeaf (dirPath : string) : Directory :=
  {| dir_path := dirPath; dir_name := Path.basename dirPath;
     subdirectories := []; dir_files := []; isLeaf := true |}.

(** An entry the walk skips before looking at it. *)
Definition skipped_entry (entryPath entry : string) : bool :=
  (respectGitignore options && shouldIgnore entryPath)
  || (negb (includeHidden options) && Path.startsWithDot entry).

(** [scanDirectory(dirPath)], with the node found at [dirPath]. *)
Fixpoint scanDirectory (dirPath : string) (n : Node) : Directory :=
  match n with
  | NDir (Some entries) =>
      let '(subs, files) :=
        (fix loop (es : list (string * Node)) : list Directory * list string :=
           match es with
           | [] => ([], [])
           | (entry, child) :: rest =>
               let entryPath := Path.join dirPath entry in
               let '(subs, files) := loop rest in
               if skipped_entry entryPath entry then (subs, files)
               else
                 match child with
                 | NBroken => (subs, files)
                 | NDir _ => (scanDirectory entryPath child :: subs, files)
                 | NFile _ _ => (subs, entryPath :: files)
                 end
           end) entries in
      {| dir_path := dirPath; dir_name := Path.basename dirPath;
         subdirectories := subs; dir_files := files;
         isLeaf := bool_decide (length subs = 0%nat) |}
  | _ => emptyLeaf dirPath
  end.

(** [scan()]. *)
Definition scan (rootPath : string) (root : Node) : Directory :=
  scanDirectory rootPath root.

End Crawler.

(** The two pieces of state [processDir] closes over: the array [allDirs]
    and the set [processedDirs]. *)
Record OrderState : Type :=
  mkOrderState {
    allDirs : list string;
    processedDirs : gset string
  }.

(** The helper [processDir] of [createBottomUpOrder]. *)
Fixpoint processDir (dir : Directory) (st : OrderState) : OrderState :=
  let st1 :=
    (fix each (subs : list Directory) (st : OrderState) : OrderState :=
       match subs with
       | [] => st
       | subdir :: rest =>
           each rest
             (if bool_decide (dir_path subdir ∈ processedDirs st) then st
              else processDir subdir st)
       end) (subdirectories dir) st in
  if bool_decide (dir_path dir ∈ processedDirs st1) then st1
  else {| allDirs := allDirs st1 ++ [dir_path dir];
          processedDirs := processedDirs st1 ∪ {[dir_path dir]} |}.

(** [createBottomUpOrder()], on the tree [scan()] returned. *)
Definition createBottomUpOrder (dirTree : Directory) : list string :=
  allDirs (processDir dirTree {| allDirs := []; processedDirs := ∅ |}).

(** [collectLeafDirs(dir, result)], with the array it fills. *)
Fixpoint collectLeafDirs (dir : Directory) (result : list string) : list string :=
  if isLeaf dir then result ++ [dir_path dir]
  else
    (fix each (subs : list Directory) (result : list string) : list string :=
       match subs with
       | [] => result
       | subdir :: rest => each rest (collectLeafDirs subdir result)
       end) (subdirectories dir) result.

(** [findLeafDirectories()], on the tree [scan()] returned. *)
Definition findLeafDirectories (dirTree : Directory) : list string :=
  collectLeafDirs dirTree [].

(** Every directory of a tree, the tree itself first. *)
Fixpoint subtrees (d : Directory) : list Directory :=
  d :: (subdirectories d ≫= subtrees).

(** The paths of all directories of a tree. *)
Definition all_paths (d : Directory) : list string := dir_path <$> subtrees d.

(** The post-order listing of the paths of a tree. *)
Fixpoint postorder (d : Directory) : list string :=
  (subdirectories d ≫= postorder) ++ [dir_path d].

(** ** The file system seen by path *)

(** What the [fs] calls find at a path: a file with its size, what
    reading it gives and whether it may be written; a directory with its
    size, its listing if it can be read, and whether entries may be
    created in it. *)
Inductive Entry : Type :=
  | EFile (size : Z) (content : Result string) (writable : bool)
  | EDir (size : Z) (listing : option (list string)) (writable : bool).

(** The disk: what is found at each path; nothing at the others. *)
Abbreviation Disk := (gmap string Entry).

(** [fs.Stats], the two fields the code reads. *)
Record Stats : Type :=
  mkStats {
    st_isDirectory : bool;
    st_size : Z
  }.

Definition statSync (disk : Disk) (p : string) : Result Stats :=
  match disk !! p with
  | Some (EFile size _ _) => Ok {| st_isDirectory := false; st_size := size |}
  | Some (EDir size _ _) => Ok {| st_isDirectory := true; st_size := size |}
  | None => Throw ("ENOENT: no such file or directory, stat '" +:+ p +:+ "'")
  end.

Definition existsSync (disk : Disk) (p : string) : bool :=
  bool_decide (is_Some (disk !! p)).

(** [readdirSync]; [None] when it throws. *)
Definition readdirSync (disk : Disk) (p : string) : option (list string) :=
  match disk !! p with
  | Some (EDir _ listing _) => listing
  | _ => None
  end.

(** [readFileSync(p, 'utf8')] and [fs.promises.readFile(p, 'utf8')]. *)
Definition readFile (disk : Disk) (p : string) : Result string :=
  match disk !! p with
  | Some (EFile _ content _) => content
  | Some (EDir _ _ _) => Throw "EISDIR: illegal operation on a directory, read"
  | None => Throw ("ENOENT: no such file or directory, open '" +:+ p +:+ "'")
  end.

(** [fs.promises.writeFile(path.join(dir, name), content, 'utf8')]: the
    file is created or replaced and listed in its directory. The call
    throws when the target is a directory, when the target is a file that
    may not be written, when the target does not exist and no entry may
    be created in the directory, and when the directory is missing or is
    not one. *)
Definition writeFile (disk : Disk) (dir name content : string) : Result Disk :=
  let p := Path.join dir name in
  match disk !! dir with
  | Some (EDir dsize listing dwritable) =>
      let listing' :=
        (λ names, if bool_decide (name ∈ names) then names else names ++ [name]) <$> listing in
      let written :=
        <[p := EFile (Z.of_nat (String.length content)) (Ok content) true]>
          (<[dir := EDir dsize listing' dwritable]> disk) in
      let denied := Throw ("EACCES: permission denied, open '" +:+ p +:+ "'") in
      match disk !! p with
      | Some (EDir _ _ _) =>
          Throw ("EISDIR: illegal operation on a directory, open '" +:+ p +:+ "'")
      | Some (EFile _ _ fwritable) => if fwritable then Ok written else denied
      | None => if dwritable then Ok written else denied
      end
  | Some (EFile _ _ _) => Throw ("ENOTDIR: not a directory, open '" +:+ p +:+ "'")
  | None => Throw ("ENOENT: no such file or directory, open '" +:+ p +:+ "'")
  end.

(** The disk a tree stands for, keyed by the paths the walk forms. A
    tree says nothing of write permissions: all of its disk may be
    written. *)
Fixpoint flatten (p : string) (n : Node) : list (string * Entry) :=
  match n with
  | NFile size content => [(p, EFile size content true)]
  | NDir None => [(p, EDir 4096 None true)]
  | NDir (Some entries) =>
      (p, EDir 4096 (Some (fst <$> entries)) true)
      :: (fix each (es : list (string * Node)) : list (string * Entry) :=
            match es with
            | [] => []
            | (entry, child) :: rest => flatten (Path.join p entry) child ++ each rest
            end) entries
  | NBroken => []
  end.

Definition disk_of (rootPath : string) (root : Node) : Disk :=
  list_to_map (flatten rootPath root).

(** ** Configuration ([src/config.ts]) *)

Record FileProcessing : Type :=
  mkFileProcessing {
    codeExtensions : list string;
    maxFileSizeKb : Z;
    maxFilesPerDirectory : Z
  }.

Record Documentation : Type :=
  mkDocumentation {
    doc_outputFilename : string;
    doc_fallbackFilename : string;
    doc_updateExisting : bool
  }.

Record AutodocumentConfig : Type :=
  mkConfig {
    fileProcessing : FileProcessing;
    documentation : Documentation
  }.

Definition defaultConfig : AutodocumentConfig :=
  {| fileProcessing :=
       {| codeExtensions :=
            [".ts"; ".js"; ".tsx"; ".jsx"; ".py"; ".java"; ".c"; ".cpp"; ".cs";
             ".php"; ".rb"; ".go"; ".rs"];
          maxFileSizeKb := 100;
          maxFilesPerDirectory := 10 |};
     documentation :=
       {| doc_outputFilename := "documentation.md";
          doc_fallbackFilename := "undocumented.md";
          doc_updateExisting := true |} |}.

(** [array.includes(x)] on strings. *)
Definition includes (l : list string) (x : string) : bool := bool_decide (x ∈ l).

(** [array.slice(0, end)]. *)
Definition slice0 {A} (l : list A) (e : Z) : list A :=
  let len := Z.of_nat (length l) in
  take (Z.to_nat (if e <? 0 then Z.max (len + e) 0 else Z.min e len)) l.

(** The element type of the child-content arrays. *)
Record ChildContent : Type :=
  mkChildContent {
    cc_path : string;
    cc_content : string
  }.

(** ** The crawler's queries by path *)

Section CrawlerQueries.

Variable config : AutodocumentConfig.
Variable shouldIgnore : string → bool.
Variable options : CrawlerOptions.

(** The callback of the [filter] in [getCodeFiles]; it throws when
    [statSync] does. *)
Definition isCodeFile (disk : Disk) (directoryPath file : string) : Result bool :=
  let filePath := Path.join directoryPath file in
  match statSync disk filePath with
  | Throw m => Throw m
  | Ok stats =>
      if st_isDirectory stats then Ok false
      else if respectGitignore options && shouldIgnore filePath then Ok false
      else if negb (includeHidden options) && Path.startsWithDot file then Ok false
      else Ok (includes (codeExtensions (fileProcessing config))
                        (Path.toLowerCase (Path.extname file)))
  end.

(** [array.filter(f)] with a callback that may throw. *)
Fixpoint filterR {A} (f : A → Result bool) (l : list A) : Result (list A) :=
  match l with
  | [] => Ok []
  | x :: r =>
      match f x with
      | Throw m => Throw m
      | Ok b =>
          match filterR f r with
          | Throw m => Throw m
          | Ok r' => Ok (if b then x :: r' else r')
          end
      end
  end.

(** [getCodeFiles(directoryPath)]. *)
Definition getCodeFiles (disk : Disk) (directoryPath : string) : list string :=
  match readdirSync disk directoryPath with
  | None => []
  | Some names =>
      match filterR (isCodeFile disk directoryPath) names with
      | Throw _ => []
      | Ok kept => Path.join directoryPath <$> kept
      end
  end.

(** [getDocumentationFile(directoryPath)]. *)
Definition getDocumentationFile (disk : Disk) (directoryPath : string) : option string :=
  let docFilePath := Path.join directoryPath (doc_outputFilename (documentation config)) in
  if existsSync disk docFilePath then Some docFilePath else None.

(** The directory test shared by the three listings of subdirectories. *)
Definition isSubdirectory (disk : Disk) (filePath : string) : Result bool :=
  match statSync disk filePath with
  | Throw m => Throw m
  | Ok stats =>
      Ok (st_isDirectory stats
          && (negb (respectGitignore options) || negb (shouldIgnore filePath)))
  end.

(** [hasSubdirectories(directoryPath)]: here the test catches its own
    exception. *)
Definition hasSubdirectories (disk : Disk) (directoryPath : string) : bool :=
  match readdirSync disk directoryPath with
  | None => false
  | Some names =>
      let subdirs :=
        List.filter (λ filePath,
                       match isSubdirectory disk filePath with
                       | Ok b => b
                       | Throw _ => false
                       end)
                    (Path.join directoryPath <$> names) in
      bool_decide (0 < length subdirs)%nat
  end.

(** [readFileContent(filePath)]; [None] is [null]. *)
Definition readFileContent (disk : Disk) (filePath : string) : option string :=
  match statSync disk filePath with
  | Throw _ => None
  | Ok stats =>
      if maxFileSizeKb (fileProcessing config) * 1024 <? st_size stats then None
      else
        match readFile disk filePath with
        | Ok content => Some content
        | Throw _ => None
        end
  end.

(** The text built for an inlined single-file directory. *)
Definition singleFileText (directoryPath subdir file fileContent : string) : string :=
  "# " +:+ Path.basename subdir +:+ " - " +:+ Path.basename file +:+ nl +:+ nl
  +:+ "This file is from a single-file directory: "
  +:+ Path.relative directoryPath subdir +:+ nl +:+ nl
  +:+ "```" +:+ nl +:+ fileContent +:+ nl +:+ "```".

(** The body of the loop of [getSingleFileSubdirectories]. *)
Definition singleFileOf (disk : Disk) (directoryPath subdir : string) : list ChildContent :=
  match getCodeFiles disk subdir with
  | [file] =>
      match readFileContent disk file with
      | Some fileContent =>
          if truthy fileContent then
            [ {| cc_path := subdir;
                 cc_content := singleFileText directoryPath subdir file fileContent |} ]
          else []
      | None => []
      end
  | _ => []
  end.

(** [getSingleFileSubdirectories(directoryPath)]. *)
Definition getSingleFileSubdirectories (disk : Disk) (directoryPath : string)
  : list ChildContent :=
  match readdirSync disk directoryPath with
  | None => []
  | Some names =>
      match filterR (isSubdirectory disk) (Path.join directoryPath <$> names) with
      | Throw _ => []
      | Ok subdirs => subdirs ≫= singleFileOf disk directoryPath
      end
  end.

(** The body of the loop of [getSubdirectoryDocs]. *)
Definition subdirectoryDocOf (disk : Disk) (subdir : string) : list ChildContent :=
  match getDocumentationFile disk subdir with
  | Some docFile =>
      match readFile disk docFile with
      | Ok content => [ {| cc_path := subdir; cc_content := content |} ]
      | Throw _ => []
      end
  | None => []
  end.

(** [getSubdirectoryDocs(directoryPath)]. *)
Definition getSubdirectoryDocs (disk : Disk) (directoryPath : string) : list ChildContent :=
  match readdirSync disk directoryPath with
  | None => []
  | Some names =>
      match filterR (isSubdirectory disk) (Path.join directoryPath <$> names) with
      | Throw _ => []
      | Ok subdirs => subdirs ≫= subdirectoryDocOf disk
      end
  end.

End CrawlerQueries.

(** ** The file analyzer ([src/analyzer/index.ts]) *)

Record AnalyzedFile : Type :=
  mkAnalyzedFile {
    af_path : string;
    af_content : string;
    af_extension : string
  }.

Record ExcludedFile : Type :=
  mkExcludedFile {
    ef_path : string;
    ef_reason : string
  }.

(** [interface AnalysisResult]. *)
Record AnalysisResult : Type :=
  mkAnalysisResult {
    analyzedFiles : list AnalyzedFile;
    excludedFiles : list ExcludedFile;
    limited : bool;
    totalSize : Z;
    limitReason : option string
  }.

Definition markdownExcluded (file : string) : ExcludedFile :=
  {| ef_path := file; ef_reason := "Markdown file excluded from code analysis" |}.

Definition countExcluded (file : string) : ExcludedFile :=
  {| ef_path := file; ef_reason := "Excluded due to file count limit" |}.

Definition pushExcluded (e : ExcludedFile) (result : AnalysisResult) : AnalysisResult :=
  {| analyzedFiles := analyzedFiles result;
     excludedFiles := excludedFiles result ++ [e];
     limited := limited result;
     totalSize := totalSize result;
     limitReason := limitReason result |}.

Definition setLimited (reason : string) (result : AnalysisResult) : AnalysisResult :=
  {| analyzedFiles := analyzedFiles result;
     excludedFiles := excludedFiles result;
     limited := true;
     totalSize := totalSize result;
     limitReason := Some reason |}.

Section FileAnalyzer.

Variable config : AutodocumentConfig.

Definition lowerExt (file : string) : string := Path.toLowerCase (Path.extname file).

Definition isMarkdown (file : string) : bool := String.eqb (lowerExt file) ".md".

(** The value the [filter] callback of [analyzeFiles] returns. *)
Definition isCandidate (file : string) : bool :=
  negb (isMarkdown file)
  && includes (codeExtensions (fileProcessing config)) (lowerExt file).

(** The [filter] at the head of [analyzeFiles]: the candidates it keeps,
    and the result record after the pushes of its callback. *)
Fixpoint filterCodeFiles (filePaths : list string) (result : AnalysisResult)
  : list string * AnalysisResult :=
  match filePaths with
  | [] => ([], result)
  | file :: rest =>
      if isMarkdown file then
        filterCodeFiles rest (pushExcluded (markdownExcluded file) result)
      else
        let '(kept, result') := filterCodeFiles rest result in
        (if includes (codeExtensions (fileProcessing config)) (lowerExt file)
         then file :: kept else kept, result')
  end.

Definition maxFileSize : Z := maxFileSizeKb (fileProcessing config) * 1024.

Definition maxTotalSize : Z :=
  maxFilesPerDirectory (fileProcessing config) * maxFileSizeKb (fileProcessing config) * 1024.

Definition sizeReason (size : Z) : string :=
  "File size (" +:+ show (roundKb size) +:+ "KB) exceeds limit ("
    +:+ show (maxFileSizeKb (fileProcessing config)) +:+ "KB)".

Definition readErrorReason (message : string) : string :=
  "Error reading file: " +:+ message.

(** [processFile(filePath, result)]. *)
Definition processFile (disk : Disk) (filePath : string) (result : AnalysisResult)
  : AnalysisResult :=
  match statSync disk filePath with
  | Throw m => pushExcluded {| ef_path := filePath; ef_reason := readErrorReason m |} result
  | Ok stats =>
      if maxFileSize <? st_size stats then
        pushExcluded {| ef_path := filePath; ef_reason := sizeReason (st_size stats) |} result
      else
        match readFile disk filePath with
        | Throw m =>
            pushExcluded {| ef_path := filePath; ef_reason := readErrorReason m |} result
        | Ok content =>
            {| analyzedFiles :=
                 analyzedFiles result
                 ++ [ {| af_path := filePath; af_content := content;
                         af_extension := lowerExt filePath |} ];
               excludedFiles := excludedFiles result;
               limited := limited result;
               totalSize := totalSize result + st_size stats;
               limitReason := limitReason result |}
        end
  end.

Definition countReason (count : nat) : string :=
  "Too many files (" +:+ show (Z.of_nat count) +:+ " > "
    +:+ show (maxFilesPerDirectory (fileProcessing config)) +:+ ")".

Definition totalReason (total : Z) : string :=
  "Total size exceeds limit (" +:+ show (roundKb total) +:+ "KB > "
    +:+ show (roundKb maxTotalSize) +:+ "KB)".

(** The loop of the file-count branch. *)
Fixpoint countLimitedLoop (disk : Disk) (limitedFiles codeFiles : list string)
    (result : AnalysisResult) : AnalysisResult :=
  match codeFiles with
  | [] => result
  | file :: rest =>
      countLimitedLoop disk limitedFiles rest
        (if includes limitedFiles file then processFile disk file result
         else pushExcluded (countExcluded file) result)
  end.

(** The loop that processes all files, with its [break]. *)
Fixpoint sizeLimitedLoop (disk : Disk) (codeFiles : list string)
    (result : AnalysisResult) : AnalysisResult :=
  match codeFiles with
  | [] => result
  | file :: rest =>
      let result' := processFile disk file result in
      if maxTotalSize <? totalSize result' then
        setLimited (totalReason (totalSize result')) result'
      else sizeLimitedLoop disk rest result'
  end.

Definition emptyResult : AnalysisResult :=
  {| analyzedFiles := []; excludedFiles := []; limited := false;
     totalSize := 0; limitReason := None |}.

(** [analyzeFiles(directoryPath, filePaths)]. *)
Definition analyzeFiles (disk : Disk) (directoryPath : string) (filePaths : list string)
  : AnalysisResult :=
  let '(codeFiles, result) := filterCodeFiles filePaths emptyResult in
  if maxFilesPerDirectory (fileProcessing config) <? Z.of_nat (length codeFiles) then
    let result := setLimited (countReason (length codeFiles)) result in
    let limitedFiles := slice0 codeFiles (maxFilesPerDirectory (fileProcessing config)) in
    countLimitedLoop disk limitedFiles codeFiles result
  else sizeLimitedLoop disk codeFiles result.

(** [shouldDocument(directoryPath, filePaths, hasSubdirectories)]. *)
Definition shouldDocument (directoryPath : string) (filePaths : list string)
    (hasSubdirectories : bool) : bool :=
  let codeFiles := List.filter isCandidate filePaths in
  if bool_decide (length codeFiles = 1%nat) && negb hasSubdirectories then false
  else bool_decide (0 < length codeFiles)%nat.

End FileAnalyzer.

(** ** The generator tools ([src/tools/*-tool.ts]) *)

(** [interface AutoToolResult]. *)
Record AutoToolResult : Type :=
  mkAutoToolResult {
    outputPath : string;
    success : bool;
    content : string;
    error : option string;
    isUpdate : bool;
    skipped : option bool
  }.

(** The tool configuration: [BaseToolConfig] and the three prompts. *)
Record ToolConfig : Type :=
  mkToolConfig {
    outputFilename : string;
    fallbackFilename : string;
    updateExisting : bool;
    systemPrompt : string;
    topLevelPrompt : string;
    withChildrenPrompt : string
  }.

(** The wording in which the three tool classes differ. *)
Record Wording : Type :=
  mkWording {
    w_subject : string;
    w_title : string;
    w_manual : string → string
  }.

Definition testPlanWording : Wording :=
  {| w_subject := "test plan";
     w_title := "Test Plan Skipped";
     w_manual := λ out,
       "You can manually create a test plan for this directory by replacing this file with a proper "
         +:+ out +:+ " file." |}.

Definition documentationWording : Wording :=
  {| w_subject := "documentation";
     w_title := "Documentation Skipped";
     w_manual := λ _,
       "You can manually document this directory by replacing this file with a proper documentation.md file." |}.

Definition codeReviewWording : Wording :=
  {| w_subject := "code review";
     w_title := "Code Review Skipped";
     w_manual := λ out,
       "You can manually create a code review for this directory by replacing this file with a proper "
         +:+ out +:+ " file." |}.

Definition updateExistingContentPrompt : string :=
  "There is existing content that may need updating. Review it and incorporate any still-relevant information, but update as needed to match the current code.".

(** The arguments of [OpenRouterClient.generateWithCustomPrompt]. *)
Record LlmRequest : Type :=
  mkLlmRequest {
    rq_files : list (string * string);
    rq_systemPrompt : string;
    rq_existingContent : option string;
    rq_isTopLevel : bool;
    rq_childrenContent : list ChildContent
  }.

(** [interface DocumentationResponse]. *)
Record DocumentationResponse : Type :=
  mkDocumentationResponse {
    rs_content : string;
    rs_successful : bool;
    rs_error : option string
  }.

(** Truthiness of a string that may be [null] or [undefined]. *)
Definition truthyOpt (a : option string) : bool :=
  match a with
  | Some s => truthy s
  | None => false
  end.

(** [a || b] on an optional string. *)
Definition orElse (a : option string) (b : string) : string :=
  match a with
  | Some s => if truthy s then s else b
  | None => b
  end.

Section Tool.

Variable config : ToolConfig.
Variable wording : Wording.

(** The completion service, which reports its own failures in the
    response. *)
Variable llm : LlmRequest → DocumentationResponse.

(** [readExistingFile(filePath)]; [None] is [null]. *)
Definition readExistingFile (disk : Disk) (filePath : string) : option string :=
  if existsSync disk filePath then
    match readFile disk filePath with
    | Ok text => Some text
    | Throw _ => None
    end
  else None.

Definition failure (filePath message : string) (isUpdate : bool) : AutoToolResult :=
  {| outputPath := filePath; success := false; content := ""; error := Some message;
     isUpdate := isUpdate; skipped := None |}.

(** [generate(directoryPath, analysisResult, isTopLevel, childrenContent)],
    with the disk it leaves. *)
Definition generate (disk : Disk) (directoryPath : string)
    (analysisResult : AnalysisResult) (isTopLevel : bool)
    (childrenContent : list ChildContent) : AutoToolResult * Disk :=
  let filePath := Path.join directoryPath (outputFilename config) in
  let existing := readExistingFile disk filePath in
  let isUpdate := bool_decide (existing ≠ None) in
  if isUpdate && negb (updateExisting config) then
    ({| outputPath := filePath; success := true; content := default "" existing;
        error := None; isUpdate := false; skipped := Some true |}, disk)
  else
    let files :=
      (λ file, (Path.relative directoryPath (af_path file), af_content file))
        <$> analyzedFiles analysisResult in
    let prompt :=
      if isTopLevel then topLevelPrompt config
      else if bool_decide (0 < length childrenContent)%nat then withChildrenPrompt config
      else systemPrompt config in
    let prompt :=
      if truthyOpt existing then prompt +:+ " " +:+ updateExistingContentPrompt
      else prompt in
    let genResult :=
      llm {| rq_files := files; rq_systemPrompt := prompt;
             rq_existingContent := if truthyOpt existing then existing else None;
             rq_isTopLevel := isTopLevel; rq_childrenContent := childrenContent |} in
    if negb (rs_successful genResult) then
      (failure filePath
         (orElse (rs_error genResult)
            ("Unknown error during " +:+ w_subject wording +:+ " generation"))
         isUpdate, disk)
    else
      match writeFile disk directoryPath (outputFilename config) (rs_content genResult) with
      | Throw m =>
          (failure filePath ("Error generating " +:+ w_subject wording +:+ ": " +:+ m)
             isUpdate, disk)
      | Ok disk' =>
          ({| outputPath := filePath; success := true; content := rs_content genResult;
              error := None; isUpdate := isUpdate; skipped := None |}, disk')
      end.

Definition bullet (directoryPath : string) (file : string) : string :=
  "- `" +:+ Path.relative directoryPath file +:+ "`".

Fixpoint concatStrings (l : list string) : string :=
  match l with
  | [] => ""
  | x :: r => x +:+ concatStrings r
  end.

(** [createFallbackContent(directoryPath, analysisResult)]. *)
Definition createFallbackContent (directoryPath : string) (analysisResult : AnalysisResult)
  : string :=
  let heading := "# " +:+ Path.basename directoryPath +:+ " - " +:+ w_title wording
                   +:+ nl +:+ nl in
  let reason :=
    match limited analysisResult, limitReason analysisResult with
    | true, Some r => if truthy r then "## Reason" +:+ nl +:+ nl +:+ r +:+ nl +:+ nl else ""
    | _, _ => ""
    end in
  let analyzed :=
    if bool_decide (0 < length (analyzedFiles analysisResult))%nat then
      "## Analyzed Files" +:+ nl +:+ nl
      +:+ concatStrings ((λ f, bullet directoryPath (af_path f) +:+ nl)
                           <$> analyzedFiles analysisResult)
      +:+ nl
    else "" in
  let excluded :=
    if bool_decide (0 < length (excludedFiles analysisResult))%nat then
      "## Excluded Files" +:+ nl +:+ nl
      +:+ concatStrings ((λ f, bullet directoryPath (ef_path f) +:+ ": " +:+ ef_reason f +:+ nl)
                           <$> excludedFiles analysisResult)
      +:+ nl
    else "" in
  heading +:+ reason +:+ analyzed +:+ excluded
  +:+ "## How to Fix" +:+ nl +:+ nl
  +:+ w_manual wording (outputFilename config) +:+ nl
  +:+ "Alternatively, you can increase the file limits in the tool configuration and run again."
  +:+ nl.

End Tool.

(** ** The completion client ([src/openrouter/client.ts]) *)

(** [array.join(sep)] on strings. *)
Fixpoint joinWith (sep : string) (l : list string) : string :=
  match l with
  | [] => ""
  | x :: rest =>
      match rest with
      | [] => x
      | _ :: _ => x +:+ sep +:+ joinWith sep rest
      end
  end.

Definition fileBlock (file : string * string) : string :=
  "File: " +:+ file.1 +:+ nl +:+ "```" +:+ nl +:+ file.2 +:+ nl +:+ "```".

Definition childBlock (doc : ChildContent) : string :=
  "Sub-directory Content: " +:+ cc_path doc +:+ nl +:+ "```markdown" +:+ nl
  +:+ cc_content doc +:+ nl +:+ "```".

(** The user message [generateWithCustomPrompt] builds, statement by
    statement. The tools always pass an array of children; a missing one
    behaves as the empty one. *)
Definition messageOpening (files : list (string * string))
    (childrenContent : list ChildContent) : string :=
  let fileContents := joinWith (nl +:+ nl) (fileBlock <$> files) in
  if bool_decide (length files = 0%nat) && bool_decide (0 < length childrenContent)%nat
  then
    "Generate content that synthesizes and summarizes information from the following subdirectory files. This directory contains no code files itself, but needs content that aggregates information from its subdirectories:"
  else
    let userMessage :=
      "Generate comprehensive but concise content for the following code files:" in
    if truthy fileContents then userMessage +:+ (nl +:+ nl +:+ fileContents)
    else userMessage.

Definition addChildren (childrenContent : list ChildContent) (userMessage : string)
  : string :=
  let childrenDocsContent := joinWith (nl +:+ nl) (childBlock <$> childrenContent) in
  if truthy childrenDocsContent then
    userMessage
    +:+ (nl +:+ nl
         +:+ "Additionally, incorporate information from these subdirectory files:"
         +:+ nl +:+ nl +:+ childrenDocsContent)
  else userMessage.

Definition addExisting (existingContent : option string) (userMessage : string) : string :=
  match existingContent with
  | Some existing =>
      if truthy existing then
        userMessage
        +:+ (nl +:+ nl +:+ "Existing content for reference:" +:+ nl +:+ "```markdown"
             +:+ nl +:+ existing +:+ nl +:+ "```")
      else userMessage
  | None => userMessage
  end.

Definition userMessage (files : list (string * string)) (existingContent : option string)
    (childrenContent : list ChildContent) : string :=
  addExisting existingContent (addChildren childrenContent (messageOpening files childrenContent))
  +:+ (nl +:+ nl
       +:+ "The output should be in Markdown format with appropriate headings and explanations. DO NOT INCLUDE CODE SAMPLES OR CODE BLOCKS.").

(** [generateWithCustomPrompt(files, systemPrompt, existingContent,
    isTopLevel, childrenContent)], over the remote completion: given the
    system prompt and the user message it returns the content of the
    first choice, if there is one, or throws. *)
Definition generateWithCustomPrompt (complete : string → string → Result (option string))
    (request : LlmRequest) : DocumentationResponse :=
  match complete (rq_systemPrompt request)
          (userMessage (rq_files request) (rq_existingContent request)
             (rq_childrenContent request)) with
  | Ok generatedContent =>
      {| rs_content := orElse generatedContent ""; rs_successful := true;
         rs_error := None |}
  | Throw m => {| rs_content := ""; rs_successful := false; rs_error := Some m |}
  end.

(** ** The aggregation driver ([build/tools/aggregator.js]) *)

#[global] Instance Result_bind : MBind Result :=
  λ A B f r, match r with Ok a => f a | Throw m => Throw m end.

Record ErrorEntry : Type :=
  mkErrorEntry {
    err_directory : string;
    err_error : string
  }.

(** [interface AggregationResult]. *)
Record AggregationResult : Type :=
  mkAggregationResult {
    totalDirectories : nat;
    successfulGenerations : nat;
    failedGenerations : nat;
    fallbackFiles : nat;
    updatedGenerations : nat;
    skippedGenerations : nat;
    errors : list ErrorEntry
  }.

(** The objects the driver holds in its fields. The driver calls their
    methods and any such call may throw. *)
Record CrawlerObject : Type :=
  mkCrawlerObject {
    c_createBottomUpOrder : Node → Result (list string);
    c_getCodeFiles : Disk → string → Result (list string);
    c_hasSubdirectories : Disk → string → Result bool;
    c_getSubdirectoryDocs : Disk → string → Result (list ChildContent);
    c_getSingleFileSubdirectories : Disk → string → Result (list ChildContent)
  }.

Record AnalyzerObject : Type :=
  mkAnalyzerObject {
    a_shouldDocument : string → list string → bool → Result bool;
    a_analyzeFiles : Disk → string → list string → Result AnalysisResult
  }.

(** [abstract class BaseTool]. *)
Record ToolObject : Type :=
  mkToolObject {
    t_generate :
      Disk → string → AnalysisResult → bool → list ChildContent
      → Result (AutoToolResult * Disk);
    t_createFallbackContent : string → AnalysisResult → Result string;
    t_getOutputFilename : string;
    t_getFallbackFilename : string
  }.

(** [class ToolAggregator]. *)
Record ToolAggregator : Type :=
  mkToolAggregator {
    rootPath : string;
    agg_updateExisting : bool;
    crawler : CrawlerObject;
    analyzer : AnalyzerObject;
    tool : ToolObject
  }.

(** [new DirectoryCrawler(rootPath, options)]: none of its methods lets an
    exception out. *)
Definition DirectoryCrawler (config : AutodocumentConfig) (shouldIgnore : string → bool)
    (options : CrawlerOptions) (rootPath : string) : CrawlerObject :=
  {| c_createBottomUpOrder := λ root,
       Ok (createBottomUpOrder (scan shouldIgnore options rootPath root));
     c_getCodeFiles := λ disk d, Ok (getCodeFiles config shouldIgnore options disk d);
     c_hasSubdirectories := λ disk d, Ok (hasSubdirectories shouldIgnore options disk d);
     c_getSubdirectoryDocs := λ disk d,
       Ok (getSubdirectoryDocs config shouldIgnore options disk d);
     c_getSingleFileSubdirectories := λ disk d,
       Ok (getSingleFileSubdirectories config shouldIgnore options disk d) |}.

(** [new FileAnalyzer()]. *)
Definition FileAnalyzer (config : AutodocumentConfig) : AnalyzerObject :=
  {| a_shouldDocument := λ d files hasSub, Ok (shouldDocument config d files hasSub);
     a_analyzeFiles := λ disk d files, Ok (analyzeFiles config disk d files) |}.

(** The three tool classes, as objects. *)
Definition PromptTool (config : ToolConfig) (wording : Wording)
    (llm : LlmRequest → DocumentationResponse) : ToolObject :=
  {| t_generate := λ disk d analysisResult isTopLevel childrenContent,
       Ok (generate config wording llm disk d analysisResult isTopLevel childrenContent);
     t_createFallbackContent := λ d analysisResult,
       Ok (createFallbackContent config wording d analysisResult);
     t_getOutputFilename := outputFilename config;
     t_getFallbackFilename := fallbackFilename config |}.

(** The constructor of [ToolAggregator]. *)
Definition newToolAggregator (config : AutodocumentConfig) (shouldIgnore : string → bool)
    (rootPath : string) (tool : ToolObject) (updateExisting : bool) : ToolAggregator :=
  {| rootPath := rootPath;
     agg_updateExisting := updateExisting;
     crawler := DirectoryCrawler config shouldIgnore
                  {| respectGitignore := true; includeHidden := false |} rootPath;
     analyzer := FileAnalyzer config;
     tool := tool |}.

Definition initialResult : AggregationResult :=
  {| totalDirectories := 0; successfulGenerations := 0; failedGenerations := 0;
     fallbackFiles := 0; updatedGenerations := 0; skippedGenerations := 0; errors := [] |}.

Definition setTotal (n : nat) (r : AggregationResult) : AggregationResult :=
  {| totalDirectories := n;
     successfulGenerations := successfulGenerations r;
     failedGenerations := failedGenerations r;
     fallbackFiles := fallbackFiles r;
     updatedGenerations := updatedGenerations r;
     skippedGenerations := skippedGenerations r;
     errors := errors r |}.

Definition incSuccessful (r : AggregationResult) : AggregationResult :=
  {| totalDirectories := totalDirectories r;
     successfulGenerations := S (successfulGenerations r);
     failedGenerations := failedGenerations r;
     fallbackFiles := fallbackFiles r;
     updatedGenerations := updatedGenerations r;
     skippedGenerations := skippedGenerations r;
     errors := errors r |}.

Definition incFailed (r : AggregationResult) : AggregationResult :=
  {| totalDirectories := totalDirectories r;
     successfulGenerations := successfulGenerations r;
     failedGenerations := S (failedGenerations r);
     fallbackFiles := fallbackFiles r;
     updatedGenerations := updatedGenerations r;
     skippedGenerations := skippedGenerations r;
     errors := errors r |}.

Definition incFallback (r : AggregationResult) : AggregationResult :=
  {| totalDirectories := totalDirectories r;
     successfulGenerations := successfulGenerations r;
     failedGenerations := failedGenerations r;
     fallbackFiles := S (fallbackFiles r);
     updatedGenerations := updatedGenerations r;
     skippedGenerations := skippedGenerations r;
     errors := errors r |}.

Definition incUpdated (r : AggregationResult) : AggregationResult :=
  {| totalDirectories := totalDirectories r;
     successfulGenerations := successfulGenerations r;
     failedGenerations := failedGenerations r;
     fallbackFiles := fallbackFiles r;
     updatedGenerations := S (updatedGenerations r);
     skippedGenerations := skippedGenerations r;
     errors := errors r |}.

Definition incSkipped (r : AggregationResult) : AggregationResult :=
  {| totalDirectories := totalDirectories r;
     successfulGenerations := successfulGenerations r;
     failedGenerations := failedGenerations r;
     fallbackFiles := fallbackFiles r;
     updatedGenerations := updatedGenerations r;
     skippedGenerations := S (skippedGenerations r);
     errors := errors r |}.

Definition pushError (directory message : string) (r : AggregationResult)
  : AggregationResult :=
  {| totalDirectories := totalDirectories r;
     successfulGenerations := successfulGenerations r;
     failedGenerations := failedGenerations r;
     fallbackFiles := fallbackFiles r;
     updatedGenerations := updatedGenerations r;
     skippedGenerations := skippedGenerations r;
     errors := errors r ++ [ {| err_directory := directory; err_error := message |} ] |}.

Section Aggregator.

Variable this : ToolAggregator.

(** [generateContent(directoryPath, analysisResult, isTopLevel,
    childContent, aggregationResult)]: the generation result, the updated
    counters and the disk. *)
Definition generateContent (disk : Disk) (directoryPath : string)
    (analysisResult : AnalysisResult) (isTopLevel : bool)
    (childContent : list ChildContent) (aggregationResult : AggregationResult)
  : AutoToolResult * AggregationResult * Disk :=
  match t_generate (tool this) disk directoryPath analysisResult isTopLevel childContent with
  | Ok (genResult, disk') =>
      if success genResult then (genResult, incSuccessful aggregationResult, disk')
      else
        (genResult,
         pushError directoryPath (orElse (error genResult) "Unknown error")
           (incFailed aggregationResult),
         disk')
  | Throw m =>
      ({| outputPath := Path.join directoryPath (t_getOutputFilename (tool this));
          success := false; content := ""; error := Some m; isUpdate := false;
          skipped := None |},
       pushError directoryPath m (incFailed aggregationResult),
       disk)
  end.

(** One turn of the loop of [run], for [directories[i]]: the counters and
    the disk after it, or the exception that leaves the loop. *)
Definition processDirectory (directoryPath : string) (st : AggregationResult * Disk)
  : Result (AggregationResult * Disk) :=
  let '(result, disk) := st in
  files ← c_getCodeFiles (crawler this) disk directoryPath;
  hasSubdirectories ← c_hasSubdirectories (crawler this) disk directoryPath;
  document ← a_shouldDocument (analyzer this) directoryPath files hasSubdirectories;
  if negb document then Ok (result, disk)
  else
    subdirContent ← c_getSubdirectoryDocs (crawler this) disk directoryPath;
    singleFileContent ← c_getSingleFileSubdirectories (crawler this) disk directoryPath;
    analysisResult ← a_analyzeFiles (analyzer this) disk directoryPath files;
    if limited analysisResult then
      fallbackContent ← t_createFallbackContent (tool this) directoryPath analysisResult;
      disk' ← writeFile disk directoryPath (t_getFallbackFilename (tool this)) fallbackContent;
      Ok (incFallback result, disk')
    else
      let allChildContent := subdirContent ++ singleFileContent in
      let isTopLevel := bool_decide (directoryPath = rootPath this) in
      let '(genResult, result, disk) :=
        generateContent disk directoryPath analysisResult isTopLevel allChildContent result in
      if bool_decide (skipped genResult = Some true) then Ok (incSkipped result, disk)
      else if isUpdate genResult then Ok (incUpdated result, disk)
      else Ok (result, disk).

(** The [for] loop of [run]: the state reached, and the exception that
    ended the loop early, if one did. *)
Fixpoint processAll (directories : list string) (st : AggregationResult * Disk)
  : AggregationResult * Disk * option string :=
  match directories with
  | [] => (st, None)
  | directoryPath :: rest =>
      match processDirectory directoryPath st with
      | Ok st' => processAll rest st'
      | Throw m => (st, Some m)
      end
  end.

Definition globalError (m : string) (result : AggregationResult) : AggregationResult :=
  pushError (rootPath this) ("Global error: " +:+ m) result.

(** [run()], called without a progress callback, on the tree found at
    the root path: the result it returns and the disk it leaves. *)
Definition run (root : Node) : AggregationResult * Disk :=
  let disk := disk_of (rootPath this) root in
  match c_createBottomUpOrder (crawler this) root with
  | Throw m => (globalError m initialResult, disk)
  | Ok directories =>
      let result := setTotal (length directories) initialResult in
      match processAll directories (result, disk) with
      | (st, None) => st
      | ((result, disk), Some m) => (globalError m result, disk)
      end
  end.

End Aggregator.

(** * Vocabulary of the statements *)

(** A decidable proposition about concrete data, settled by evaluation. *)
Ltac by_compute := apply (bool_decide_unpack _); vm_compute; exact I.

(** ** Induction over trees *)

Section TreeInduction.

Variable P : Directory → Prop.
Hypothesis step : ∀ p n subs files leaf,
  Forall P subs → P (mkDirectory p n subs files leaf).

Fixpoint Directory_ind (d : Directory) : P d :=
  match d with
  | mkDirectory p n subs files leaf =>
      step p n subs files leaf
        ((fix all (l : list Directory) : Forall P l :=
            match l with
            | [] => Forall_nil_2 P
            | x :: r => Forall_cons_2 P x r (Directory_ind x) (all r)
            end) subs)
  end.

End TreeInduction.

Section NodeInduction.

Variable P : Node → Prop.
Hypothesis file_case : ∀ size content, P (NFile size content).
Hypothesis unreadable_case : P (NDir None).
Hypothesis broken_case : P NBroken.
Hypothesis dir_case : ∀ entries,
  Forall (λ e, P e.2) entries → P (NDir (Some entries)).

Fixpoint Node_ind (n : Node) : P n :=
  match n with
  | NFile size content => file_case size content
  | NDir None => unreadable_case
  | NBroken => broken_case
  | NDir (Some entries) =>
      dir_case entries
        ((fix all (l : list (string * Node)) : Forall (λ e, P e.2) l :=
            match l with
            | [] => Forall_nil_2 _
            | x :: r => Forall_cons_2 (λ e, P e.2) x r (Node_ind x.2) (all r)
            end) entries)
  end.

End NodeInduction.

(** A tail is what follows a directory path in the path of something at or
    below it: nothing, or a separator and more. *)
Definition tail (t : string) : Prop := t = "" ∨ ∃ r, t = "/" +:+ r.

Section ScanVocabulary.

Variable shouldIgnore : string → bool.
Variable options : CrawlerOptions.

(** What the walk makes of one entry of a directory: a subdirectory
    node, or nothing. *)
Definition scanEntry (dirPath : string) (e : string * Node) : option Directory :=
  if skipped_entry shouldIgnore options (Path.join dirPath e.1) e.1 then None
  else match e.2 with
       | NDir _ => Some (scanDirectory shouldIgnore options (Path.join dirPath e.1) e.2)
       | _ => None
       end.

(** The directories the walk reaches from a root: the root, and below a
    readable directory every entry that is not skipped and is itself a
    directory, with what is reached from it. *)
Inductive reachable : string → Node → string → Prop :=
  | reach_root (p : string) (n : Node) : reachable p n p
  | reach_entry (p : string) (es : list (string * Node)) (e : string) (c : Node)
      (q : string) :
      (e, c) ∈ es →
      skipped_entry shouldIgnore options (Path.join p e) e = false →
      isDirectory c = true →
      reachable (Path.join p e) c q →
      reachable p (NDir (Some es)) q.

End ScanVocabulary.

(** The loop of [processDir] over the subdirectories. *)
Fixpoint processSubdirs (subs : list Directory) (st : OrderState) : OrderState :=
  match subs with
  | [] => st
  | subdir :: rest =>
      processSubdirs rest
        (if bool_decide (dir_path subdir ∈ processedDirs st) then st
         else processDir subdir st)
  end.

Section AnalyzerVocabulary.

Variable config : AutodocumentConfig.
Variable disk : Disk.

(** What [processFile] does with one file: it analyzes it, with the
    size it adds to the total, or it excludes it. *)
Definition fileOutcome (filePath : string) : AnalyzedFile * Z + ExcludedFile :=
  match statSync disk filePath with
  | Throw m => inr {| ef_path := filePath; ef_reason := readErrorReason m |}
  | Ok stats =>
      if maxFileSize config <? st_size stats then
        inr {| ef_path := filePath; ef_reason := sizeReason config (st_size stats) |}
      else
        match readFile disk filePath with
        | Throw m => inr {| ef_path := filePath; ef_reason := readErrorReason m |}
        | Ok text =>
            inl ({| af_path := filePath; af_content := text;
                    af_extension := lowerExt filePath |}, st_size stats)
        end
  end.

Definition analyzedOf (files : list string) : list AnalyzedFile :=
  omap (λ f, match fileOutcome f with inl (a, _) => Some a | inr _ => None end) files.

Definition excludedOf (files : list string) : list ExcludedFile :=
  omap (λ f, match fileOutcome f with inl _ => None | inr e => Some e end) files.

Fixpoint sizeOf (files : list string) : Z :=
  match files with
  | [] => 0
  | f :: rest =>
      match fileOutcome f with inl (_, size) => size | inr _ => 0 end + sizeOf rest
  end.

(** [processFile] on each file of a list in turn, with no check between. *)
Definition processFiles (files : list string) (result : AnalysisResult) : AnalysisResult :=
  foldl (λ r f, processFile config disk f r) result files.

(** The file-count ceiling. *)
Definition ceiling : Z := maxFilesPerDirectory (fileProcessing config).

(** A count-limit entry differs from every entry [processFile] and the
    markdown filter make. *)
Definition isCountExcluded (e : ExcludedFile) : bool :=
  String.eqb (ef_reason e) "Excluded due to file count limit".

End AnalyzerVocabulary.

Section GeneratorVocabulary.

Variable config : ToolConfig.

(** The outcome of the skip path. *)
Definition skippedOutcome (directoryPath text : string) : AutoToolResult :=
  {| outputPath := Path.join directoryPath (outputFilename config);
     success := true; content := text; error := None;
     isUpdate := false; skipped := Some true |}.

(** The same tool configuration with overwriting allowed. *)
Definition allowUpdate : ToolConfig :=
  {| outputFilename := outputFilename config;
     fallbackFilename := fallbackFilename config;
     updateExisting := true;
     systemPrompt := systemPrompt config;
     topLevelPrompt := topLevelPrompt config;
     withChildrenPrompt := withChildrenPrompt config |}.

End GeneratorVocabulary.

(** ** Fixtures *)

Module Fixtures.

(** Ceiling of two files of at most 10KB each. *)
Definition smallConfig : AutodocumentConfig :=
  {| fileProcessing :=
       {| codeExtensions := codeExtensions (fileProcessing defaultConfig);
          maxFileSizeKb := 10;
          maxFilesPerDirectory := 2 |};
     documentation := documentation defaultConfig |}.

Definition nineKb : Z := 9 * 1024.

(** A directory [/d] with three files of 9KB each. *)
Definition threeFiles : Disk :=
  list_to_map
    [("/d", EDir 4096 (Some ["a.ts"; "b.ts"; "c.ts"]) true);
     ("/d/a.ts", EFile nineKb (Ok "a") true);
     ("/d/b.ts", EFile nineKb (Ok "b") true);
     ("/d/c.ts", EFile nineKb (Ok "c") true)].

(** A directory [/d] with two files of exactly 10KB each. *)
Definition twoFull : Disk :=
  list_to_map
    [("/d", EDir 4096 (Some ["a.ts"; "b.ts"]) true);
     ("/d/a.ts", EFile (10 * 1024) (Ok "a") true);
     ("/d/b.ts", EFile (10 * 1024) (Ok "b") true)].


(** A configuration with a negative per-file limit. *)
Definition negativeConfig : AutodocumentConfig :=
  {| fileProcessing :=
       {| codeExtensions := codeExtensions (fileProcessing defaultConfig);
          maxFileSizeKb := -1;
          maxFilesPerDirectory := 2 |};
     documentation := documentation defaultConfig |}.

Definition testPlanConfig (updateExisting : bool) : ToolConfig :=
  {| outputFilename := "testplan.md"; fallbackFilename := "untested.md";
     updateExisting := updateExisting;
     systemPrompt := "plan"; topLevelPrompt := "plan the project";
     withChildrenPrompt := "plan with children" |}.

(** A completion service that answers, and one that fails. *)
Definition answering (request : LlmRequest) : DocumentationResponse :=
  {| rs_content := "generated: " +:+ rq_systemPrompt request; rs_successful := true;
     rs_error := None |}.

Definition failing (request : LlmRequest) : DocumentationResponse :=
  {| rs_content := ""; rs_successful := false; rs_error := Some "rate limited" |}.

(** A directory [/d] with two code files and a test plan written
    earlier. *)
Definition withPlan : Disk :=
  list_to_map
    [("/d", EDir 4096 (Some ["a.ts"; "b.ts"; "testplan.md"]) true);
     ("/d/a.ts", EFile 1 (Ok "a") true);
     ("/d/b.ts", EFile 1 (Ok "b") true);
     ("/d/testplan.md", EFile 8 (Ok "old plan") true)].

(** The same directory with a test plan that may be neither read nor
    written. *)
Definition withLockedPlan : Disk :=
  list_to_map
    [("/d", EDir 4096 (Some ["a.ts"; "b.ts"; "testplan.md"]) true);
     ("/d/a.ts", EFile 1 (Ok "a") true);
     ("/d/b.ts", EFile 1 (Ok "b") true);
     ("/d/testplan.md",
      EFile 8 (Throw "EACCES: permission denied, open '/d/testplan.md'") false)].

(** A project whose root holds no code file, only a subdirectory with
    two. *)
Definition onlySubdirectory : Node :=
  NDir (Some [("lib", NDir (Some [("a.ts", NFile 1 (Ok "a")); ("b.ts", NFile 1 (Ok "b"))]))]).

Definition testPlanAggregator (llm : LlmRequest → DocumentationResponse) : ToolAggregator :=
  newToolAggregator defaultConfig (λ _, false) "/proj"
    (PromptTool (testPlanConfig true) testPlanWording llm) true.

(** A project with two code files and a test plan written earlier. *)
Definition plannedProject : Node :=
  NDir (Some [("a.ts", NFile 1 (Ok "a")); ("b.ts", NFile 1 (Ok "b"));
              ("testplan.md", NFile 8 (Ok "old plan"))]).

(** A project with two subdirectories of two code files each and two
    code files of its own. *)
Definition twoSubdirectories : Node :=
  NDir (Some [("a", NDir (Some [("x.ts", NFile 1 (Ok "x")); ("y.ts", NFile 1 (Ok "y"))]));
              ("b", NDir (Some [("x.ts", NFile 1 (Ok "x")); ("y.ts", NFile 1 (Ok "y"))]));
              ("m.ts", NFile 1 (Ok "m")); ("n.ts", NFile 1 (Ok "n"))]).

(** The aggregator with an analyzer whose [analyzeFiles] throws for the
    directory [/proj/a]. *)
Definition throwingAnalyzer : AnalyzerObject :=
  {| a_shouldDocument := a_shouldDocument (FileAnalyzer defaultConfig);
     a_analyzeFiles := λ disk d files,
       if String.eqb d "/proj/a" then Throw "boom"
       else a_analyzeFiles (FileAnalyzer defaultConfig) disk d files |}.

Definition withThrowingAnalyzer : ToolAggregator :=
  {| rootPath := "/proj"; agg_updateExisting := true;
     crawler := crawler (testPlanAggregator answering);
     analyzer := throwingAnalyzer;
     tool := tool (testPlanAggregator answering) |}.

(** The aggregator with a tool whose [generate] throws for the directory
    [/proj/a]. *)
Definition throwingTool : ToolObject :=
  {| t_generate := λ disk d analysisResult isTopLevel childrenContent,
       if String.eqb d "/proj/a" then Throw "boom"
       else t_generate (tool (testPlanAggregator answering)) disk d analysisResult
              isTopLevel childrenContent;
     t_createFallbackContent := t_createFallbackContent (tool (testPlanAggregator answering));
     t_getOutputFilename := "testplan.md";
     t_getFallbackFilename := "untested.md" |}.

Definition withThrowingTool : ToolAggregator :=
  newToolAggregator defaultConfig (λ _, false) "/proj" throwingTool true.

(** The project of the end-to-end example: [/proj/a.ts] and the
    single-file directory [/proj/sub]. *)
Definition singleFileProject : Node :=
  NDir (Some [("a.ts", NFile 50 (Ok "export const a = 1;"));
              ("sub", NDir (Some [("b.ts", NFile 30 (Ok "export const b = 2;"))]))]).

(** The same with an empty file in the subdirectory. *)
Definition emptyFileProject : Node :=
  NDir (Some [("a.ts", NFile 50 (Ok "export const a = 1;"));
              ("sub", NDir (Some [("b.ts", NFile 0 (Ok ""))]))]).

Definition crawlerOptions : CrawlerOptions :=
  {| respectGitignore := true; includeHidden := false |}.

(** A project with a documented subdirectory, a single-file subdirectory
    and two code files of its own. *)
Definition documentedProject : Node :=
  NDir (Some [("lib", NDir (Some [("a.ts", NFile 1 (Ok "a")); ("b.ts", NFile 1 (Ok "b"));
                                   ("documentation.md", NFile 4 (Ok "docs"))]));
              ("one", NDir (Some [("only.ts", NFile 5 (Ok "hello"))]));
              ("m.ts", NFile 1 (Ok "m")); ("n.ts", NFile 1 (Ok "n"))]).

(** A project with one code file and a hidden directory. *)
Definition hiddenProject : Node :=
  NDir (Some [("a.ts", NFile 1 (Ok "a"));
              (".git", NDir (Some [("config", NFile 1 (Ok "c"))]))]).

(** The same project with a dangling link beside them. *)
Definition danglingProject : Node :=
  NDir (Some [("lib", NDir (Some [("a.ts", NFile 1 (Ok "a")); ("b.ts", NFile 1 (Ok "b"));
                                   ("documentation.md", NFile 4 (Ok "docs"))]));
              ("one", NDir (Some [("only.ts", NFile 5 (Ok "hello"))]));
              ("m.ts", NFile 1 (Ok "m")); ("n.ts", NFile 1 (Ok "n"));
              ("link", NBroken)]).

End Fixtures.

(** ** Further vocabulary *)

(** The loop of [collectLeafDirs] over the subdirectories. *)
Fixpoint collectLeafSubdirs (subs : list Directory) (result : list string) : list string :=
  match subs with
  | [] => result
  | subdir :: rest => collectLeafSubdirs rest (collectLeafDirs subdir result)
  end.

(** The state of [processDir] is consistent: the array has no path twice
    and the set holds exactly the paths of the array. *)
Definition consistent (st : OrderState) : Prop :=
  NoDup (allDirs st) ∧ ∀ q, q ∈ processedDirs st ↔ q ∈ allDirs st.

(** A node whose [isLeaf] flag says whether it has subdirectories. *)
Definition leafFlagged (D : Directory) : Prop :=
  isLeaf D = true ↔ subdirectories D = [].

(** The paths of the nodes of a tree that are flagged as leaves, in the
    order of [subtrees]. *)
Definition leafPaths (t : Directory) : list string :=
  dir_path <$> List.filter isLeaf (subtrees t).

Section OutcomeVocabulary.

(** What an analysis does with each file it visits. *)
Variable outcome : string → AnalyzedFile * Z + ExcludedFile.

Definition analyzedBy (files : list string) : list AnalyzedFile :=
  omap (λ f, match outcome f with inl (a, _) => Some a | inr _ => None end) files.

Definition excludedBy (files : list string) : list ExcludedFile :=
  omap (λ f, match outcome f with inl _ => None | inr e => Some e end) files.

Fixpoint sizeBy (files : list string) : Z :=
  match files with
  | [] => 0
  | f :: rest => match outcome f with inl (_, size) => size | inr _ => 0 end + sizeBy rest
  end.

End OutcomeVocabulary.

(** What the loop of the file-count branch does with one file. *)
Definition countOutcome (config : AutodocumentConfig) (disk : Disk)
    (limitedFiles : list string) (file : string) : AnalyzedFile * Z + ExcludedFile :=
  if includes limitedFiles file then fileOutcome config disk file
  else inr (countExcluded file).

(** The two ways a file is dealt with: by [processFile], or excluded for
    the file count. *)
Definition admissible (config : AutodocumentConfig) (disk : Disk)
    (o : string → AnalyzedFile * Z + ExcludedFile) : Prop :=
  ∀ f, o f = fileOutcome config disk f ∨ o f = inr (countExcluded f).

(** The counters after a number of turns of the loop of [run]: each turn
    adds to at most one of the three outcome counters, a skip or an update
    is counted with a generation, and each failure has its error entry. *)
Definition accounted (r : AggregationResult) (turns : nat) : Prop :=
  (successfulGenerations r + failedGenerations r + fallbackFiles r ≤ turns)%nat
  ∧ (skippedGenerations r + updatedGenerations r
     ≤ successfulGenerations r + failedGenerations r)%nat
  ∧ length (errors r) = failedGenerations r.

(** The nodes of a file system, each with the path the walk forms for
    it. *)
Inductive at_path (rootDir : string) (root : Node) : string → Node → Prop :=
  | at_root : at_path rootDir root rootDir root
  | at_entry (dirPath entry : string) (entries : list (string * Node)) (child : Node) :
      at_path rootDir root dirPath (NDir (Some entries)) →
      (entry, child) ∈ entries →
      at_path rootDir root (Path.join dirPath entry) child.

(** What is found on the disk at the path of a node. *)
Definition entry_of (n : Node) : option Entry :=
  match n with
  | NFile size content => Some (EFile size content true)
  | NDir None => Some (EDir 4096 None true)
  | NDir (Some entries) => Some (EDir 4096 (Some (fst <$> entries)) true)
  | NBroken => None
  end.

(** The file the walk records for an entry of a directory, if any. *)
Definition scanFile (shouldIgnore : string → bool) (options : CrawlerOptions)
    (dirPath : string) (e : string * Node) : option string :=
  if skipped_entry shouldIgnore options (Path.join dirPath e.1) e.1 then None
  else match e.2 with
       | NFile _ _ => Some (Path.join dirPath e.1)
       | _ => None
       end.

(** The size recorded for an entry. *)
Definition entrySize (e : Entry) : Z :=
  match e with
  | EFile size _ _ => size
  | EDir size _ _ => size
  end.

(** A disk as a file system gives it: no size is negative. *)
Definition realSizes (disk : Disk) : Prop :=
  map_Forall (λ _ e, 0 ≤ entrySize e) disk.

(** Whether the file of a name may be written in a directory: the
    directory is there, and the file is there and may be written, or it is
    not there and entries may be created in the directory. *)
Definition canWrite (disk : Disk) (dir name : string) : bool :=
  match disk !! dir with
  | Some (EDir _ _ dwritable) =>
      match disk !! Path.join dir name with
      | Some (EFile _ _ fwritable) => fwritable
      | Some (EDir _ _ _) => false
      | None => dwritable
      end
  | _ => false
  end.

(** One text occurs in another. *)
Definition contains (needle text : string) : Prop :=
  ∃ before after, text = before +:+ needle +:+ after.

(** The size [statSync] reports for a path, zero when it throws. *)
Definition fileSize (disk : Disk) (p : string) : Z :=
  match statSync disk p with
  | Ok stats => st_size stats
  | Throw _ => 0
  end.

(** The sizes on disk of the analyzed files, added up. *)
Definition analyzedSize (disk : Disk) (files : list AnalyzedFile) : Z :=
  foldr (λ a total, fileSize disk (af_path a) + total) 0 files.

(** * Properties *)

(** ** Paths *)

Lemma append_cons (x : ascii) (a b : string) : String x a +:+ b = String x (a +:+ b).
Proof. reflexivity. Qed.

Lemma append_nil (b : string) : "" +:+ b = b.
Proof. reflexivity. Qed.

Lemma append_assoc (a b c : string) : (a +:+ b) +:+ c = a +:+ (b +:+ c).
Proof. induction a as [|x a IH]; [done | by rewrite !append_cons, IH]. Qed.

Lemma append_empty_r (a : string) : a +:+ "" = a.
Proof. induction a as [|x a IH]; [done | by rewrite append_cons, IH]. Qed.

Lemma append_cancel_l (p a b : string) : p +:+ a = p +:+ b → a = b.
Proof. apply String.app_inj. Qed.

Lemma append_length (a b : string) :
  String.length (a +:+ b) = (String.length a + String.length b)%nat.
Proof. induction a as [|x a IH]; [done | rewrite append_cons; simpl; by rewrite IH]. Qed.

(** Two entry names followed by tails agree only if the names agree. *)
Lemma name_tail_inj (e e' t t' : string) :
  Path.noslash e = true → Path.noslash e' = true → tail t → tail t' →
  e +:+ t = e' +:+ t' → e = e'.
Proof.
  revert e'. induction e as [|c e IH]; intros [|c' e'] He He' Ht Ht' Heq.
  - done.
  - exfalso. rewrite append_nil, append_cons in Heq.
    destruct Ht as [->|[r ->]]; [done|].
    rewrite append_cons in Heq. injection Heq as <- _.
    by vm_compute in He'.
  - exfalso. rewrite append_nil, append_cons in Heq.
    destruct Ht' as [->|[r ->]]; [done|].
    rewrite append_cons in Heq. injection Heq as -> _.
    by vm_compute in He.
  - rewrite !append_cons in Heq. injection Heq as -> Heq. f_equal.
    unfold Path.noslash in *. simpl in He, He'.
    apply andb_prop in He as [_ He]. apply andb_prop in He' as [_ He'].
    by apply (IH e').
Qed.

Lemma path_not_below_itself (p e t : string) : p ≠ Path.join p e +:+ t.
Proof.
  intros H. apply (f_equal String.length) in H.
  unfold Path.join in H. rewrite !append_length in H. simpl in H. lia.
Qed.

(** ** The scanned tree *)

Lemma bind_cons {A B} (g : A → list B) (x : A) (l : list A) :
  (x :: l) ≫= g = g x ++ (l ≫= g).
Proof. reflexivity. Qed.

Lemma bind_app {A B} (g : A → list B) (l k : list A) :
  (l ++ k) ≫= g = (l ≫= g) ++ (k ≫= g).
Proof.
  induction l as [|x l IH]; [done|].
  rewrite <- app_comm_cons, !bind_cons, IH. by rewrite app_assoc.
Qed.

Section ScanFacts.

Variable shouldIgnore : string → bool.
Variable options : CrawlerOptions.

Lemma scan_path (p : string) (n : Node) :
  dir_path (scanDirectory shouldIgnore options p n) = p.
Proof.
  destruct n as [| [es|] |]; simpl; try done.
  by destruct (_ es).
Qed.

Lemma scan_subdirectories (p : string) (es : list (string * Node)) :
  subdirectories (scanDirectory shouldIgnore options p (NDir (Some es)))
  = omap (scanEntry shouldIgnore options p) es.
Proof.
  simpl.
  match goal with |- subdirectories (let '(_, _) := ?loop es in _) = _ =>
    set (L := loop) end.
  assert (H : (L es).1 = omap (scanEntry shouldIgnore options p) es).
  { induction es as [|[e c] es IH]; [done|].
    simpl. unfold scanEntry at 1. simpl.
    destruct (L es) as [subs files]. simpl in IH.
    destruct (skipped_entry _ _ _ _); [done|].
    destruct c; simpl; by rewrite IH. }
  destruct (L es); simpl in *. done.
Qed.

#[local] Arguments scanDirectory : simpl never.

Lemma wf_node_dir (es : list (string * Node)) :
  wf_node (NDir (Some es)) = true →
  NoDup es.*1
  ∧ Forall (λ e, Path.noslash e.1 = true) es
  ∧ Forall (λ e, wf_node e.2 = true) es.
Proof.
  simpl. intros H.
  apply andb_prop in H as [H H3]. apply andb_prop in H as [H1 H2].
  split; [by apply bool_decide_eq_true in H1|].
  split.
  - apply Forall_forall. intros e He.
    rewrite forallb_forall in H2. apply H2. by apply list_elem_of_In.
  - clear H1 H2. induction es as [|[e c] es IH]; [constructor|].
    apply andb_prop in H3 as [Hc Hes]. constructor; [done | by apply IH].
Qed.

Lemma fmap_bind {A B C} (f : B → C) (g : A → list B) (l : list A) :
  f <$> (l ≫= g) = l ≫= (λ x, f <$> g x).
Proof.
  induction l as [|x l IH]; [done|]. by rewrite !bind_cons, fmap_app, IH.
Qed.

Lemma all_paths_unfold (d : Directory) :
  all_paths d = dir_path d :: (subdirectories d ≫= all_paths).
Proof.
  unfold all_paths. destruct d as [p n subs files leaf]. simpl. f_equal.
  by rewrite fmap_bind.
Qed.

(** Every path of the scanned tree is the root path and a tail. *)
Lemma scan_paths_tail (n : Node) :
  ∀ p q, q ∈ all_paths (scanDirectory shouldIgnore options p n) →
         ∃ t, tail t ∧ q = p +:+ t.
Proof.
  induction n as [size content| | |es IH] using Node_ind; intros p q Hq;
    try (apply list_elem_of_singleton in Hq as ->; exists ""; split;
         [by left | by rewrite append_empty_r]).
  rewrite all_paths_unfold, scan_path, scan_subdirectories in Hq.
  apply elem_of_cons in Hq as [->|Hq].
  { exists "". split; [by left | by rewrite append_empty_r]. }
  apply list_elem_of_bind in Hq as (d & Hq & Hd).
  apply list_elem_of_omap in Hd as ([e c] & Hin & Hd).
  unfold scanEntry in Hd. simpl in Hd.
  destruct (skipped_entry _ _ _ _); [done|].
  rewrite Forall_forall in IH. specialize (IH _ Hin). simpl in IH.
  destruct c as [| l |]; try done. injection Hd as <-.
  apply IH in Hq as (t & Ht & ->).
  exists ("/" +:+ e +:+ t). split.
  - right. by exists (e +:+ t).
  - unfold Path.join. by rewrite !append_assoc.
Qed.

(** The paths below an entry are its own path and a tail. *)
Lemma scanEntry_paths (p : string) (e : string * Node) (d : Directory) (q : string) :
  scanEntry shouldIgnore options p e = Some d → q ∈ all_paths d →
  ∃ t, tail t ∧ q = Path.join p e.1 +:+ t.
Proof.
  unfold scanEntry. destruct (skipped_entry _ _ _ _); [done|].
  destruct e as [name c]. simpl. destruct c as [| l |]; try done.
  intros [= <-] Hq. by apply scan_paths_tail in Hq.
Qed.

Lemma join_tail_inj (p e e' t t' : string) :
  Path.noslash e = true → Path.noslash e' = true → tail t → tail t' →
  Path.join p e +:+ t = Path.join p e' +:+ t' → e = e'.
Proof.
  intros He He' Ht Ht'. unfold Path.join. rewrite !append_assoc.
  intros H. apply append_cancel_l in H. rewrite !append_cons, !append_nil in H.
  injection H as H. by apply (name_tail_inj e e' t t').
Qed.

(** The paths of a scanned tree are pairwise distinct. *)
Lemma scan_NoDup (n : Node) :
  ∀ p, wf_node n = true → NoDup (all_paths (scanDirectory shouldIgnore options p n)).
Proof.
  induction n as [size content| | |es IH] using Node_ind; intros p Hwf;
    try (apply NoDup_singleton).
  apply wf_node_dir in Hwf as (Hnames & Hslash & Hwf).
  rewrite all_paths_unfold, scan_path, scan_subdirectories.
  apply NoDup_cons. split.
  - intros Hq. apply list_elem_of_bind in Hq as (d & Hq & Hd).
    apply list_elem_of_omap in Hd as (e & Hin & Hd).
    destruct (scanEntry_paths _ _ _ _ Hd Hq) as (t & _ & Heq).
    by apply path_not_below_itself in Heq.
  - induction es as [|[e c] es IHes]; [constructor|].
    apply Forall_cons in IH as [IHc IH]. apply Forall_cons in Hslash as [He Hslash].
    apply Forall_cons in Hwf as [Hc Hwf]. apply NoDup_cons in Hnames as [Hfresh Hnames].
    specialize (IHes IH Hnames Hslash Hwf).
    change (omap (scanEntry shouldIgnore options p) ((e, c) :: es))
      with (match scanEntry shouldIgnore options p (e, c) with
            | Some d => d :: omap (scanEntry shouldIgnore options p) es
            | None => omap (scanEntry shouldIgnore options p) es
            end).
    destruct (scanEntry shouldIgnore options p (e, c)) as [d|] eqn:Hd; [|done].
    rewrite bind_cons. apply NoDup_app. split; [|split; [|done]].
    + unfold scanEntry in Hd. simpl in Hd.
      destruct (skipped_entry _ _ _ _); [done|].
      destruct c as [| l |]; try done. injection Hd as <-. by apply IHc.
    + intros q Hq Hq'.
      destruct (scanEntry_paths _ _ _ _ Hd Hq) as (t & Ht & ->).
      apply list_elem_of_bind in Hq' as (d' & Hq' & Hd').
      apply list_elem_of_omap in Hd' as ([e' c'] & Hin' & Hd').
      destruct (scanEntry_paths _ _ _ _ Hd' Hq') as (t' & Ht' & Heq).
      simpl in Heq. apply join_tail_inj in Heq; try done.
      * subst e'. apply Hfresh. apply list_elem_of_fmap. by exists (e, c').
      * rewrite Forall_forall in Hslash. by apply (Hslash (e', c')).
Qed.

End ScanFacts.

(** ** The bottom-up order *)

Lemma processDir_unfold (dir : Directory) (st : OrderState) :
  processDir dir st
  = let st1 := processSubdirs (subdirectories dir) st in
    if bool_decide (dir_path dir ∈ processedDirs st1) then st1
    else {| allDirs := allDirs st1 ++ [dir_path dir];
            processedDirs := processedDirs st1 ∪ {[dir_path dir]} |}.
Proof. by destruct dir. Qed.

Lemma postorder_unfold (d : Directory) :
  postorder d = (subdirectories d ≫= postorder) ++ [dir_path d].
Proof. by destruct d. Qed.

Lemma processSubdirs_cons (subdir : Directory) (rest : list Directory) (st : OrderState) :
  processSubdirs (subdir :: rest) st
  = processSubdirs rest
      (if bool_decide (dir_path subdir ∈ processedDirs st) then st
       else processDir subdir st).
Proof. reflexivity. Qed.

(** On a tree none of whose paths was seen before, and whose paths are
    pairwise distinct, [processDir] appends the post-order listing. *)
Lemma processDir_fresh (d : Directory) :
  ∀ st, NoDup (all_paths d) → (∀ q, q ∈ all_paths d → q ∉ processedDirs st) →
        processDir d st
        = {| allDirs := allDirs st ++ postorder d;
             processedDirs := processedDirs st ∪ list_to_set (all_paths d) |}.
Proof.
  induction d as [p n subs files leaf IH] using Directory_ind. intros st Hnd Hfresh.
  rewrite processDir_unfold, postorder_unfold.
  rewrite all_paths_unfold in Hnd, Hfresh. rewrite all_paths_unfold.
  cbn [subdirectories dir_path] in *.
  apply NoDup_cons in Hnd as [Hp Hnd].
  assert (Hsubs : ∀ st, (∀ q, q ∈ subs ≫= all_paths → q ∉ processedDirs st) →
            processSubdirs subs st
            = {| allDirs := allDirs st ++ (subs ≫= postorder);
                 processedDirs := processedDirs st ∪ list_to_set (subs ≫= all_paths) |}).
  { clear Hfresh Hp st. induction subs as [|d subs IHsubs]; intros st Hfresh.
    - destruct st as [a s]. cbn. f_equal; [by rewrite app_nil_r | set_solver].
    - apply Forall_cons in IH as [IHd IH]. rewrite bind_cons in Hnd.
      apply NoDup_app in Hnd as (Hd & Hdisj & Hnd).
      rewrite processSubdirs_cons, bool_decide_eq_false_2.
      2:{ apply Hfresh. rewrite bind_cons. apply elem_of_app. left.
          rewrite all_paths_unfold. apply elem_of_cons. by left. }
      rewrite IHd; [|done|].
      2:{ intros q Hq. apply Hfresh. rewrite bind_cons. apply elem_of_app. by left. }
      rewrite IHsubs; [|done|done|].
      2:{ intros q Hq. cbn [processedDirs]. intros Hin.
          apply elem_of_union in Hin as [Hin|Hin].
          - revert Hin. apply Hfresh. rewrite bind_cons. apply elem_of_app. by right.
          - apply elem_of_list_to_set in Hin. by apply (Hdisj q). }
      cbn [allDirs processedDirs]. rewrite !bind_cons. f_equal; [by rewrite app_assoc|].
      rewrite list_to_set_app_L. set_solver. }
  rewrite Hsubs.
  2:{ intros q Hq. apply Hfresh. apply elem_of_cons. by right. }
  cbn [allDirs processedDirs]. cbv zeta. cbn [allDirs processedDirs].
  rewrite bool_decide_eq_false_2.
  2:{ intros Hin. apply elem_of_union in Hin as [Hin|Hin].
      - revert Hin. apply Hfresh. apply elem_of_cons. by left.
      - by apply elem_of_list_to_set in Hin. }
  f_equal; [by rewrite app_assoc | set_solver].
Qed.

Lemma createBottomUpOrder_postorder (t : Directory) :
  NoDup (all_paths t) → createBottomUpOrder t = postorder t.
Proof.
  intros Hnd. unfold createBottomUpOrder.
  rewrite processDir_fresh; [done|done|]. intros q _. simpl. set_solver.
Qed.

Lemma postorder_perm (d : Directory) : postorder d ≡ₚ all_paths d.
Proof.
  induction d as [p n subs files leaf IH] using Directory_ind.
  rewrite postorder_unfold, all_paths_unfold. cbn [subdirectories dir_path].
  rewrite <- Permutation_cons_append. constructor.
  induction subs as [|d subs IHsubs]; [done|].
  apply Forall_cons in IH as [IHd IH]. rewrite !bind_cons.
  by rewrite IHd, IHsubs.
Qed.

(** The listing of a directory of the tree is a segment of the listing of
    the tree. *)
Lemma postorder_subtree (t : Directory) :
  ∀ D, D ∈ subtrees t → ∃ a b, postorder t = a ++ postorder D ++ b.
Proof.
  induction t as [p n subs files leaf IH] using Directory_ind. intros D HD.
  cbn [subtrees subdirectories] in HD. apply elem_of_cons in HD as [->|HD].
  { exists [], []. by rewrite app_nil_r. }
  apply list_elem_of_bind in HD as (s & HD & Hs).
  rewrite Forall_forall in IH. destruct (IH s Hs D HD) as (a & b & Heq).
  apply list_elem_of_split in Hs as (l1 & l2 & ->).
  exists ((l1 ≫= postorder) ++ a), (b ++ (l2 ≫= postorder) ++ [p]).
  rewrite postorder_unfold. cbn [subdirectories dir_path].
  rewrite bind_app, bind_cons, Heq. by rewrite <- !app_assoc.
Qed.

(** In the listing of a directory each subdirectory comes before the
    directory itself. *)
Lemma postorder_child (D S : Directory) :
  S ∈ subdirectories D →
  ∃ a b, postorder D = a ++ [dir_path S] ++ b ++ [dir_path D].
Proof.
  intros HS. apply list_elem_of_split in HS as (l1 & l2 & Heq).
  rewrite postorder_unfold, Heq, bind_app, bind_cons, (postorder_unfold S).
  exists ((l1 ≫= postorder) ++ (subdirectories S ≫= postorder)), (l2 ≫= postorder).
  by rewrite <- !app_assoc.
Qed.

Section BottomUp.

Variable shouldIgnore : string → bool.
Variable options : CrawlerOptions.

#[local] Arguments scanDirectory : simpl never.

Lemma scan_reachable (n : Node) :
  ∀ p q, q ∈ all_paths (scanDirectory shouldIgnore options p n)
         ↔ reachable shouldIgnore options p n q.
Proof.
  induction n as [size content| | |es IH] using Node_ind; intros p q;
    try (split; [intros ->%list_elem_of_singleton; constructor
                | inversion 1; subst; by apply list_elem_of_singleton]).
  rewrite all_paths_unfold, scan_path, scan_subdirectories.
  rewrite Forall_forall in IH. split.
  - intros [->|Hq]%elem_of_cons; [constructor|].
    apply list_elem_of_bind in Hq as (d & Hq & Hd).
    apply list_elem_of_omap in Hd as ([e c] & Hin & Hd).
    unfold scanEntry in Hd. cbn [fst snd] in Hd.
    destruct (skipped_entry _ _ _ _) eqn:Hskip; [done|].
    destruct c as [| l |]; try done. injection Hd as <-.
    apply (reach_entry shouldIgnore options p es e (NDir l) q); try done.
    by apply (IH _ Hin).
  - inversion 1 as [|? ? e c ? Hin Hskip Hdir Hreach]; subst.
    { apply elem_of_cons. by left. }
    apply elem_of_cons. right. apply list_elem_of_bind.
    exists (scanDirectory shouldIgnore options (Path.join p e) c). split.
    + by apply (IH _ Hin).
    + apply list_elem_of_omap. exists (e, c). split; [done|].
      unfold scanEntry. cbn [fst snd]. rewrite Hskip. by destruct c.
Qed.

(** C1. On the tree [scan] builds from a well-formed directory tree,
    [createBottomUpOrder] lists every directory the walk reaches (the
    root and, recursively, each entry that is a directory and neither
    ignored nor hidden) exactly once and nothing else, and every
    subdirectory of a directory of the tree stands at a strictly smaller
    index than that directory. *)
Theorem createBottomUpOrder_bottom_up (rootPath : string) (root : Node) :
  wf_node root = true →
  let dirTree := scan shouldIgnore options rootPath root in
  let order := createBottomUpOrder dirTree in
  NoDup order
  ∧ (∀ q, q ∈ order ↔ reachable shouldIgnore options rootPath root q)
  ∧ (∀ D S, D ∈ subtrees dirTree → S ∈ subdirectories D →
       ∃ i j, order !! i = Some (dir_path S) ∧ order !! j = Some (dir_path D)
              ∧ (i < j)%nat
              ∧ (∀ k, order !! k = Some (dir_path S) → k = i)
              ∧ (∀ k, order !! k = Some (dir_path D) → k = j)).
Proof.
  intros Hwf dirTree order.
  assert (Hnd : NoDup (all_paths dirTree)) by by apply scan_NoDup.
  assert (Horder : order = postorder dirTree) by by apply createBottomUpOrder_postorder.
  assert (Hnd' : NoDup (postorder dirTree)) by by rewrite postorder_perm.
  rewrite Horder. split; [done|split].
  - intros q. rewrite postorder_perm. apply scan_reachable.
  - intros D S HD HS.
    destruct (postorder_subtree dirTree D HD) as (a & b & Hsplit).
    destruct (postorder_child D S HS) as (a' & b' & HsplitD).
    rewrite HsplitD in Hsplit. rewrite Hsplit in Hnd'. rewrite Hsplit.
    assert (HS' : (a ++ (a' ++ [dir_path S] ++ b' ++ [dir_path D]) ++ b)
                    !! length (a ++ a') = Some (dir_path S)).
    { replace (a ++ (a' ++ [dir_path S] ++ b' ++ [dir_path D]) ++ b)
        with ((a ++ a') ++ dir_path S :: (b' ++ [dir_path D] ++ b))
        by (by rewrite <- !app_assoc).
      by apply list_lookup_middle. }
    assert (HD' : (a ++ (a' ++ [dir_path S] ++ b' ++ [dir_path D]) ++ b)
                    !! length (a ++ a' ++ [dir_path S] ++ b') = Some (dir_path D)).
    { replace (a ++ (a' ++ [dir_path S] ++ b' ++ [dir_path D]) ++ b)
        with ((a ++ a' ++ [dir_path S] ++ b') ++ dir_path D :: b)
        by (by rewrite <- !app_assoc).
      by apply list_lookup_middle. }
    exists (length (a ++ a')), (length (a ++ a' ++ [dir_path S] ++ b')).
    split; [done|]. split; [done|]. split; [rewrite !length_app; simpl; lia|].
    split; intros k Hk.
    + by apply (NoDup_lookup _ _ _ _ Hnd' Hk HS').
    + by apply (NoDup_lookup _ _ _ _ Hnd' Hk HD').
Qed.

End BottomUp.

(** The order of a project with two subdirectories. *)
Lemma createBottomUpOrder_bottom_up_witness :
  let order :=
    createBottomUpOrder
      (scan (λ _, false) Fixtures.crawlerOptions "/proj" Fixtures.twoSubdirectories) in
  order = ["/proj/a"; "/proj/b"; "/proj"] ∧ NoDup order.
Proof.
  destruct (createBottomUpOrder_bottom_up (λ _, false) Fixtures.crawlerOptions "/proj"
              Fixtures.twoSubdirectories ltac:(by vm_compute)) as (Hnd & _ & _).
  split; [by vm_compute | exact Hnd].
Defined.

(** ** The analyzer *)

Section AnalyzerFacts.

Variable config : AutodocumentConfig.
Variable disk : Disk.

Lemma processFile_outcome (f : string) (r : AnalysisResult) :
  processFile config disk f r
  = match fileOutcome config disk f with
    | inl (a, size) =>
        {| analyzedFiles := analyzedFiles r ++ [a]; excludedFiles := excludedFiles r;
           limited := limited r; totalSize := totalSize r + size;
           limitReason := limitReason r |}
    | inr e => pushExcluded e r
    end.
Proof.
  unfold processFile, fileOutcome.
  destruct (statSync disk f) as [stats|m]; [|done].
  destruct (maxFileSize config <? st_size stats); [done|].
  by destruct (readFile disk f).
Qed.

Lemma processFiles_spec (files : list string) :
  ∀ r, processFiles config disk files r
       = {| analyzedFiles := analyzedFiles r ++ analyzedOf config disk files;
            excludedFiles := excludedFiles r ++ excludedOf config disk files;
            limited := limited r;
            totalSize := totalSize r + sizeOf config disk files;
            limitReason := limitReason r |}.
Proof.
  induction files as [|f files IH]; intros r.
  - destruct r. cbn. by rewrite !app_nil_r, Z.add_0_r.
  - unfold processFiles in *. cbn [foldl]. rewrite IH, processFile_outcome.
    unfold analyzedOf, excludedOf. cbn [omap list_omap sizeOf].
    destruct (fileOutcome config disk f) as [[a size]|e]; cbn;
      f_equal; rewrite <- ?app_assoc; try done; lia.
Qed.

Lemma filterCodeFiles_spec (filePaths : list string) :
  ∀ r, filterCodeFiles config filePaths r
       = (List.filter (isCandidate config) filePaths,
          {| analyzedFiles := analyzedFiles r;
             excludedFiles :=
               excludedFiles r ++ (markdownExcluded <$> List.filter isMarkdown filePaths);
             limited := limited r; totalSize := totalSize r;
             limitReason := limitReason r |}).
Proof.
  induction filePaths as [|f l IH]; intros r.
  - destruct r. cbn. by rewrite app_nil_r.
  - cbn [filterCodeFiles List.filter]. unfold isCandidate at 1.
    destruct (isMarkdown f) eqn:Hmd.
    + rewrite IH. cbn. by rewrite <- app_assoc.
    + rewrite IH. cbn. by destruct (includes _ _).
Qed.

(** The loop of the file-count branch, on candidates the first of which
    are among the limited files and the others are not. *)
Lemma countLimitedLoop_split (limitedFiles l k : list string) :
  (∀ f, f ∈ l → f ∈ limitedFiles) → (∀ f, f ∈ k → f ∉ limitedFiles) →
  ∀ r, countLimitedLoop config disk limitedFiles (l ++ k) r
       = let r' := processFiles config disk l r in
         {| analyzedFiles := analyzedFiles r';
            excludedFiles := excludedFiles r' ++ (countExcluded <$> k);
            limited := limited r'; totalSize := totalSize r';
            limitReason := limitReason r' |}.
Proof.
  intros Hl Hk. induction l as [|f l IH]; intros r.
  - cbn [app processFiles foldl]. clear Hl. revert r.
    induction k as [|f k IHk]; intros r.
    + destruct r. cbn. by rewrite app_nil_r.
    + cbn [countLimitedLoop]. unfold includes. rewrite bool_decide_eq_false_2.
      2:{ apply Hk. by left. }
      rewrite IHk. 2:{ intros g Hg. apply Hk. by right. }
      cbn. by rewrite <- app_assoc.
  - cbn [app countLimitedLoop]. unfold includes. rewrite bool_decide_eq_true_2.
    2:{ apply Hl. by left. }
    rewrite IH. 2:{ intros g Hg. apply Hl. by right. }
    done.
Qed.

End AnalyzerFacts.

Section CountLimit.

Variable config : AutodocumentConfig.
Variable disk : Disk.

Lemma slice0_take {A} (l : list A) (e : Z) :
  0 ≤ e → e < Z.of_nat (length l) → slice0 l e = take (Z.to_nat e) l.
Proof.
  intros H0 H1. unfold slice0.
  destruct (e <? 0) eqn:Hneg; [apply Z.ltb_lt in Hneg; lia|].
  by rewrite Z.min_l by lia.
Qed.

(** The result of [analyzeFiles] in the file-count branch, for pairwise
    distinct candidates. *)
Lemma analyzeFiles_count_branch (directoryPath : string) (filePaths : list string) :
  let codeFiles := List.filter (isCandidate config) filePaths in
  NoDup codeFiles → 0 ≤ ceiling config → ceiling config < Z.of_nat (length codeFiles) →
  analyzeFiles config disk directoryPath filePaths
  = {| analyzedFiles := analyzedOf config disk (take (Z.to_nat (ceiling config)) codeFiles);
       excludedFiles :=
         (markdownExcluded <$> List.filter (isMarkdown) filePaths)
         ++ excludedOf config disk (take (Z.to_nat (ceiling config)) codeFiles)
         ++ (countExcluded <$> drop (Z.to_nat (ceiling config)) codeFiles);
       limited := true;
       totalSize := sizeOf config disk (take (Z.to_nat (ceiling config)) codeFiles);
       limitReason := Some (countReason config (length codeFiles)) |}.
Proof.
  intros codeFiles Hnd H0 Hlt. unfold analyzeFiles.
  rewrite filterCodeFiles_spec. fold codeFiles. fold (ceiling config).
  replace (ceiling config <? Z.of_nat (length codeFiles)) with true
    by (symmetry; by apply Z.ltb_lt).
  rewrite slice0_take by done.
  rewrite <- (take_drop (Z.to_nat (ceiling config)) codeFiles) at 2.
  rewrite <- (take_drop (Z.to_nat (ceiling config)) codeFiles) in Hnd.
  apply NoDup_app in Hnd as (_ & Hdisj & _).
  rewrite countLimitedLoop_split; [|done|].
  2:{ intros f Hf Hf'. by apply (Hdisj f). }
  cbv zeta. rewrite processFiles_spec. cbn. f_equal.
  by rewrite <- app_assoc.
Qed.

Lemma excludedOf_not_count (files : list string) :
  List.filter isCountExcluded (excludedOf config disk files) = [].
Proof.
  induction files as [|f files IH]; [done|].
  unfold excludedOf in *. cbn [omap list_omap]. unfold fileOutcome at 1.
  destruct (statSync disk f) as [stats|m]; [|by cbn].
  destruct (maxFileSize config <? st_size stats); [by cbn|].
  destruct (readFile disk f); [done | by cbn].
Qed.

Lemma markdown_not_count (files : list string) :
  List.filter isCountExcluded (markdownExcluded <$> files) = [].
Proof. induction files as [|f files IH]; [done | by cbn]. Qed.

Lemma count_all_count (files : list string) :
  List.filter isCountExcluded (countExcluded <$> files) = countExcluded <$> files.
Proof. induction files as [|f files IH]; [done | cbn; by rewrite IH]. Qed.

Lemma analyzedOf_elem (files : list string) (f text : string) (stats : Stats) :
  f ∈ files → statSync disk f = Ok stats → st_size stats ≤ maxFileSize config →
  readFile disk f = Ok text →
  {| af_path := f; af_content := text; af_extension := lowerExt f |}
    ∈ analyzedOf config disk files.
Proof.
  intros Hf Hstat Hsize Hread. apply list_elem_of_omap. exists f. split; [done|].
  unfold fileOutcome. rewrite Hstat.
  replace (maxFileSize config <? st_size stats) with false
    by (symmetry; apply Z.ltb_ge; lia).
  by rewrite Hread.
Qed.

(** C5, amended. When the candidates are pairwise distinct, the ceiling
    is not negative and there are more candidates than the ceiling
    allows, [analyzeFiles] returns [limited = true] with a reason that
    cites the count and the ceiling; it has analyzed the first
    ceiling-many candidates in their order, each one that can be read
    and is within the per-file limit being among the analyzed files; the
    excluded entries with the file-count reason are one per candidate
    beyond the ceiling, in order; and no check of the total size has
    cut the analysis short: all of the first candidates count in
    [totalSize]. *)
Theorem analyzeFiles_count_limit (directoryPath : string) (filePaths : list string) :
  let codeFiles := List.filter (isCandidate config) filePaths in
  NoDup codeFiles → 0 ≤ ceiling config → ceiling config < Z.of_nat (length codeFiles) →
  let r := analyzeFiles config disk directoryPath filePaths in
  let first := take (Z.to_nat (ceiling config)) codeFiles in
  limited r = true
  ∧ limitReason r
    = Some ("Too many files (" +:+ show (Z.of_nat (length codeFiles)) +:+ " > "
              +:+ show (ceiling config) +:+ ")")
  ∧ analyzedFiles r = analyzedOf config disk first
  ∧ (∀ f text stats,
       f ∈ first → statSync disk f = Ok stats → st_size stats ≤ maxFileSize config →
       readFile disk f = Ok text →
       {| af_path := f; af_content := text; af_extension := lowerExt f |}
         ∈ analyzedFiles r)
  ∧ List.filter isCountExcluded (excludedFiles r)
    = countExcluded <$> drop (Z.to_nat (ceiling config)) codeFiles
  ∧ totalSize r = sizeOf config disk first.
Proof.
  intros codeFiles Hnd H0 Hlt r first. subst r.
  rewrite analyzeFiles_count_branch by done. cbn.
  repeat split; try done.
  - intros f text stats. apply analyzedOf_elem.
  - fold codeFiles.
    rewrite !List.filter_app, markdown_not_count, excludedOf_not_count, count_all_count.
    done.
Qed.

End CountLimit.

Section ThreeFiles.

Variable config : AutodocumentConfig.
Variable disk : Disk.

Lemma fileOutcome_file (f text : string) (size : Z) (writable : bool) :
  disk !! f = Some (EFile size (Ok text) writable) → size ≤ maxFileSize config →
  fileOutcome config disk f
  = inl ({| af_path := f; af_content := text; af_extension := lowerExt f |}, size).
Proof.
  intros Hf Hsize. unfold fileOutcome, statSync, readFile. rewrite Hf. cbn.
  by replace (maxFileSize config <? size) with false by (symmetry; apply Z.ltb_ge; lia).
Qed.

(** C6, amended. With a per-file limit of 10KB and a ceiling of two
    files, three distinct candidates of 9KB each put [analyzeFiles] in
    the file-count branch: [limited] is set with the reason
    [Too many files (3 > 2)], the first two files are analyzed (18KB in
    total) and the third is excluded with the file-count reason. *)
Theorem analyzeFiles_three_files (directoryPath f1 f2 f3 t1 t2 t3 : string)
    (w1 w2 w3 : bool) :
  maxFileSizeKb (fileProcessing config) = 10 →
  maxFilesPerDirectory (fileProcessing config) = 2 →
  isCandidate config f1 = true → isCandidate config f2 = true →
  isCandidate config f3 = true →
  NoDup [f1; f2; f3] →
  disk !! f1 = Some (EFile (9 * 1024) (Ok t1) w1) →
  disk !! f2 = Some (EFile (9 * 1024) (Ok t2) w2) →
  disk !! f3 = Some (EFile (9 * 1024) (Ok t3) w3) →
  let r := analyzeFiles config disk directoryPath [f1; f2; f3] in
  limited r = true
  ∧ limitReason r = Some "Too many files (3 > 2)"
  ∧ analyzedFiles r
    = [ {| af_path := f1; af_content := t1; af_extension := lowerExt f1 |};
        {| af_path := f2; af_content := t2; af_extension := lowerExt f2 |} ]
  ∧ excludedFiles r = [countExcluded f3]
  ∧ totalSize r = 18 * 1024.
Proof.
  intros Hkb Hmax Hc1 Hc2 Hc3 Hnd H1 H2 H3 r. subst r.
  assert (Hfilter : List.filter (isCandidate config) [f1; f2; f3] = [f1; f2; f3])
    by (cbn; by rewrite Hc1, Hc2, Hc3).
  assert (Hmd : List.filter isMarkdown [f1; f2; f3] = []).
  { unfold isCandidate in Hc1, Hc2, Hc3. cbn.
    destruct (isMarkdown f1); [done|]. destruct (isMarkdown f2); [done|].
    by destruct (isMarkdown f3). }
  rewrite analyzeFiles_count_branch; unfold ceiling; rewrite ?Hfilter, ?Hmax; try done.
  rewrite Hmd. unfold analyzedOf, excludedOf, countReason. rewrite Hmax.
  change (take (Z.to_nat 2) [f1; f2; f3]) with [f1; f2].
  change (drop (Z.to_nat 2) [f1; f2; f3]) with [f3].
  cbn [omap list_omap sizeOf].
  rewrite (fileOutcome_file f1 t1 (9 * 1024) w1), (fileOutcome_file f2 t2 (9 * 1024) w2);
    unfold maxFileSize; rewrite ?Hkb; try done.
Qed.

End ThreeFiles.

(** The scenario of C6 on a concrete disk. *)
Lemma analyzeFiles_three_files_witness :
  let r := analyzeFiles Fixtures.smallConfig Fixtures.threeFiles "/d"
             ["/d/a.ts"; "/d/b.ts"; "/d/c.ts"] in
  limited r = true
  ∧ limitReason r = Some "Too many files (3 > 2)"
  ∧ analyzedFiles r
    = [ {| af_path := "/d/a.ts"; af_content := "a"; af_extension := ".ts" |};
        {| af_path := "/d/b.ts"; af_content := "b"; af_extension := ".ts" |} ]
  ∧ excludedFiles r = [countExcluded "/d/c.ts"]
  ∧ totalSize r = 18 * 1024.
Proof.
  apply (analyzeFiles_three_files Fixtures.smallConfig Fixtures.threeFiles
           "/d" "/d/a.ts" "/d/b.ts" "/d/c.ts" "a" "b" "c" true true true);
    try reflexivity.
  by_compute.
Defined.

(** C6 as stated fails: the three files are more than the ceiling of two,
    so the reason is the file count, not the total size, and the third
    file is listed as excluded. *)
Lemma analyzeFiles_three_files_not_size_branch :
  let r := analyzeFiles Fixtures.smallConfig Fixtures.threeFiles "/d"
             ["/d/a.ts"; "/d/b.ts"; "/d/c.ts"] in
  ¬ (∃ total, limitReason r = Some (totalReason Fixtures.smallConfig total))
  ∧ countExcluded "/d/c.ts" ∈ excludedFiles r.
Proof.
  split.
  - intros [total H]. vm_compute in H. discriminate H.
  - vm_compute. by apply list_elem_of_singleton.
Qed.

(** The candidates of C5 on a concrete disk. *)
Lemma analyzeFiles_count_limit_witness :
  let r := analyzeFiles Fixtures.smallConfig Fixtures.threeFiles "/d"
             ["/d/a.ts"; "/d/b.ts"; "/d/c.ts"] in
  limited r = true
  ∧ List.filter isCountExcluded (excludedFiles r) = [countExcluded "/d/c.ts"].
Proof.
  destruct (analyzeFiles_count_limit Fixtures.smallConfig Fixtures.threeFiles "/d"
              ["/d/a.ts"; "/d/b.ts"; "/d/c.ts"]
              ltac:(by_compute) ltac:(by_compute) ltac:(by_compute))
    as (H1 & _ & _ & _ & H5 & _).
  split; [exact H1 | exact H5].
Defined.

(** C5 as stated fails when a path occurs twice among the candidates: the
    loop tests membership in the first ceiling-many by value, so the
    third candidate here, equal to the first, is analyzed again instead of
    being excluded. *)
Lemma analyzeFiles_count_limit_repeated_path :
  let filePaths := ["/d/a.ts"; "/d/b.ts"; "/d/a.ts"] in
  let r := analyzeFiles Fixtures.smallConfig Fixtures.threeFiles "/d" filePaths in
  maxFilesPerDirectory (fileProcessing Fixtures.smallConfig) = 2
  ∧ length (List.filter (isCandidate Fixtures.smallConfig) filePaths) = 3%nat
  ∧ length (analyzedFiles r) = 3%nat
  ∧ excludedFiles r = [].
Proof. by vm_compute. Qed.

Section SizeLimit.

Variable config : AutodocumentConfig.
Variable disk : Disk.

Lemma processFiles_cons (f : string) (l : list string) (r : AnalysisResult) :
  processFiles config disk (f :: l) r
  = processFiles config disk l (processFile config disk f r).
Proof. reflexivity. Qed.

(** The loop with the [break] either runs to the end, no running total
    having exceeded the ceiling, or stops at the first file after which
    the total exceeds it. *)
Lemma sizeLimitedLoop_cases (l : list string) :
  ∀ r,
    (sizeLimitedLoop config disk l r = processFiles config disk l r
     ∧ ∀ k, (0 < k ≤ length l)%nat →
            totalSize (processFiles config disk (take k l) r) ≤ maxTotalSize config)
    ∨ (∃ pre f post,
         l = pre ++ f :: post
         ∧ (∀ k, (0 < k ≤ length pre)%nat →
                 totalSize (processFiles config disk (take k pre) r) ≤ maxTotalSize config)
         ∧ maxTotalSize config < totalSize (processFiles config disk (pre ++ [f]) r)
         ∧ sizeLimitedLoop config disk l r
           = setLimited
               (totalReason config (totalSize (processFiles config disk (pre ++ [f]) r)))
               (processFiles config disk (pre ++ [f]) r)).
Proof.
  induction l as [|f l IH]; intros r.
  { left. split; [done|]. intros k Hk. cbn in Hk. lia. }
  cbn [sizeLimitedLoop].
  destruct (maxTotalSize config <? totalSize (processFile config disk f r)) eqn:Hcmp.
  - right. exists [], f, l. apply Z.ltb_lt in Hcmp.
    split; [done|]. split; [cbn; lia|]. by split.
  - apply Z.ltb_ge in Hcmp. destruct (IH (processFile config disk f r)) as
      [[Heq Hk] | (pre & g & post & -> & Hk & Hgt & Heq)].
    + left. split; [by rewrite processFiles_cons|].
      intros [|k] Hrange; [lia|]. cbn [take]. rewrite processFiles_cons.
      destruct k as [|k]; [by rewrite take_0|]. apply Hk. cbn in Hrange. lia.
    + right. exists (f :: pre), g, post. split; [done|]. split; [|by split].
      intros [|k] Hrange; [lia|]. cbn [take]. rewrite processFiles_cons.
      destruct k as [|k]; [by rewrite take_0|]. apply Hk. cbn in Hrange. lia.
Qed.

Lemma fileOutcome_analyzed_path (f : string) (a : AnalyzedFile) (size : Z) :
  fileOutcome config disk f = inl (a, size) → af_path a = f.
Proof.
  unfold fileOutcome. destruct (statSync disk f) as [stats|m]; [|done].
  destruct (maxFileSize config <? st_size stats); [done|].
  destruct (readFile disk f); [|done]. by intros [= <- _].
Qed.

Lemma fileOutcome_excluded_path (f : string) (e : ExcludedFile) :
  fileOutcome config disk f = inr e → ef_path e = f.
Proof.
  unfold fileOutcome. destruct (statSync disk f) as [stats|m]; [|by intros [= <-]].
  destruct (maxFileSize config <? st_size stats); [by intros [= <-]|].
  destruct (readFile disk f); [done | by intros [= <-]].
Qed.

Lemma fileOutcome_analyzed_size (f : string) (a : AnalyzedFile) (size : Z) :
  fileOutcome config disk f = inl (a, size) → size ≤ maxFileSize config.
Proof.
  unfold fileOutcome. destruct (statSync disk f) as [stats|m]; [|done].
  destruct (maxFileSize config <? st_size stats) eqn:Hcmp; [done|].
  destruct (readFile disk f); [|done]. intros [= _ <-]. by apply Z.ltb_ge.
Qed.

Lemma analyzedOf_paths (l : list string) (g : string) :
  g ∈ af_path <$> analyzedOf config disk l → g ∈ l.
Proof.
  intros (a & -> & Ha)%list_elem_of_fmap.
  apply list_elem_of_omap in Ha as (f & Hf & Ha).
  destruct (fileOutcome config disk f) as [[a' size]|e] eqn:Hout; [|done].
  injection Ha as <-. by rewrite (fileOutcome_analyzed_path f a' size Hout).
Qed.

Lemma excludedOf_paths (l : list string) (g : string) :
  g ∈ ef_path <$> excludedOf config disk l → g ∈ l.
Proof.
  intros (e & -> & He)%list_elem_of_fmap.
  apply list_elem_of_omap in He as (f & Hf & He).
  destruct (fileOutcome config disk f) as [[a' size]|e'] eqn:Hout; [done|].
  injection He as <-. by rewrite (fileOutcome_excluded_path f e' Hout).
Qed.

Lemma analyzedOf_app (l k : list string) :
  analyzedOf config disk (l ++ k) = analyzedOf config disk l ++ analyzedOf config disk k.
Proof. unfold analyzedOf. by rewrite omap_app. Qed.

Lemma sizeOf_app (l k : list string) :
  sizeOf config disk (l ++ k) = sizeOf config disk l + sizeOf config disk k.
Proof. induction l as [|f l IH]; [done|]. cbn [app sizeOf]. rewrite IH. lia. Qed.

(** The result of [analyzeFiles] outside the file-count branch. *)
Lemma analyzeFiles_size_branch (directoryPath : string) (filePaths : list string) :
  let codeFiles := List.filter (isCandidate config) filePaths in
  Z.of_nat (length codeFiles) ≤ ceiling config →
  analyzeFiles config disk directoryPath filePaths
  = sizeLimitedLoop config disk codeFiles
      {| analyzedFiles := [];
         excludedFiles := markdownExcluded <$> List.filter isMarkdown filePaths;
         limited := false; totalSize := 0; limitReason := None |}.
Proof.
  intros codeFiles Hle. unfold analyzeFiles. rewrite filterCodeFiles_spec.
  fold codeFiles. unfold ceiling in Hle.
  by replace (maxFilesPerDirectory (fileProcessing config) <? Z.of_nat (length codeFiles))
    with false by (symmetry; by apply Z.ltb_ge).
Qed.

(** While no running total exceeds the ceiling on the total, the loop
    processes every candidate and [limited] stays false. *)
Lemma analyzeFiles_within_total (directoryPath : string) (filePaths : list string) :
  let codeFiles := List.filter (isCandidate config) filePaths in
  Z.of_nat (length codeFiles) ≤ ceiling config →
  (∀ k, (0 < k ≤ length codeFiles)%nat →
        sizeOf config disk (take k codeFiles) ≤ maxTotalSize config) →
  limited (analyzeFiles config disk directoryPath filePaths) = false.
Proof.
  intros codeFiles Hle Hall.
  rewrite analyzeFiles_size_branch by done. fold codeFiles.
  set (r0 := {| analyzedFiles := [];
                excludedFiles := markdownExcluded <$> List.filter isMarkdown filePaths;
                limited := false; totalSize := 0; limitReason := None |}).
  destruct (sizeLimitedLoop_cases codeFiles r0) as
    [[Heq Hk] | (pre & f & post & Hsplit & Hk & Hgt & Heq)];
    rewrite Heq; rewrite !processFiles_spec in *; cbn in *; [done|].
  exfalso.
  assert (Hlen : (0 < length (pre ++ [f]) ≤ length codeFiles)%nat)
    by (rewrite Hsplit, !length_app; cbn; lia).
  specialize (Hall _ Hlen).
  replace (take (length (pre ++ [f])) codeFiles) with (pre ++ [f]) in Hall.
  2:{ replace codeFiles with ((pre ++ [f]) ++ post)
        by (by rewrite Hsplit, <- app_assoc).
      by rewrite take_app_length. }
  lia.
Qed.

(** With a per-file limit that is not negative, the total of at most
    ceiling-many analyzed files cannot exceed the ceiling on the total:
    outside the file-count branch [limited] is never set. *)
Lemma sizeOf_bound (l : list string) :
  0 ≤ maxFileSize config → sizeOf config disk l ≤ Z.of_nat (length l) * maxFileSize config.
Proof.
  intros HM. induction l as [|f l IH]; [done|].
  cbn [sizeOf length]. destruct (fileOutcome config disk f) as [[a size]|e] eqn:Hout.
  - apply fileOutcome_analyzed_size in Hout. lia.
  - lia.
Qed.

Lemma size_limit_never_reached (directoryPath : string) (filePaths : list string) :
  0 ≤ maxFileSizeKb (fileProcessing config) →
  Z.of_nat (length (List.filter (isCandidate config) filePaths)) ≤ ceiling config →
  limited (analyzeFiles config disk directoryPath filePaths) = false.
Proof.
  intros HM Hle.
  apply (analyzeFiles_within_total directoryPath filePaths Hle). intros k Hk.
  assert (Hnonneg : 0 ≤ maxFileSize config) by (unfold maxFileSize; lia).
  pose proof (sizeOf_bound (take k (List.filter (isCandidate config) filePaths)) Hnonneg)
    as Hb.
  rewrite length_take in Hb. unfold maxTotalSize, ceiling, maxFileSize in *. nia.
Qed.

(** The loop stops at the first candidate after which the running total
    exceeds the ceiling. *)
Lemma sizeLimitedLoop_exceeded (pre : list string) (f : string) (post : list string) :
  ∀ r,
    (∀ k, (0 < k ≤ length pre)%nat →
          totalSize (processFiles config disk (take k pre) r) ≤ maxTotalSize config) →
    maxTotalSize config < totalSize (processFiles config disk (pre ++ [f]) r) →
    sizeLimitedLoop config disk (pre ++ f :: post) r
    = setLimited
        (totalReason config (totalSize (processFiles config disk (pre ++ [f]) r)))
        (processFiles config disk (pre ++ [f]) r).
Proof.
  induction pre as [|g pre IH]; intros r Hbefore Hgt.
  - cbn [app sizeLimitedLoop]. cbn in Hgt.
    by replace (maxTotalSize config <? totalSize (processFile config disk f r)) with true
      by (symmetry; by apply Z.ltb_lt).
  - cbn [app sizeLimitedLoop].
    pose proof (Hbefore 1%nat ltac:(cbn; lia)) as Hfirst. cbn in Hfirst.
    replace (maxTotalSize config <? totalSize (processFile config disk g r)) with false
      by (symmetry; by apply Z.ltb_ge).
    rewrite (IH (processFile config disk g r)); [done| |done].
    intros k Hk. apply (Hbefore (S k)). cbn. lia.
Qed.

(** On a file system no size is negative. *)
Lemma statSync_size (p : string) (stats : Stats) :
  realSizes disk → statSync disk p = Ok stats → 0 ≤ st_size stats.
Proof.
  intros Hreal. unfold statSync.
  destruct (disk !! p) as [[fsize ftext fwritable|dsize listing dwritable]|] eqn:Hp;
    [| |done]; intros [= <-]; cbn; by apply (Hreal p _ Hp).
Qed.

(** With a negative per-file limit no file of a file system is analyzed. *)
Lemma fileOutcome_negative_limit (f : string) :
  realSizes disk → maxFileSizeKb (fileProcessing config) < 0 →
  ∃ e, fileOutcome config disk f = inr e.
Proof.
  intros Hreal Hneg. unfold fileOutcome.
  destruct (statSync disk f) as [stats|m] eqn:Hstat; [|by eexists].
  pose proof (statSync_size f stats Hreal Hstat) as Hsize.
  replace (maxFileSize config <? st_size stats) with true; [by eexists|].
  symmetry. apply Z.ltb_lt. unfold maxFileSize. lia.
Qed.

(** C10, amended. When the candidates are no more than the file-count
    ceiling, the total is compared, strictly, after each candidate is
    processed: [limited] is set exactly when some running total is
    strictly greater than [maxFilesPerDirectory * maxFileSizeKb * 1024].
    While every running total stays at or below that ceiling, equality
    included, [limited] stays false and every candidate is processed. At
    the first candidate after which the total exceeds the ceiling the
    loop sets [limited], with the reason citing the total, and stops: the
    result is that of processing the candidates up to and including that
    one, whose outcome is kept, and, the candidates being distinct, the
    candidates after it are among neither the analyzed nor the excluded
    files. On a file system, where no size is negative, this happens
    exactly when the per-file limit is negative and there is a candidate:
    the loop then stops at the first candidate, which is excluded and not
    analyzed, with a total of zero; an analyzed file never takes the
    total over the ceiling. *)
Theorem analyzeFiles_size_limit (directoryPath : string) (filePaths : list string) :
  let codeFiles := List.filter (isCandidate config) filePaths in
  Z.of_nat (length codeFiles) ≤ ceiling config →
  let r := analyzeFiles config disk directoryPath filePaths in
  let markdown := markdownExcluded <$> List.filter isMarkdown filePaths in
  (limited r = true
   ↔ ∃ k, (0 < k ≤ length codeFiles)%nat
          ∧ maxTotalSize config < sizeOf config disk (take k codeFiles))
  ∧ (limited r = true → maxTotalSize config < totalSize r)
  ∧ ((∀ k, (0 < k ≤ length codeFiles)%nat →
           sizeOf config disk (take k codeFiles) ≤ maxTotalSize config) →
     limited r = false
     ∧ limitReason r = None
     ∧ analyzedFiles r = analyzedOf config disk codeFiles
     ∧ excludedFiles r = markdown ++ excludedOf config disk codeFiles
     ∧ totalSize r = sizeOf config disk codeFiles)
  ∧ (∀ pre f post,
       codeFiles = pre ++ f :: post →
       (∀ k, (0 < k ≤ length pre)%nat →
             sizeOf config disk (take k pre) ≤ maxTotalSize config) →
       maxTotalSize config < sizeOf config disk (pre ++ [f]) →
       limited r = true
       ∧ limitReason r = Some (totalReason config (sizeOf config disk (pre ++ [f])))
       ∧ analyzedFiles r = analyzedOf config disk (pre ++ [f])
       ∧ excludedFiles r = markdown ++ excludedOf config disk (pre ++ [f])
       ∧ totalSize r = sizeOf config disk (pre ++ [f])
       ∧ (NoDup codeFiles →
          ∀ g, g ∈ post →
               (g ∉ af_path <$> analyzedFiles r) ∧ (g ∉ ef_path <$> excludedFiles r)))
  ∧ (realSizes disk →
     (limited r = true ↔ maxFileSizeKb (fileProcessing config) < 0 ∧ codeFiles ≠ [])
     ∧ (limited r = true →
        ∃ f post e,
          codeFiles = f :: post
          ∧ fileOutcome config disk f = inr e
          ∧ analyzedFiles r = []
          ∧ excludedFiles r = markdown ++ [e]
          ∧ totalSize r = 0)).
Proof.
  intros codeFiles Hle r markdown.
  set (r0 := {| analyzedFiles := []; excludedFiles := markdown; limited := false;
                totalSize := 0; limitReason := None |}).
  assert (Hr : r = sizeLimitedLoop config disk codeFiles r0)
    by (subst r; by rewrite analyzeFiles_size_branch).
  assert (Htotal : ∀ l, totalSize (processFiles config disk l r0) = sizeOf config disk l).
  { intros l. rewrite processFiles_spec. cbn. lia. }
  assert (Hexceeded : ∀ pre f post,
    codeFiles = pre ++ f :: post →
    (∀ k, (0 < k ≤ length pre)%nat →
          sizeOf config disk (take k pre) ≤ maxTotalSize config) →
    maxTotalSize config < sizeOf config disk (pre ++ [f]) →
    r = setLimited (totalReason config (sizeOf config disk (pre ++ [f])))
          (processFiles config disk (pre ++ [f]) r0)).
  { intros pre f post Hsplit Hbefore Hgt. rewrite Hr, Hsplit.
    rewrite (sizeLimitedLoop_exceeded pre f post r0).
    - by rewrite Htotal.
    - intros k Hk. rewrite Htotal. by apply Hbefore.
    - by rewrite Htotal. }
  assert (Hwithin :
    (∀ k, (0 < k ≤ length codeFiles)%nat →
          sizeOf config disk (take k codeFiles) ≤ maxTotalSize config) →
    r = processFiles config disk codeFiles r0).
  { intros Hall. rewrite Hr.
    destruct (sizeLimitedLoop_cases codeFiles r0) as
      [[Heq _] | (pre & f & post & Hsplit & _ & Hgt & _)]; [done|].
    exfalso. rewrite Htotal in Hgt.
    assert (Hlen : (0 < length (pre ++ [f]) ≤ length codeFiles)%nat)
      by (rewrite Hsplit, !length_app; cbn; lia).
    specialize (Hall _ Hlen).
    replace (take (length (pre ++ [f])) codeFiles) with (pre ++ [f]) in Hall.
    2:{ replace codeFiles with ((pre ++ [f]) ++ post)
          by (by rewrite Hsplit, <- app_assoc).
        by rewrite take_app_length. }
    lia. }
  assert (Hiff : limited r = true
    ↔ ∃ k, (0 < k ≤ length codeFiles)%nat
           ∧ maxTotalSize config < sizeOf config disk (take k codeFiles)).
  { destruct (sizeLimitedLoop_cases codeFiles r0) as
      [[Heq Hk] | (pre & f & post & Hsplit & Hk & Hgt & Heq)].
    - rewrite Hr, Heq, processFiles_spec. cbn. split; [done|].
      intros (k & Hrange & Hgt). specialize (Hk k Hrange). rewrite Htotal in Hk. lia.
    - rewrite Hr, Heq. cbn. split; [|done]. intros _.
      exists (length (pre ++ [f])). split.
      + rewrite Hsplit, !length_app. cbn. lia.
      + rewrite Htotal in Hgt.
        replace codeFiles with ((pre ++ [f]) ++ post)
          by (by rewrite Hsplit, <- app_assoc).
        by rewrite take_app_length. }
  split; [done|]. split; [|split; [|split]].
  - destruct (sizeLimitedLoop_cases codeFiles r0) as
      [[Heq _] | (pre & f & post & _ & _ & Hgt & Heq)]; rewrite Hr, Heq.
    + rewrite processFiles_spec. by cbn.
    + by cbn.
  - intros Hall. rewrite (Hwithin Hall), processFiles_spec. cbn.
    repeat split; done || lia.
  - intros pre f post Hsplit Hbefore Hgt.
    rewrite (Hexceeded pre f post Hsplit Hbefore Hgt), processFiles_spec. cbn.
    split; [done|]. split; [done|]. split; [done|]. split; [done|]. split; [lia|].
    intros Hnd g Hg. rewrite Hsplit in Hnd.
    replace (pre ++ f :: post) with ((pre ++ [f]) ++ post) in Hnd
      by (by rewrite <- app_assoc).
    apply NoDup_app in Hnd as (_ & Hdisj & _).
    split.
    + intros Hin%analyzedOf_paths. by apply (Hdisj g).
    + rewrite fmap_app. intros [Hin|Hin]%elem_of_app.
      * apply list_elem_of_fmap in Hin as (e & Hge & He).
        apply list_elem_of_fmap in He as (h & -> & Hh).
        cbn in Hge. subst h.
        apply list_elem_of_In, List.filter_In in Hh as [_ Hmd].
        assert (Hc : g ∈ codeFiles).
        { rewrite Hsplit. apply elem_of_app. right. by right. }
        apply list_elem_of_In, List.filter_In in Hc as [_ Hc].
        unfold isCandidate in Hc. rewrite Hmd in Hc. done.
      * apply excludedOf_paths in Hin. by apply (Hdisj g).
  - intros Hreal.
    assert (Hfirst : maxFileSizeKb (fileProcessing config) < 0 →
      ∀ f post, codeFiles = f :: post →
        ∃ e, fileOutcome config disk f = inr e
             ∧ r = setLimited (totalReason config 0) (processFiles config disk [f] r0)).
    { intros Hneg f post Hsplit.
      destruct (fileOutcome_negative_limit f Hreal Hneg) as [e He]. exists e.
      split; [done|].
      assert (Hsize : sizeOf config disk ([] ++ [f]) = 0) by (cbn; rewrite He; lia).
      rewrite <- Hsize. apply (Hexceeded [] f post Hsplit).
      - intros k Hk. cbn in Hk. lia.
      - rewrite Hsize. unfold maxTotalSize. fold (ceiling config).
        rewrite Hsplit in Hle. cbn [length] in Hle. nia. }
    split.
    + split.
      * intros Hlim. split.
        -- destruct (Z.lt_ge_cases (maxFileSizeKb (fileProcessing config)) 0) as [|Hnonneg];
             [done|].
           pose proof (size_limit_never_reached directoryPath filePaths Hnonneg Hle) as Hno.
           fold r in Hno. congruence.
        -- intros Hnil. rewrite Hr, Hnil in Hlim. done.
      * intros [Hneg Hne]. destruct codeFiles as [|f post] eqn:Hcode; [done|].
        destruct (Hfirst Hneg f post eq_refl) as (e & _ & ->). done.
    + intros Hlim.
      assert (Hneg : maxFileSizeKb (fileProcessing config) < 0).
      { destruct (Z.lt_ge_cases (maxFileSizeKb (fileProcessing config)) 0) as [|Hnonneg];
          [done|].
        pose proof (size_limit_never_reached directoryPath filePaths Hnonneg Hle) as Hno.
        fold r in Hno. congruence. }
      destruct codeFiles as [|f post] eqn:Hcode.
      { rewrite Hr in Hlim. done. }
      destruct (Hfirst Hneg f post eq_refl) as (e & He & Heq).
      exists f, post, e. split; [done|]. split; [done|].
      rewrite Heq, processFiles_spec. unfold analyzedOf, excludedOf.
      cbn. rewrite He. cbn. by rewrite ?app_nil_r.
Qed.

End SizeLimit.

(** The total may reach the ceiling exactly without [limited] being set;
    and with a negative per-file limit the total of zero exceeds the
    ceiling after the first candidate, at which the loop stops. *)
Lemma analyzeFiles_size_limit_witness :
  let r := analyzeFiles Fixtures.smallConfig Fixtures.twoFull "/d" ["/d/a.ts"; "/d/b.ts"] in
  let r' := analyzeFiles Fixtures.negativeConfig Fixtures.twoFull "/d"
              ["/d/a.ts"; "/d/b.ts"] in
  (limited r = false ∧ totalSize r = maxTotalSize Fixtures.smallConfig)
  ∧ (limited r' = true
     ∧ limitReason r' = Some "Total size exceeds limit (0KB > -2KB)"
     ∧ ("/d/b.ts" ∉ af_path <$> analyzedFiles r')
     ∧ ("/d/b.ts" ∉ ef_path <$> excludedFiles r')).
Proof.
  split.
  - destruct (analyzeFiles_size_limit Fixtures.smallConfig Fixtures.twoFull "/d"
                ["/d/a.ts"; "/d/b.ts"] ltac:(by_compute)) as (_ & _ & H & _).
    destruct H as (H1 & _ & _ & _ & H5).
    { intros [|[|[|k]]] Hk; cbn in Hk; try lia; by_compute. }
    split; [exact H1 | exact H5].
  - destruct (analyzeFiles_size_limit Fixtures.negativeConfig Fixtures.twoFull "/d"
                ["/d/a.ts"; "/d/b.ts"] ltac:(by_compute)) as (_ & _ & _ & H & _).
    destruct (H [] "/d/a.ts" ["/d/b.ts"]) as (H1 & H2 & _ & _ & _ & H6).
    { by vm_compute. }
    { intros k Hk. cbn in Hk. lia. }
    { by_compute. }
    split; [exact H1|]. split; [rewrite H2; by vm_compute|].
    apply H6; [by_compute | by left].
Defined.

(** C10 as stated fails where the total-size branch is taken on a file
    system: with a negative per-file limit and two candidates, within the
    ceiling of two, the first file is excluded for its size, the total of
    zero exceeds the negative ceiling, and the file at which [limited] was
    set is not among the analyzed files nor counted. *)
Lemma analyzeFiles_size_limit_file_not_retained :
  let r := analyzeFiles Fixtures.negativeConfig Fixtures.twoFull "/d"
             ["/d/a.ts"; "/d/b.ts"] in
  realSizes Fixtures.twoFull
  ∧ limited r = true
  ∧ limitReason r = Some "Total size exceeds limit (0KB > -2KB)"
  ∧ analyzedFiles r = []
  ∧ totalSize r = 0
  ∧ excludedFiles r
    = [ {| ef_path := "/d/a.ts";
           ef_reason := "File size (10KB) exceeds limit (-1KB)" |} ].
Proof. split; [by_compute | by vm_compute]. Qed.

(** ** The generator *)

Section GeneratorFacts.

Variable config : ToolConfig.
Variable wording : Wording.
Variable llm : LlmRequest → DocumentationResponse.

Lemma readExistingFile_Some (disk : Disk) (p text : string) :
  readExistingFile disk p = Some text
  ↔ existsSync disk p = true ∧ readFile disk p = Ok text.
Proof.
  unfold readExistingFile. destruct (existsSync disk p).
  - destruct (readFile disk p) as [t|m]; split.
    + by intros [= ->].
    + by intros [_ [= ->]].
    + done.
    + by intros [_ ?].
  - split; [done | by intros [? _]].
Qed.

(** C7, amended. The outcome of [generate] has [isUpdate = true] exactly
    when an artifact existed at the output path before the call and
    could be read, and the update policy allows overwriting it; on the
    skip path [isUpdate] is false although the artifact existed. *)
Theorem generate_isUpdate (disk : Disk) (directoryPath : string)
    (analysisResult : AnalysisResult) (isTopLevel : bool)
    (childrenContent : list ChildContent) :
  let filePath := Path.join directoryPath (outputFilename config) in
  let outcome :=
    (generate config wording llm disk directoryPath analysisResult isTopLevel
       childrenContent).1 in
  isUpdate outcome = true
  ↔ (∃ text, existsSync disk filePath = true ∧ readFile disk filePath = Ok text)
    ∧ updateExisting config = true.
Proof.
  intros filePath outcome. subst outcome. unfold generate. fold filePath.
  destruct (readExistingFile disk filePath) as [text|] eqn:Hread.
  - apply readExistingFile_Some in Hread.
    rewrite bool_decide_eq_true_2 by done.
    destruct (updateExisting config); cbn [negb andb].
    + destruct (negb (rs_successful _)); [|destruct (writeFile _ _ _ _)]; cbn;
        (split; [intros _; split; [by exists text | done] | done]).
    + cbn. split; [done | by intros [_ ?]].
  - rewrite bool_decide_eq_false_2 by (by intros ?). cbn [andb].
    assert (Hnone : ¬ ∃ text, existsSync disk filePath = true
                             ∧ readFile disk filePath = Ok text).
    { intros [text H]. apply readExistingFile_Some in H. congruence. }
    destruct (negb (rs_successful _)); [|destruct (writeFile _ _ _ _)]; cbn;
      (split; [done | by intros [? _]]).
Qed.

Lemma generate_skip (disk : Disk) (directoryPath text : string)
    (analysisResult : AnalysisResult) (isTopLevel : bool)
    (childrenContent : list ChildContent) :
  updateExisting config = false →
  readFile disk (Path.join directoryPath (outputFilename config)) = Ok text →
  generate config wording llm disk directoryPath analysisResult isTopLevel childrenContent
  = (skippedOutcome config directoryPath text, disk).
Proof.
  intros Hpolicy Hread. unfold generate.
  assert (Hex : readExistingFile disk (Path.join directoryPath (outputFilename config))
                = Some text).
  { apply readExistingFile_Some. split; [|done].
    unfold existsSync, readFile in *. apply bool_decide_eq_true.
    by destruct (disk !! Path.join directoryPath (outputFilename config)). }
  rewrite Hex, Hpolicy. by rewrite bool_decide_eq_true_2.
Qed.

Lemma readFile_exists (disk : Disk) (p text : string) :
  readFile disk p = Ok text → existsSync disk p = true.
Proof.
  unfold existsSync, readFile. intros Hread. apply bool_decide_eq_true.
  by destruct (disk !! p).
Qed.

Lemma readExistingFile_None (disk : Disk) (p m : string) :
  readFile disk p = Throw m → readExistingFile disk p = None.
Proof.
  intros Hread. unfold readExistingFile. rewrite Hread. by destruct (existsSync disk p).
Qed.

(** C8, amended. Let the update policy forbid overwriting. Where the
    artifact exists and can be read, two calls of [generate] in a row,
    with any arguments, both return [skipped = true], [success = true]
    and the content of the existing file, and leave the disk as it was;
    and each of the two calls, made through [generateContent], adds one
    to [successfulGenerations]. A call is skipped exactly when the
    artifact can be read: where it cannot (it is not there, or it is
    there and reading it throws), [generate] does not skip, reports no
    update, and does what it does when overwriting is allowed. *)
Theorem generate_skip_twice (this : ToolAggregator) (disk : Disk)
    (directoryPath : string) (analysis1 analysis2 : AnalysisResult)
    (top1 top2 : bool) (children1 children2 : list ChildContent)
    (result : AggregationResult) :
  tool this = PromptTool config wording llm →
  updateExisting config = false →
  let filePath := Path.join directoryPath (outputFilename config) in
  let outcome :=
    generate config wording llm disk directoryPath analysis1 top1 children1 in
  (∀ text,
     readFile disk filePath = Ok text →
     let '(first, disk1) :=
       generate config wording llm disk directoryPath analysis1 top1 children1 in
     let '(second, disk2) :=
       generate config wording llm disk1 directoryPath analysis2 top2 children2 in
     let '(_, result1, _) :=
       generateContent this disk directoryPath analysis1 top1 children1 result in
     let '(_, result2, _) :=
       generateContent this disk1 directoryPath analysis2 top2 children2 result1 in
     skipped first = Some true ∧ success first = true ∧ content first = text
     ∧ skipped second = Some true ∧ success second = true ∧ content second = text
     ∧ content first = content second
     ∧ disk1 = disk ∧ disk2 = disk
     ∧ successfulGenerations result1 = S (successfulGenerations result)
     ∧ successfulGenerations result2 = S (S (successfulGenerations result)))
  ∧ (skipped outcome.1 = Some true ↔ ∃ text, readFile disk filePath = Ok text)
  ∧ (∀ m,
       readFile disk filePath = Throw m →
       skipped outcome.1 = None ∧ isUpdate outcome.1 = false
       ∧ outcome
         = generate (allowUpdate config) wording llm disk directoryPath analysis1 top1
             children1).
Proof.
  intros Htool Hpolicy filePath outcome.
  assert (Hnoskip : readExistingFile disk filePath = None →
            skipped outcome.1 = None ∧ isUpdate outcome.1 = false
            ∧ outcome
              = generate (allowUpdate config) wording llm disk directoryPath analysis1 top1
                  children1).
  { intros Hnone. subst outcome. unfold generate.
    cbn [outputFilename allowUpdate]. fold filePath. rewrite Hnone.
    rewrite bool_decide_eq_false_2 by (by intros ?). cbn [andb].
    split; [|split; [|done]].
    - destruct (negb (rs_successful _)); [done|]. by destruct (writeFile _ _ _ _).
    - destruct (negb (rs_successful _)); [done|]. by destruct (writeFile _ _ _ _). }
  split; [|split].
  - intros text Hread. unfold generateContent. rewrite Htool. cbn [t_generate PromptTool].
    rewrite !(generate_skip disk directoryPath text) by done.
    cbn. repeat split; done.
  - destruct (readFile disk filePath) as [text|m] eqn:Hread.
    + subst outcome. rewrite (generate_skip disk directoryPath text) by done.
      cbn. split; [by eexists | done].
    + destruct (Hnoskip (readExistingFile_None disk filePath m Hread)) as (Hskip & _).
      rewrite Hskip. split; [done | by intros [text ?]].
  - intros m Hread. apply Hnoskip. by apply (readExistingFile_None disk filePath m).
Qed.

End GeneratorFacts.

(** C7 as stated fails on the skip path: the test plan exists before the
    call, and the outcome has [isUpdate = false]. *)
Lemma generate_isUpdate_false_when_skipped :
  let outcome :=
    (generate (Fixtures.testPlanConfig false) testPlanWording Fixtures.answering
       Fixtures.withPlan "/d" (emptyResult) false []).1 in
  existsSync Fixtures.withPlan "/d/testplan.md" = true
  ∧ skipped outcome = Some true
  ∧ isUpdate outcome = false.
Proof. by vm_compute. Qed.

(** Two skipped calls on a concrete disk. *)
Lemma generate_skip_twice_witness :
  let this :=
    newToolAggregator defaultConfig (λ _, false) "/d"
      (PromptTool (Fixtures.testPlanConfig false) testPlanWording Fixtures.answering) false in
  let '(first, disk1) :=
    generate (Fixtures.testPlanConfig false) testPlanWording Fixtures.answering
      Fixtures.withPlan "/d" emptyResult true [] in
  let '(second, disk2) :=
    generate (Fixtures.testPlanConfig false) testPlanWording Fixtures.answering
      disk1 "/d" emptyResult true [] in
  let '(_, result1, _) :=
    generateContent this Fixtures.withPlan "/d" emptyResult true [] initialResult in
  let '(_, result2, _) :=
    generateContent this disk1 "/d" emptyResult true [] result1 in
  skipped first = Some true ∧ success first = true ∧ content first = "old plan"
  ∧ skipped second = Some true ∧ success second = true ∧ content second = "old plan"
  ∧ content first = content second
  ∧ disk1 = Fixtures.withPlan ∧ disk2 = Fixtures.withPlan
  ∧ successfulGenerations result1 = 1%nat
  ∧ successfulGenerations result2 = 2%nat.
Proof.
  destruct (generate_skip_twice (Fixtures.testPlanConfig false) testPlanWording
              Fixtures.answering
              (newToolAggregator defaultConfig (λ _, false) "/d"
                 (PromptTool (Fixtures.testPlanConfig false) testPlanWording
                    Fixtures.answering) false)
              Fixtures.withPlan "/d" emptyResult emptyResult true true [] []
              initialResult eq_refl eq_refl) as (Htwice & _ & _).
  exact (Htwice "old plan" eq_refl).
Defined.

(** C8 as stated fails where the artifact exists but cannot be read: with
    overwriting forbidden, [generate] does not skip; it asks the service
    and tries to write, here without success, so that the call counts as
    a failure. *)
Lemma generate_unreadable_artifact_not_skipped :
  let this :=
    newToolAggregator defaultConfig (λ _, false) "/d"
      (PromptTool (Fixtures.testPlanConfig false) testPlanWording Fixtures.answering) false in
  let '(first, disk1) :=
    generate (Fixtures.testPlanConfig false) testPlanWording Fixtures.answering
      Fixtures.withLockedPlan "/d" emptyResult true [] in
  let '(_, result1, _) :=
    generateContent this Fixtures.withLockedPlan "/d" emptyResult true [] initialResult in
  existsSync Fixtures.withLockedPlan "/d/testplan.md" = true
  ∧ updateExisting (Fixtures.testPlanConfig false) = false
  ∧ skipped first = None ∧ success first = false ∧ content first = ""
  ∧ error first
    = Some "Error generating test plan: EACCES: permission denied, open '/d/testplan.md'"
  ∧ successfulGenerations result1 = 0%nat
  ∧ failedGenerations result1 = 1%nat.
Proof. by vm_compute. Qed.

(** ** The driver *)

Section DriverFacts.

Variable this : ToolAggregator.

Lemma shouldDocument_no_files (config : AutodocumentConfig) (directoryPath : string)
    (hasSubdirectories : bool) :
  shouldDocument config directoryPath [] hasSubdirectories = false.
Proof. by destruct hasSubdirectories. Qed.

(** A directory the analyzer declines is passed over: no counter
    changes and nothing is written. *)
Lemma processDirectory_declined (directoryPath : string) (files : list string)
    (hasSub : bool) (result : AggregationResult) (disk : Disk) :
  c_getCodeFiles (crawler this) disk directoryPath = Ok files →
  c_hasSubdirectories (crawler this) disk directoryPath = Ok hasSub →
  a_shouldDocument (analyzer this) directoryPath files hasSub = Ok false →
  processDirectory this directoryPath (result, disk) = Ok (result, disk).
Proof.
  intros Hfiles Hsub Hdoc. unfold processDirectory.
  rewrite Hfiles. cbn. rewrite Hsub. cbn. by rewrite Hdoc.
Qed.

(** A failed generation for a directory whose artifact existed counts
    both as failed and as updated. *)
Lemma processDirectory_failed_update (directoryPath : string) (files : list string)
    (hasSub : bool) (docs single : list ChildContent) (analysis : AnalysisResult)
    (outcome : AutoToolResult) (result : AggregationResult) (disk disk' : Disk) :
  c_getCodeFiles (crawler this) disk directoryPath = Ok files →
  c_hasSubdirectories (crawler this) disk directoryPath = Ok hasSub →
  a_shouldDocument (analyzer this) directoryPath files hasSub = Ok true →
  c_getSubdirectoryDocs (crawler this) disk directoryPath = Ok docs →
  c_getSingleFileSubdirectories (crawler this) disk directoryPath = Ok single →
  a_analyzeFiles (analyzer this) disk directoryPath files = Ok analysis →
  limited analysis = false →
  t_generate (tool this) disk directoryPath analysis
    (bool_decide (directoryPath = rootPath this)) (docs ++ single) = Ok (outcome, disk') →
  success outcome = false → isUpdate outcome = true → skipped outcome ≠ Some true →
  processDirectory this directoryPath (result, disk)
  = Ok (incUpdated
          (pushError directoryPath (orElse (error outcome) "Unknown error")
             (incFailed result)), disk').
Proof.
  intros Hfiles Hsub Hdoc Hdocs Hsingle Han Hlim Hgen Hfail Hupd Hskip.
  unfold processDirectory, generateContent.
  rewrite Hfiles. cbn. rewrite Hsub. cbn. rewrite Hdoc. cbn.
  rewrite Hdocs. cbn. rewrite Hsingle. cbn. rewrite Han. cbn.
  rewrite Hlim, Hgen, Hfail. cbn.
  rewrite bool_decide_eq_false_2 by done. by rewrite Hupd.
Qed.

(** C3, amended. In a turn of the loop that has found the directory
    worth processing, an exception thrown by the collector
    ([getSubdirectoryDocs], [getSingleFileSubdirectories]) or by the
    analyzer ([analyzeFiles]) is not caught in that turn: the loop ends
    there with the counters and the disk as they were, and [run] then
    records one entry [Global error: ...] under the root path, without
    adding to [failedGenerations]. An exception thrown by the tool's
    [generate] is caught in [generateContent]: it adds one to
    [failedGenerations] and an entry under the directory to the errors,
    and the loop goes on with the next directory. *)
Theorem exceptions_in_run (directoryPath : string) (rest : list string)
    (files : list string) (hasSub : bool) (result : AggregationResult) (disk : Disk) :
  c_getCodeFiles (crawler this) disk directoryPath = Ok files →
  c_hasSubdirectories (crawler this) disk directoryPath = Ok hasSub →
  a_shouldDocument (analyzer this) directoryPath files hasSub = Ok true →
  (∀ m, c_getSubdirectoryDocs (crawler this) disk directoryPath = Throw m →
        processAll this (directoryPath :: rest) (result, disk) = ((result, disk), Some m))
  ∧ (∀ docs m,
       c_getSubdirectoryDocs (crawler this) disk directoryPath = Ok docs →
       c_getSingleFileSubdirectories (crawler this) disk directoryPath = Throw m →
       processAll this (directoryPath :: rest) (result, disk) = ((result, disk), Some m))
  ∧ (∀ docs single m,
       c_getSubdirectoryDocs (crawler this) disk directoryPath = Ok docs →
       c_getSingleFileSubdirectories (crawler this) disk directoryPath = Ok single →
       a_analyzeFiles (analyzer this) disk directoryPath files = Throw m →
       processAll this (directoryPath :: rest) (result, disk) = ((result, disk), Some m))
  ∧ (∀ docs single analysis m,
       c_getSubdirectoryDocs (crawler this) disk directoryPath = Ok docs →
       c_getSingleFileSubdirectories (crawler this) disk directoryPath = Ok single →
       a_analyzeFiles (analyzer this) disk directoryPath files = Ok analysis →
       limited analysis = false →
       t_generate (tool this) disk directoryPath analysis
         (bool_decide (directoryPath = rootPath this)) (docs ++ single) = Throw m →
       processAll this (directoryPath :: rest) (result, disk)
       = processAll this rest (pushError directoryPath m (incFailed result), disk))
  ∧ (∀ root directories result' disk' m,
       c_createBottomUpOrder (crawler this) root = Ok directories →
       processAll this directories
         (setTotal (length directories) initialResult, disk_of (rootPath this) root)
       = ((result', disk'), Some m) →
       run this root
       = (pushError (rootPath this) ("Global error: " +:+ m) result', disk')
       ∧ failedGenerations (run this root).1 = failedGenerations result').
Proof.
  intros Hfiles Hsub Hdoc.
  split; [|split; [|split; [|split]]].
  - intros m Hm. cbn [processAll]. unfold processDirectory.
    rewrite Hfiles. cbn. rewrite Hsub. cbn. rewrite Hdoc. cbn. by rewrite Hm.
  - intros docs m Hdocs Hm. cbn [processAll]. unfold processDirectory.
    rewrite Hfiles. cbn. rewrite Hsub. cbn. rewrite Hdoc. cbn.
    rewrite Hdocs. cbn. by rewrite Hm.
  - intros docs single m Hdocs Hsingle Hm. cbn [processAll]. unfold processDirectory.
    rewrite Hfiles. cbn. rewrite Hsub. cbn. rewrite Hdoc. cbn.
    rewrite Hdocs. cbn. rewrite Hsingle. cbn. by rewrite Hm.
  - intros docs single analysis m Hdocs Hsingle Han Hlim Hm. cbn [processAll].
    unfold processDirectory, generateContent.
    rewrite Hfiles. cbn. rewrite Hsub. cbn. rewrite Hdoc. cbn.
    rewrite Hdocs. cbn. rewrite Hsingle. cbn. rewrite Han. cbn.
    by rewrite Hlim, Hm.
  - intros root directories result' disk' m Horder Hloop.
    unfold run. by rewrite Horder, Hloop.
Qed.

End DriverFacts.

(** The crawler and the analyzer of the repository catch what their file
    system calls throw: as the driver calls them, none of their methods
    throws. *)
Remark repository_objects_do_not_throw (config : AutodocumentConfig)
    (shouldIgnore : string → bool) (options : CrawlerOptions) (rootPath d : string)
    (disk : Disk) (files : list string) :
  let crawler := DirectoryCrawler config shouldIgnore options rootPath in
  let analyzer := FileAnalyzer config in
  c_getSubdirectoryDocs crawler disk d
  = Ok (getSubdirectoryDocs config shouldIgnore options disk d)
  ∧ c_getSingleFileSubdirectories crawler disk d
    = Ok (getSingleFileSubdirectories config shouldIgnore options disk d)
  ∧ a_analyzeFiles analyzer disk d files = Ok (analyzeFiles config disk d files).
Proof. done. Qed.

(** C2. A directory with no code file of its own but with a subdirectory
    is declined by [shouldDocument], so the driver passes it over: nothing
    is collected, nothing is generated, and after the run only the
    subdirectory has an artifact. *)
Theorem run_skips_directory_without_code_files :
  let this := Fixtures.testPlanAggregator Fixtures.answering in
  let disk := disk_of "/proj" Fixtures.onlySubdirectory in
  getCodeFiles defaultConfig (λ _, false) (mkCrawlerOptions true false) disk "/proj" = []
  ∧ hasSubdirectories (λ _, false) (mkCrawlerOptions true false) disk "/proj" = true
  ∧ shouldDocument defaultConfig "/proj" [] true = false
  ∧ (∀ result, processDirectory this "/proj" (result, disk) = Ok (result, disk))
  ∧ c_createBottomUpOrder (crawler this) Fixtures.onlySubdirectory
    = Ok ["/proj/lib"; "/proj"]
  ∧ successfulGenerations (run this Fixtures.onlySubdirectory).1 = 1%nat
  ∧ is_Some ((run this Fixtures.onlySubdirectory).2 !! "/proj/lib/testplan.md")
  ∧ (run this Fixtures.onlySubdirectory).2 !! "/proj/testplan.md" = None.
Proof.
  cbv zeta. split; [by vm_compute|]. split; [by vm_compute|]. split; [by vm_compute|].
  split.
  { intros result.
    apply (processDirectory_declined _ "/proj" [] true); by vm_compute. }
  split; [by vm_compute|]. split; [by vm_compute|]. split; [|by vm_compute].
  by_compute.
Qed.

(** An exception of the tool's [generate] in the first directory, with the
    loop going on. *)
Lemma exceptions_in_run_witness :
  let this := Fixtures.withThrowingTool in
  let disk := disk_of "/proj" Fixtures.twoSubdirectories in
  processAll this ["/proj/a"; "/proj/b"; "/proj"] (initialResult, disk)
  = processAll this ["/proj/b"; "/proj"]
      (pushError "/proj/a" "boom" (incFailed initialResult), disk).
Proof.
  intros this disk.
  destruct (exceptions_in_run this "/proj/a" ["/proj/b"; "/proj"]
              ["/proj/a/x.ts"; "/proj/a/y.ts"] false initialResult disk
              ltac:(by vm_compute) ltac:(by vm_compute) ltac:(by vm_compute))
    as (_ & _ & _ & H & _).
  apply (H [] [] (analyzeFiles defaultConfig disk "/proj/a" ["/proj/a/x.ts"; "/proj/a/y.ts"]));
    by vm_compute.
Defined.

(** C3 as stated fails: when [analyzeFiles] throws for the first directory
    of the order, the turn of the loop lets the exception out, no entry is
    recorded for that directory, [failedGenerations] stays at zero and the
    two directories after it are never processed. *)
Lemma analyzer_exception_ends_run :
  let this := Fixtures.withThrowingAnalyzer in
  let disk := disk_of "/proj" Fixtures.twoSubdirectories in
  let final := run this Fixtures.twoSubdirectories in
  c_createBottomUpOrder (crawler this) Fixtures.twoSubdirectories
  = Ok ["/proj/a"; "/proj/b"; "/proj"]
  ∧ processDirectory this "/proj/a" (setTotal 3 initialResult, disk) = Throw "boom"
  ∧ failedGenerations final.1 = 0%nat
  ∧ successfulGenerations final.1 = 0%nat
  ∧ errors final.1 = [ {| err_directory := "/proj"; err_error := "Global error: boom" |} ]
  ∧ final.2 !! "/proj/b/testplan.md" = None
  ∧ final.2 !! "/proj/testplan.md" = None.
Proof. by vm_compute. Qed.

(** C9. With a test plan already in the directory and the update policy
    allowing to overwrite it, a generation that fails is counted in
    [failedGenerations] and in [updatedGenerations] both. *)
Theorem run_counts_failed_update :
  let this := Fixtures.testPlanAggregator Fixtures.failing in
  let final := (run this Fixtures.plannedProject).1 in
  totalDirectories final = 1%nat
  ∧ successfulGenerations final = 0%nat
  ∧ failedGenerations final = 1%nat
  ∧ updatedGenerations final = 1%nat
  ∧ errors final = [ {| err_directory := "/proj"; err_error := "rate limited" |} ].
Proof. by vm_compute. Qed.

(** ** The child-content collector *)

Section CollectorFacts.

Variable config : AutodocumentConfig.
Variable shouldIgnore : string → bool.
Variable options : CrawlerOptions.
Variable disk : Disk.

(** A [filter] none of whose tests throws. *)
Lemma filterR_total {A} (f : A → Result bool) (l : list A) :
  (∀ x, x ∈ l → ∃ b, f x = Ok b) →
  ∃ kept, filterR f l = Ok kept ∧ ∀ x, x ∈ kept ↔ x ∈ l ∧ f x = Ok true.
Proof.
  induction l as [|x l IH]; intros Hall.
  - exists []. split; [done|]. intros x.
    split; [by intros ?%elem_of_nil | by intros [?%elem_of_nil _]].
  - destruct (Hall x) as [b Hb]; [by left|].
    destruct IH as (kept & Hkept & Hiff); [intros y Hy; apply Hall; by right|].
    cbn [filterR]. rewrite Hb, Hkept.
    exists (if b then x :: kept else kept). split; [done|].
    intros y. destruct b.
    + rewrite !elem_of_cons, Hiff. split.
      * intros [->|[? ?]]; [by split; [left|] | by split; [right|]].
      * intros [[->|?] ?]; [by left | by right].
    + rewrite elem_of_cons, Hiff. split.
      * intros [? ?]. by split; [right|].
      * intros [[->|?] ?]; [congruence | done].
Qed.

Lemma singleFileOf_path (directoryPath subdir : string) (item : ChildContent) :
  item ∈ singleFileOf config shouldIgnore options disk directoryPath subdir →
  cc_path item = subdir.
Proof.
  unfold singleFileOf.
  destruct (getCodeFiles _ _ _ _ _) as [|file [|? ?]]; try by intros ?%elem_of_nil.
  destruct (readFileContent _ _ _) as [text|]; [|by intros ?%elem_of_nil].
  destruct (truthy text); [|by intros ?%elem_of_nil].
  by intros ->%list_elem_of_singleton.
Qed.

Lemma shouldDocument_single (directoryPath file : string) :
  shouldDocument config directoryPath [file] false = false.
Proof.
  unfold shouldDocument. cbn [List.filter].
  by destruct (isCandidate config file).
Qed.

Lemma singleFileText_fenced (directoryPath subdir file text : string) :
  ∃ before,
    singleFileText directoryPath subdir file text
    = before +:+ ("```" +:+ nl +:+ text +:+ nl +:+ "```").
Proof.
  unfold singleFileText.
  exists ("# " +:+ Path.basename subdir +:+ " - " +:+ Path.basename file +:+ nl +:+ nl
          +:+ "This file is from a single-file directory: "
          +:+ Path.relative directoryPath subdir +:+ nl +:+ nl).
  rewrite !append_assoc. reflexivity.
Qed.

(** C4, amended. Let a subdirectory of a parent have exactly one code
    file and no subdirectory, the parent's entries all being readable by
    [statSync] and the subdirectory not being ignored. Then
    [shouldDocument] declines the subdirectory; if its file can be read,
    is within the per-file size limit and is not empty, the parent's
    child content has the entry for the subdirectory whose text ends
    with the file's content, verbatim, between code fences; and if the
    file exceeds the limit, cannot be read or is empty, the collector
    returns, without an exception, a list with no inlined entry for the
    subdirectory. *)
Theorem single_file_directory_inlined (parent name file : string) (names : list string) :
  let subdir := Path.join parent name in
  let inlined := getSingleFileSubdirectories config shouldIgnore options disk parent in
  readdirSync disk parent = Some names →
  (∀ n, n ∈ names → is_Some (disk !! Path.join parent n)) →
  name ∈ names →
  (∃ size listing writable, disk !! subdir = Some (EDir size listing writable)) →
  respectGitignore options && shouldIgnore subdir = false →
  getCodeFiles config shouldIgnore options disk subdir = [file] →
  hasSubdirectories shouldIgnore options disk subdir = false →
  shouldDocument config subdir
    (getCodeFiles config shouldIgnore options disk subdir)
    (hasSubdirectories shouldIgnore options disk subdir) = false
  ∧ (∀ text stats,
       statSync disk file = Ok stats → st_size stats ≤ maxFileSize config →
       readFile disk file = Ok text → text ≠ "" →
       let item := {| cc_path := subdir;
                      cc_content := singleFileText parent subdir file text |} in
       item ∈ inlined
       ∧ item ∈ getSubdirectoryDocs config shouldIgnore options disk parent ++ inlined
       ∧ ∃ before, cc_content item = before +:+ ("```" +:+ nl +:+ text +:+ nl +:+ "```"))
  ∧ ((∃ stats, statSync disk file = Ok stats ∧ maxFileSize config < st_size stats)
     ∨ (∃ m, readFile disk file = Throw m)
     ∨ readFile disk file = Ok "" →
     c_getSingleFileSubdirectories (DirectoryCrawler config shouldIgnore options parent)
       disk parent = Ok inlined
     ∧ ∀ item, item ∈ inlined → cc_path item ≠ subdir).
Proof.
  intros subdir inlined Hdir Hstat Hname (dsize & listing & dwritable & Hsub) Hign Hfiles
    Hnosub.
  split; [rewrite Hfiles, Hnosub; apply shouldDocument_single|].
  assert (Hsubdirs : ∃ subdirs,
    filterR (isSubdirectory shouldIgnore options disk) (Path.join parent <$> names)
    = Ok subdirs
    ∧ ∀ x, x ∈ subdirs ↔ x ∈ Path.join parent <$> names
                        ∧ isSubdirectory shouldIgnore options disk x = Ok true).
  { apply filterR_total. intros x (n & -> & Hn)%list_elem_of_fmap.
    destruct (Hstat n Hn) as [e He]. unfold isSubdirectory, statSync. rewrite He.
    destruct e; by eexists. }
  destruct Hsubdirs as (subdirs & Hfilter & Hiff).
  assert (Hin : subdir ∈ subdirs).
  { apply Hiff. split; [apply list_elem_of_fmap; by exists name|].
    unfold isSubdirectory, statSync. rewrite Hsub. cbn. f_equal.
    destruct (respectGitignore options); [|done]. cbn in *. by rewrite Hign. }
  assert (Hinl : inlined = subdirs ≫= singleFileOf config shouldIgnore options disk parent).
  { unfold inlined, getSingleFileSubdirectories. by rewrite Hdir, Hfilter. }
  split.
  - intros text stats Hst Hsize Hread Hne item.
    assert (Hitem : item ∈ inlined).
    { rewrite Hinl. apply list_elem_of_bind. exists subdir. split; [|done].
      unfold singleFileOf. rewrite Hfiles.
      unfold readFileContent. rewrite Hst.
      replace (maxFileSizeKb (fileProcessing config) * 1024 <? st_size stats) with false
        by (symmetry; apply Z.ltb_ge; unfold maxFileSize in Hsize; lia).
      rewrite Hread. unfold truthy.
      replace (String.eqb text "") with false by (symmetry; by apply String.eqb_neq).
      by apply list_elem_of_singleton. }
    split; [done|]. split; [apply elem_of_app; by right|].
    apply singleFileText_fenced.
  - intros Hbad. split; [done|].
    intros item Hitem Hpath. rewrite Hinl in Hitem.
    apply list_elem_of_bind in Hitem as (s & Hitem & Hs).
    pose proof (singleFileOf_path _ _ _ Hitem) as Hp. rewrite Hpath in Hp. subst s.
    unfold singleFileOf in Hitem. rewrite Hfiles in Hitem.
    unfold readFileContent in Hitem.
    destruct Hbad as [(stats & Hst & Hbig) | [[m Hread] | Hread]].
    + rewrite Hst in Hitem.
      replace (maxFileSizeKb (fileProcessing config) * 1024 <? st_size stats) with true
        in Hitem by (symmetry; apply Z.ltb_lt; unfold maxFileSize in Hbig; lia).
      by apply elem_of_nil in Hitem.
    + destruct (statSync disk file) as [stats|]; [|by apply elem_of_nil in Hitem].
      destruct (_ <? _); [by apply elem_of_nil in Hitem|].
      rewrite Hread in Hitem. by apply elem_of_nil in Hitem.
    + destruct (statSync disk file) as [stats|]; [|by apply elem_of_nil in Hitem].
      destruct (_ <? _); [by apply elem_of_nil in Hitem|].
      rewrite Hread in Hitem. by apply elem_of_nil in Hitem.
Qed.

End CollectorFacts.

(** The single-file directory of the end-to-end example, inlined in the
    child content of the root. *)
Lemma single_file_directory_inlined_witness :
  let disk := disk_of "/proj" Fixtures.singleFileProject in
  {| cc_path := "/proj/sub";
     cc_content :=
       singleFileText "/proj" "/proj/sub" "/proj/sub/b.ts" "export const b = 2;" |}
    ∈ getSingleFileSubdirectories defaultConfig (λ _, false) Fixtures.crawlerOptions
        disk "/proj".
Proof.
  intros disk.
  destruct (single_file_directory_inlined defaultConfig (λ _, false)
              Fixtures.crawlerOptions disk "/proj" "sub" "/proj/sub/b.ts" ["a.ts"; "sub"])
    as (_ & H & _).
  - reflexivity.
  - intros n Hn. apply (bool_decide_unpack _).
    apply elem_of_cons in Hn as [->|Hn]; [by vm_compute|].
    apply list_elem_of_singleton in Hn as ->. by vm_compute.
  - by_compute.
  - by exists 4096, (Some ["b.ts"]), true.
  - reflexivity.
  - reflexivity.
  - reflexivity.
  - destruct (H "export const b = 2;" {| st_isDirectory := false; st_size := 30 |})
      as (Hin & _); [reflexivity | by_compute | reflexivity | done | exact Hin].
Defined.

(** C4 as stated fails for an empty file: the subdirectory has exactly one
    code file, within the size limit, and no subdirectory, yet the
    parent's child content has no entry for it. *)
Lemma empty_single_file_not_inlined :
  let disk := disk_of "/proj" Fixtures.emptyFileProject in
  getCodeFiles defaultConfig (λ _, false) Fixtures.crawlerOptions disk "/proj/sub"
  = ["/proj/sub/b.ts"]
  ∧ hasSubdirectories (λ _, false) Fixtures.crawlerOptions disk "/proj/sub" = false
  ∧ readFileContent defaultConfig disk "/proj/sub/b.ts" = Some ""
  ∧ getSingleFileSubdirectories defaultConfig (λ _, false) Fixtures.crawlerOptions
      disk "/proj" = []
  ∧ getSubdirectoryDocs defaultConfig (λ _, false) Fixtures.crawlerOptions disk "/proj" = [].
Proof. by vm_compute. Qed.


(** ** The order on arbitrary trees, and the leaf directories *)

Lemma collectLeafDirs_unfold (dir : Directory) (result : list string) :
  collectLeafDirs dir result
  = if isLeaf dir then result ++ [dir_path dir]
    else collectLeafSubdirs (subdirectories dir) result.
Proof.
  destruct dir as [p n subs files leaf]. cbn [collectLeafDirs isLeaf subdirectories dir_path].
  destruct leaf; [done|].
  revert result. induction subs as [|d subs IH]; intros result; [done|].
  exact (IH (collectLeafDirs d result)).
Qed.

(** [processDir] keeps the state consistent, only appends to the array,
    appends only paths of the tree it is given, and leaves the path of
    that tree in the set. *)
Lemma processDir_consistent (d : Directory) :
  ∀ st, consistent st →
        consistent (processDir d st)
        ∧ (∃ new, allDirs (processDir d st) = allDirs st ++ new
                  ∧ ∀ q, q ∈ new → q ∈ all_paths d)
        ∧ dir_path d ∈ processedDirs (processDir d st).
Proof.
  induction d as [p n subs files leaf IH] using Directory_ind. intros st Hst.
  rewrite processDir_unfold. cbn [subdirectories dir_path].
  assert (Hsubs : ∀ st, consistent st →
            consistent (processSubdirs subs st)
            ∧ ∃ new, allDirs (processSubdirs subs st) = allDirs st ++ new
                     ∧ ∀ q, q ∈ new → q ∈ subs ≫= all_paths).
  { clear st Hst. induction subs as [|d subs IHsubs]; intros st Hst.
    - split; [done|]. exists []. split; [by rewrite app_nil_r|]. by intros q ?%elem_of_nil.
    - apply Forall_cons in IH as [IHd IH]. specialize (IHsubs IH).
      rewrite processSubdirs_cons.
      destruct (bool_decide (dir_path d ∈ processedDirs st)).
      + destruct (IHsubs st Hst) as (Hc & new & Heq & Hnew).
        split; [done|]. exists new. split; [done|].
        intros q Hq. rewrite bind_cons. apply elem_of_app. right. by apply Hnew.
      + destruct (IHd st Hst) as (Hc1 & (new1 & Heq1 & Hnew1) & _).
        destruct (IHsubs _ Hc1) as (Hc & new & Heq & Hnew).
        split; [done|]. exists (new1 ++ new). split.
        * by rewrite Heq, Heq1, <- app_assoc.
        * intros q [Hq|Hq]%elem_of_app; rewrite bind_cons; apply elem_of_app;
            [left; by apply Hnew1 | right; by apply Hnew]. }
  destruct (Hsubs st Hst) as ([Hnd Hset] & new & Heq & Hnew).
  cbv zeta. destruct (bool_decide (p ∈ processedDirs (processSubdirs subs st))) eqn:Hp.
  - apply bool_decide_eq_true in Hp. split; [done|]. split; [|done].
    exists new. split; [done|]. intros q Hq. rewrite all_paths_unfold.
    apply elem_of_cons. right. by apply Hnew.
  - apply bool_decide_eq_false in Hp. unfold consistent. cbn [allDirs processedDirs].
    split; [|split].
    + split.
      * apply NoDup_app. split; [done|]. split; [|apply NoDup_singleton].
        intros q Hq ->%list_elem_of_singleton. apply Hp. by apply Hset.
      * intros q. rewrite elem_of_union, elem_of_singleton, elem_of_app,
          list_elem_of_singleton. by rewrite Hset.
    + exists (new ++ [p]). split; [by rewrite Heq, <- app_assoc|].
      intros q [Hq|Hq]%elem_of_app; rewrite all_paths_unfold; apply elem_of_cons;
        [right; by apply Hnew | left; by apply list_elem_of_singleton in Hq].
    + apply elem_of_union. right. by apply elem_of_singleton.
Qed.

(** X1. On every tree, also one in which a path occurs at several nodes,
    the list [createBottomUpOrder] returns has no path twice, holds only
    paths of the tree, and holds the path of the root. *)
Theorem createBottomUpOrder_no_duplicates (dirTree : Directory) :
  NoDup (createBottomUpOrder dirTree)
  ∧ (∀ q, q ∈ createBottomUpOrder dirTree → q ∈ all_paths dirTree)
  ∧ dir_path dirTree ∈ createBottomUpOrder dirTree.
Proof.
  unfold createBottomUpOrder.
  destruct (processDir_consistent dirTree {| allDirs := []; processedDirs := ∅ |})
    as ([Hnd Hset] & (new & Heq & Hnew) & Hroot).
  { split; [constructor|]. intros q. cbn. split; [by intros ?%elem_of_empty | by intros ?%elem_of_nil]. }
  split; [done|]. split; [|by apply Hset].
  intros q Hq. rewrite Heq in Hq. by apply Hnew.
Qed.

Section LeafFacts.

Variable shouldIgnore : string → bool.
Variable options : CrawlerOptions.

#[local] Arguments scanDirectory : simpl never.

Lemma scan_isLeaf (p : string) (n : Node) :
  leafFlagged (scanDirectory shouldIgnore options p n).
Proof.
  unfold leafFlagged. destruct n as [| [es|] |]; try done.
  unfold scanDirectory. fold scanDirectory.
  match goal with |- context [let '(_, _) := ?loop es in _] => destruct (loop es) as [subs files] end.
  cbn [isLeaf subdirectories]. rewrite bool_decide_eq_true. by destruct subs.
Qed.

Lemma subtrees_unfold (d : Directory) :
  subtrees d = d :: (subdirectories d ≫= subtrees).
Proof. by destruct d. Qed.

Lemma scan_leafFlagged (n : Node) :
  ∀ p, Forall leafFlagged (subtrees (scanDirectory shouldIgnore options p n)).
Proof.
  induction n as [size content| | |es IH] using Node_ind; intros p;
    rewrite subtrees_unfold; apply Forall_cons; (split; [apply scan_isLeaf|]);
    try (by change (Forall leafFlagged [])).
  rewrite scan_subdirectories. apply Forall_forall. intros D HD.
  apply list_elem_of_bind in HD as (d & HD & Hd).
  apply list_elem_of_omap in Hd as ([e c] & Hin & Hd).
  unfold scanEntry in Hd. cbn [fst snd] in Hd.
  destruct (skipped_entry _ _ _ _); [done|].
  destruct c as [| l |]; try done. injection Hd as <-.
  rewrite Forall_forall in IH. specialize (IH _ Hin (Path.join p e)).
  rewrite Forall_forall in IH. by apply IH.
Qed.

End LeafFacts.

Lemma filter_bind {A B} (f : B → bool) (g : A → list B) (l : list A) :
  List.filter f (l ≫= g) = l ≫= (λ x, List.filter f (g x)).
Proof.
  induction l as [|x l IH]; [done|]. by rewrite !bind_cons, List.filter_app, IH.
Qed.

Lemma leafPaths_unfold (t : Directory) :
  leafPaths t
  = (if isLeaf t then [dir_path t] else []) ++ (subdirectories t ≫= leafPaths).
Proof.
  unfold leafPaths. destruct t as [p n subs files leaf].
  cbn [subtrees subdirectories List.filter isLeaf dir_path].
  rewrite filter_bind, <- fmap_bind. by destruct leaf.
Qed.

(** [collectLeafDirs] appends the leaf paths of the tree, when every node
    of the tree is flagged rightly. *)
Lemma collectLeafDirs_leafPaths (t : Directory) :
  Forall leafFlagged (subtrees t) →
  ∀ result, collectLeafDirs t result = result ++ leafPaths t.
Proof.
  induction t as [p n subs files leaf IH] using Directory_ind. intros Hflag result.
  cbn [subtrees subdirectories] in Hflag. apply Forall_cons in Hflag as [Hroot Hflag].
  rewrite collectLeafDirs_unfold, leafPaths_unfold. cbn [isLeaf subdirectories dir_path].
  destruct leaf.
  - unfold leafFlagged in Hroot. cbn in Hroot. by rewrite (proj1 Hroot eq_refl).
  - cbn [app]. clear Hroot. revert result.
    induction subs as [|d subs IHsubs]; intros result; [by rewrite app_nil_r|].
    apply Forall_cons in IH as [IHd IH]. rewrite bind_cons in Hflag.
    apply Forall_app in Hflag as [Hd Hflag].
    cbn [collectLeafSubdirs]. rewrite IHd by done. rewrite IHsubs by done.
    by rewrite bind_cons, app_assoc.
Qed.

Lemma leafPaths_nonempty (t : Directory) :
  Forall leafFlagged (subtrees t) → leafPaths t ≠ [].
Proof.
  induction t as [p n subs files leaf IH] using Directory_ind. intros Hflag.
  cbn [subtrees subdirectories] in Hflag. apply Forall_cons in Hflag as [Hroot Hflag].
  rewrite leafPaths_unfold. cbn [isLeaf subdirectories dir_path].
  destruct leaf; [done|]. cbn [app].
  destruct subs as [|d subs].
  - unfold leafFlagged in Hroot. cbn in Hroot. discriminate (proj2 Hroot eq_refl).
  - apply Forall_cons in IH as [IHd _]. rewrite bind_cons in Hflag.
    apply Forall_app in Hflag as [Hd _]. rewrite bind_cons.
    intros [Hnil _]%app_eq_nil. by apply IHd.
Qed.

Lemma postorder_nonempty (t : Directory) : postorder t ≠ [].
Proof. rewrite postorder_unfold. intros [_ ?]%app_eq_nil. done. Qed.

Lemma head_app_nonempty {A} (l k : list A) : l ≠ [] → head (l ++ k) = head l.
Proof. by destruct l. Qed.

Lemma postorder_head (t : Directory) :
  Forall leafFlagged (subtrees t) → head (postorder t) = head (leafPaths t).
Proof.
  induction t as [p n subs files leaf IH] using Directory_ind. intros Hflag.
  pose proof Hflag as Hall.
  cbn [subtrees subdirectories] in Hflag. apply Forall_cons in Hflag as [Hroot Hflag].
  rewrite postorder_unfold, leafPaths_unfold. cbn [isLeaf subdirectories dir_path].
  unfold leafFlagged in Hroot. cbn in Hroot.
  destruct subs as [|d subs].
  - rewrite (proj2 Hroot eq_refl). done.
  - destruct leaf; [discriminate (proj1 Hroot eq_refl)|]. cbn [app].
    apply Forall_cons in IH as [IHd _]. rewrite bind_cons in Hflag.
    apply Forall_app in Hflag as [Hd _]. rewrite !bind_cons, <- app_assoc.
    rewrite !head_app_nonempty; [by apply IHd | by apply leafPaths_nonempty
                                | by apply postorder_nonempty].
Qed.

Section LeafTheorems.

Variable shouldIgnore : string → bool.
Variable options : CrawlerOptions.

(** X2. On a scanned tree [findLeafDirectories] returns, in the order of
    the tree, the paths of exactly the directories that have no
    subdirectory in the tree; the list is never empty; and every path in
    it is in the bottom-up order. *)
Theorem findLeafDirectories_scan (rootPath : string) (root : Node) :
  wf_node root = true →
  let dirTree := scan shouldIgnore options rootPath root in
  findLeafDirectories dirTree = dir_path <$> List.filter isLeaf (subtrees dirTree)
  ∧ (∀ D, D ∈ subtrees dirTree → isLeaf D = true ↔ subdirectories D = [])
  ∧ findLeafDirectories dirTree ≠ []
  ∧ (∀ q, q ∈ findLeafDirectories dirTree → q ∈ createBottomUpOrder dirTree).
Proof.
  intros Hwf dirTree.
  pose proof (scan_leafFlagged shouldIgnore options root rootPath) as Hflag.
  fold (scan shouldIgnore options rootPath root) in Hflag. fold dirTree in Hflag.
  assert (Hleaf : findLeafDirectories dirTree = leafPaths dirTree).
  { unfold findLeafDirectories. by rewrite collectLeafDirs_leafPaths. }
  split; [done|]. split; [|split].
  - intros D HD. rewrite Forall_forall in Hflag. by apply Hflag.
  - rewrite Hleaf. by apply leafPaths_nonempty.
  - intros q Hq. rewrite createBottomUpOrder_postorder by by apply scan_NoDup.
    rewrite postorder_perm. rewrite Hleaf in Hq. unfold leafPaths in Hq.
    apply list_elem_of_fmap in Hq as (D & -> & HD).
    apply list_elem_of_In, List.filter_In in HD as [HD _].
    apply list_elem_of_fmap. exists D. split; [done|]. by apply list_elem_of_In.
Qed.

(** X3. The bottom-up order of a scanned tree ends with the root path,
    begins with the first leaf directory, and has one entry per directory
    of the tree. *)
Theorem createBottomUpOrder_ends (rootPath : string) (root : Node) :
  wf_node root = true →
  let dirTree := scan shouldIgnore options rootPath root in
  let order := createBottomUpOrder dirTree in
  last order = Some rootPath
  ∧ head order = head (findLeafDirectories dirTree)
  ∧ length order = length (subtrees dirTree).
Proof.
  intros Hwf dirTree order.
  pose proof (scan_leafFlagged shouldIgnore options root rootPath) as Hflag.
  fold (scan shouldIgnore options rootPath root) in Hflag. fold dirTree in Hflag.
  assert (Horder : order = postorder dirTree)
    by (apply createBottomUpOrder_postorder; by apply scan_NoDup).
  rewrite Horder. split; [|split].
  - rewrite postorder_unfold, last_snoc. f_equal. apply scan_path.
  - unfold findLeafDirectories. rewrite collectLeafDirs_leafPaths by done.
    by apply postorder_head.
  - rewrite postorder_perm. unfold all_paths. by rewrite length_fmap.
Qed.

End LeafTheorems.

Lemma findLeafDirectories_scan_witness :
  let dirTree :=
    scan (λ _, false) Fixtures.crawlerOptions "/proj" Fixtures.twoSubdirectories in
  findLeafDirectories dirTree = ["/proj/a"; "/proj/b"]
  ∧ findLeafDirectories dirTree ≠ [].
Proof.
  destruct (findLeafDirectories_scan (λ _, false) Fixtures.crawlerOptions "/proj"
              Fixtures.twoSubdirectories ltac:(by vm_compute)) as (_ & _ & Hne & _).
  split; [by vm_compute | exact Hne].
Defined.

Lemma createBottomUpOrder_ends_witness :
  let order :=
    createBottomUpOrder
      (scan (λ _, false) Fixtures.crawlerOptions "/proj" Fixtures.singleFileProject) in
  order = ["/proj/sub"; "/proj"] ∧ last order = Some "/proj".
Proof.
  destruct (createBottomUpOrder_ends (λ _, false) Fixtures.crawlerOptions "/proj"
              Fixtures.singleFileProject ltac:(by vm_compute)) as (Hlast & _ & _).
  split; [by vm_compute | exact Hlast].
Defined.

(** ** The analyzer, on every input *)

Section AnalyzerShape.

Variable config : AutodocumentConfig.
Variable disk : Disk.

Lemma countLimitedLoop_spec (limitedFiles files : list string) :
  ∀ r, countLimitedLoop config disk limitedFiles files r
       = {| analyzedFiles :=
              analyzedFiles r ++ analyzedBy (countOutcome config disk limitedFiles) files;
            excludedFiles :=
              excludedFiles r ++ excludedBy (countOutcome config disk limitedFiles) files;
            limited := limited r;
            totalSize := totalSize r + sizeBy (countOutcome config disk limitedFiles) files;
            limitReason := limitReason r |}.
Proof.
  induction files as [|f files IH]; intros r.
  - destruct r. cbn. by rewrite !app_nil_r, Z.add_0_r.
  - cbn [countLimitedLoop]. rewrite IH.
    assert (Hf : countOutcome config disk limitedFiles f
                 = if includes limitedFiles f then fileOutcome config disk f
                   else inr (countExcluded f)) by done.
    set (o := countOutcome config disk limitedFiles) in *.
    unfold analyzedBy, excludedBy. cbn [omap list_omap sizeBy]. rewrite Hf.
    destruct (includes limitedFiles f).
    + rewrite processFile_outcome.
      destruct (fileOutcome config disk f) as [[a size]|e]; cbn;
        f_equal; rewrite <- ?app_assoc; try done; lia.
    + cbn. f_equal; rewrite <- ?app_assoc; try done; lia.
Qed.

(** The shape of every result of [analyzeFiles]: the markdown files of
    the input are excluded, and after them come the outcomes, in order, of
    a leading part of the candidates; that part is all of them unless the
    total-size check stopped the loop. *)
Lemma analyzeFiles_shape (directoryPath : string) (filePaths : list string) :
  let codeFiles := List.filter (isCandidate config) filePaths in
  let r := analyzeFiles config disk directoryPath filePaths in
  ∃ o visited,
    admissible config disk o
    ∧ visited `prefix_of` codeFiles
    ∧ analyzedFiles r = analyzedBy o visited
    ∧ excludedFiles r
      = (markdownExcluded <$> List.filter isMarkdown filePaths) ++ excludedBy o visited
    ∧ totalSize r = sizeBy o visited
    ∧ (limited r = false ∨ ceiling config < Z.of_nat (length codeFiles) →
       visited = codeFiles).
Proof.
  intros codeFiles r. subst r. unfold analyzeFiles. rewrite filterCodeFiles_spec.
  fold codeFiles. fold (ceiling config).
  destruct (ceiling config <? Z.of_nat (length codeFiles)) eqn:Hcount.
  - exists (countOutcome config disk (slice0 codeFiles (ceiling config))), codeFiles.
    rewrite countLimitedLoop_spec. cbn.
    split; [|split; [done|]]; [|repeat split; done || lia].
    intros f. unfold countOutcome. destruct (includes _ f); [by left | by right].
  - apply Z.ltb_ge in Hcount.
    set (r0 := {| analyzedFiles := analyzedFiles emptyResult;
                  excludedFiles := excludedFiles emptyResult ++ _;
                  limited := limited emptyResult; totalSize := totalSize emptyResult;
                  limitReason := limitReason emptyResult |}).
    destruct (sizeLimitedLoop_cases config disk codeFiles r0) as
      [[Heq Hk] | (pre & f & post & Hsplit & Hk & Hgt & Heq)];
      rewrite Heq; rewrite !processFiles_spec in *; cbn in *.
    + exists (fileOutcome config disk), codeFiles.
      split; [by left|]. split; [done|]. repeat split; done || lia.
    + exists (fileOutcome config disk), (pre ++ [f]).
      split; [by left|]. split.
      { exists post. by rewrite Hsplit, <- app_assoc. }
      split; [done|]. split; [done|]. split; [done|]. intros [?|?]; [done | lia].
Qed.

Lemma prefix_sublist {A} (l k : list A) : l `prefix_of` k → l `sublist_of` k.
Proof. intros [rest ->]. by apply sublist_inserts_r. Qed.

Lemma fileOutcome_analyzed (f : string) (a : AnalyzedFile) (size : Z) :
  fileOutcome config disk f = inl (a, size) →
  af_path a = f ∧ af_extension a = lowerExt f
  ∧ readFile disk f = Ok (af_content a)
  ∧ statSync disk f = Ok {| st_isDirectory := false; st_size := size |}
  ∧ size ≤ maxFileSize config.
Proof.
  unfold fileOutcome, statSync, readFile.
  destruct (disk !! f) as [[fsize content fwritable|dsize listing dwritable]|] eqn:Hf;
    try done.
  - cbn. destruct (maxFileSize config <? fsize) eqn:Hcmp; [done|].
    destruct content as [text|m]; [|done]. intros [= <- <-]. apply Z.ltb_ge in Hcmp. done.
  - cbn. by destruct (maxFileSize config <? dsize).
Qed.

Lemma admissible_analyzed (o : string → AnalyzedFile * Z + ExcludedFile) (f : string)
    (a : AnalyzedFile) (size : Z) :
  admissible config disk o → o f = inl (a, size) → fileOutcome config disk f = inl (a, size).
Proof. intros Ho Hf. destruct (Ho f) as [H|H]; congruence. Qed.

Lemma admissible_excluded (o : string → AnalyzedFile * Z + ExcludedFile) (f : string)
    (e : ExcludedFile) :
  admissible config disk o → o f = inr e → ef_path e = f.
Proof.
  intros Ho Hf. destruct (Ho f) as [H|H]; rewrite H in Hf.
  - by apply (fileOutcome_excluded_path config disk).
  - by injection Hf as <-.
Qed.

Lemma analyzedBy_sublist (o : string → AnalyzedFile * Z + ExcludedFile)
    (files : list string) :
  admissible config disk o → af_path <$> analyzedBy o files `sublist_of` files.
Proof.
  intros Ho. induction files as [|f files IH]; [done|].
  unfold analyzedBy in *. cbn [omap list_omap].
  destruct (o f) as [[a size]|e] eqn:Hf.
  - apply (admissible_analyzed o) in Hf; [|done].
    apply fileOutcome_analyzed in Hf as (<- & _). cbn. by apply sublist_skip.
  - by apply sublist_cons.
Qed.

Lemma outcome_count (o : string → AnalyzedFile * Z + ExcludedFile) (files : list string) :
  (length (analyzedBy o files) + length (excludedBy o files))%nat = length files.
Proof.
  induction files as [|f files IH]; [done|].
  unfold analyzedBy, excludedBy in *. cbn [omap list_omap].
  destruct (o f) as [[a size]|e]; cbn; lia.
Qed.

Lemma sizeBy_analyzedSize (o : string → AnalyzedFile * Z + ExcludedFile)
    (files : list string) :
  admissible config disk o → sizeBy o files = analyzedSize disk (analyzedBy o files).
Proof.
  intros Ho. induction files as [|f files IH]; [done|].
  unfold analyzedBy in *. cbn [omap list_omap sizeBy].
  destruct (o f) as [[a size]|e] eqn:Hf; [|lia].
  apply (admissible_analyzed o) in Hf; [|done].
  apply fileOutcome_analyzed in Hf as (Hpath & _ & _ & Hstat & _).
  cbn. unfold fileSize at 1. rewrite Hpath, Hstat. cbn. by rewrite IH.
Qed.

(** X4. Whatever the input and the limits, the paths of the analyzed
    files, in their order, are picked in order from the candidates of the
    input (the paths that are not markdown and have an allowed extension):
    the analysis keeps the order of the input and analyzes nothing it was
    not given and no markdown file. *)
Theorem analyzeFiles_analyzed_in_order (directoryPath : string) (filePaths : list string) :
  let r := analyzeFiles config disk directoryPath filePaths in
  af_path <$> analyzedFiles r `sublist_of` List.filter (isCandidate config) filePaths
  ∧ ∀ a, a ∈ analyzedFiles r →
         af_path a ∈ filePaths ∧ isMarkdown (af_path a) = false
         ∧ includes (codeExtensions (fileProcessing config)) (lowerExt (af_path a)) = true.
Proof.
  intros r. subst r.
  destruct (analyzeFiles_shape directoryPath filePaths)
    as (o & visited & Ho & Hpre & Han & _).
  assert (Hsub : af_path <$> analyzedFiles (analyzeFiles config disk directoryPath filePaths)
                   `sublist_of` List.filter (isCandidate config) filePaths).
  { rewrite Han. etrans; [by apply analyzedBy_sublist|]. by apply prefix_sublist. }
  split; [done|]. intros a Ha.
  assert (Hin : af_path a ∈ List.filter (isCandidate config) filePaths).
  { eapply elem_of_sublist; [|done]. by apply list_elem_of_fmap_2. }
  apply list_elem_of_In, List.filter_In in Hin as [Hin Hc].
  split; [by apply list_elem_of_In|]. unfold isCandidate in Hc.
  apply andb_prop in Hc as [Hmd Hext]. split; [by apply negb_true_iff|done].
Qed.

(** X5. Every analyzed file carries the content read from its path and
    the lower-cased extension of its path, its size on disk is within the
    per-file limit, and [totalSize] is the sum of the sizes on disk of the
    analyzed files. *)
Theorem analyzeFiles_analyzed_faithful (directoryPath : string) (filePaths : list string) :
  let r := analyzeFiles config disk directoryPath filePaths in
  (∀ a, a ∈ analyzedFiles r →
        readFile disk (af_path a) = Ok (af_content a)
        ∧ af_extension a = lowerExt (af_path a)
        ∧ ∃ stats, statSync disk (af_path a) = Ok stats
                   ∧ st_size stats ≤ maxFileSize config)
  ∧ totalSize r = analyzedSize disk (analyzedFiles r).
Proof.
  intros r. subst r.
  destruct (analyzeFiles_shape directoryPath filePaths)
    as (o & visited & Ho & _ & Han & _ & Htotal & _).
  split.
  - intros a Ha. rewrite Han in Ha. apply list_elem_of_omap in Ha as (f & _ & Hf).
    destruct (o f) as [[a' size]|e] eqn:Hof; [|done]. injection Hf as ->.
    apply (admissible_analyzed o) in Hof; [|done].
    apply fileOutcome_analyzed in Hof as (<- & Hext & Hread & Hstat & Hsize).
    split; [done|]. split; [done|]. by eexists.
  - rewrite Htotal, Han. by apply sizeBy_analyzedSize.
Qed.

(** X6. Each markdown file and each candidate of the input gives at most
    one entry of the result, analyzed or excluded, and exactly one unless
    the total-size check stopped the loop: when [limited] is false, and in
    the file-count branch, the entries are as many as the markdown files
    and the candidates together. *)
Theorem analyzeFiles_accounts_for_input (directoryPath : string) (filePaths : list string) :
  let r := analyzeFiles config disk directoryPath filePaths in
  let markdown := List.filter isMarkdown filePaths in
  let codeFiles := List.filter (isCandidate config) filePaths in
  (length (analyzedFiles r) + length (excludedFiles r)
   ≤ length markdown + length codeFiles)%nat
  ∧ (limited r = false ∨ ceiling config < Z.of_nat (length codeFiles) →
     (length (analyzedFiles r) + length (excludedFiles r))%nat
     = (length markdown + length codeFiles)%nat).
Proof.
  intros r markdown codeFiles. subst r.
  destruct (analyzeFiles_shape directoryPath filePaths)
    as (o & visited & Ho & [rest Hpre] & Han & Hex & _ & Hall).
  fold codeFiles in Hpre, Hall. fold markdown in Hex.
  rewrite Han, Hex, length_app, length_fmap.
  pose proof (outcome_count o visited) as Hcount.
  split.
  - rewrite Hpre, length_app. lia.
  - intros Hcase. clear Hpre. rewrite (Hall Hcase) in *. lia.
Qed.

(** X7. A path that is neither markdown nor a candidate, that is, whose
    extension is not in the allow-list, is named neither among the
    analyzed nor among the excluded files: such input is dropped without
    a trace. Every excluded entry names a path of the input. *)
Theorem analyzeFiles_drops_other_extensions (directoryPath : string)
    (filePaths : list string) :
  let r := analyzeFiles config disk directoryPath filePaths in
  (∀ p, isMarkdown p = false → isCandidate config p = false →
        (p ∉ af_path <$> analyzedFiles r) ∧ (p ∉ ef_path <$> excludedFiles r))
  ∧ (∀ e, e ∈ excludedFiles r → ef_path e ∈ filePaths).
Proof.
  intros r. subst r.
  destruct (analyzeFiles_shape directoryPath filePaths)
    as (o & visited & Ho & Hpre & Han & Hex & _).
  assert (Hexcl : ∀ e, e ∈ excludedFiles (analyzeFiles config disk directoryPath filePaths) →
            (isMarkdown (ef_path e) = true ∧ ef_path e ∈ filePaths)
            ∨ (isCandidate config (ef_path e) = true ∧ ef_path e ∈ filePaths)).
  { intros e He. rewrite Hex in He. apply elem_of_app in He as [He|He].
    - left. apply list_elem_of_fmap in He as (f & -> & Hf).
      apply list_elem_of_In, List.filter_In in Hf as [Hf Hmd].
      split; [done | by apply list_elem_of_In].
    - right. apply list_elem_of_omap in He as (f & Hf & Hof).
      destruct (o f) as [x|e'] eqn:Hoe; [done|]. injection Hof as ->.
      rewrite (admissible_excluded o f e Ho Hoe).
      assert (Hc : f ∈ List.filter (isCandidate config) filePaths).
      { eapply elem_of_sublist; [done | by apply prefix_sublist]. }
      apply list_elem_of_In, List.filter_In in Hc as [Hin Hc].
      split; [done | by apply list_elem_of_In]. }
  split.
  - intros p Hmd Hc. split.
    + intros Hin.
      assert (Hp : p ∈ List.filter (isCandidate config) filePaths).
      { eapply elem_of_sublist; [done|]. rewrite Han.
        etrans; [by apply analyzedBy_sublist | by apply prefix_sublist]. }
      apply list_elem_of_In, List.filter_In in Hp as [_ Hp]. congruence.
    + intros (e & -> & He)%list_elem_of_fmap.
      destruct (Hexcl e He) as [[? _]|[? _]]; congruence.
  - intros e He. by destruct (Hexcl e He) as [[_ ?]|[_ ?]].
Qed.

End AnalyzerShape.

(** ** The crawler's listings *)

Lemma filterR_throws {A} (f : A → Result bool) (l : list A) (x : A) (m : string) :
  x ∈ l → f x = Throw m → ∃ m', filterR f l = Throw m'.
Proof.
  induction l as [|y l IH]; [by intros ?%elem_of_nil|].
  intros [->|Hx]%elem_of_cons Hthrow; cbn [filterR].
  - rewrite Hthrow. by eexists.
  - destruct (f y) as [b|m']; [|by eexists].
    destruct (IH Hx Hthrow) as [m' ->]. by eexists.
Qed.

Lemma filterR_Ok {A} (f : A → Result bool) (l kept : list A) :
  filterR f l = Ok kept →
  kept `sublist_of` l ∧ ∀ x, x ∈ kept ↔ x ∈ l ∧ f x = Ok true.
Proof.
  revert kept. induction l as [|y l IH]; intros kept; cbn [filterR].
  - intros [= <-]. split; [done|]. intros x.
    split; [by intros ?%elem_of_nil | by intros [?%elem_of_nil _]].
  - destruct (f y) as [b|m'] eqn:Hy; [|done].
    destruct (filterR f l) as [kept'|m']; [|done].
    destruct (IH kept' eq_refl) as [Hsub Hiff]. intros [= <-]. destruct b.
    + split; [by apply sublist_skip|]. intros x. rewrite !elem_of_cons, Hiff. split.
      * intros [->|[? ?]]; [by split; [left|] | by split; [right|]].
      * intros [[->|?] ?]; [by left | by right].
    + split; [by apply sublist_cons|]. intros x. rewrite elem_of_cons, Hiff. split.
      * intros [? ?]. by split; [right|].
      * intros [[->|?] ?]; [congruence | done].
Qed.

Lemma filter_all {A} (f : A → bool) (l : list A) :
  (∀ x, x ∈ l → f x = true) → List.filter f l = l.
Proof.
  induction l as [|x l IH]; [done|]. intros Hall. cbn [List.filter].
  rewrite (Hall x) by by left. f_equal. apply IH. intros y Hy. apply Hall. by right.
Qed.

Lemma chars_append (a b : string) : Path.chars (a +:+ b) = Path.chars a ++ Path.chars b.
Proof. induction a as [|c a IH]; [done|]. rewrite append_cons. cbn. by rewrite IH. Qed.

Lemma take_until_slash_app (l k : list ascii) :
  forallb (λ c, negb (Path.is_slash c)) l = true →
  Path.take_until Path.is_slash (l ++ Path.slash :: k) = l.
Proof.
  induction l as [|c l IH]; [done|]. cbn. intros [Hc Hl]%andb_prop.
  apply negb_true_iff in Hc. rewrite Hc. by rewrite IH.
Qed.

Lemma take_until_slash_all (l : list ascii) :
  forallb (λ c, negb (Path.is_slash c)) l = true →
  Path.take_until Path.is_slash l = l.
Proof.
  induction l as [|c l IH]; [done|]. cbn. intros [Hc Hl]%andb_prop.
  apply negb_true_iff in Hc. rewrite Hc. by rewrite IH.
Qed.

Lemma forallb_rev {A} (f : A → bool) (l : list A) :
  forallb f l = true → forallb f (rev l) = true.
Proof.
  rewrite !forallb_forall. intros Hall x Hx. apply Hall. by apply in_rev.
Qed.

(** The last segment of the path of an entry is the entry's name. *)
Lemma rev_base_join (d n : string) :
  Path.noslash n = true → n ≠ "" →
  Path.rev_base (Path.join d n) = rev (Path.chars n)
  ∧ Path.rev_base n = rev (Path.chars n).
Proof.
  intros Hns Hne. unfold Path.rev_base, Path.join, Path.noslash in *.
  rewrite !chars_append. change (Path.chars "/") with [Path.slash].
  rewrite rev_app_distr, rev_app_distr. cbn [rev app]. rewrite <- app_assoc. cbn [app].
  apply forallb_rev in Hns.
  destruct (rev (Path.chars n)) as [|c l] eqn:Hrev.
  { destruct n as [|c n]; [done|]. cbn in Hrev. by destruct (rev (Path.chars n)). }
  pose proof Hns as Hall. cbn in Hns. apply andb_prop in Hns as [Hc _].
  apply negb_true_iff in Hc. cbn [app Path.drop_while]. rewrite Hc.
  split.
  - change (c :: l ++ Path.slash :: rev (Path.chars d))
      with ((c :: l) ++ Path.slash :: rev (Path.chars d)).
    by apply take_until_slash_app.
  - by apply take_until_slash_all.
Qed.

Lemma of_chars_chars (s : string) : Path.of_chars (Path.chars s) = s.
Proof. induction s as [|c s IH]; [done|]. cbn. by rewrite IH. Qed.

Lemma extname_join (d n : string) :
  Path.noslash n = true → n ≠ "" → Path.extname (Path.join d n) = Path.extname n.
Proof.
  intros Hns Hne. destruct (rev_base_join d n Hns Hne) as [H1 H2].
  unfold Path.extname. by rewrite H1, H2.
Qed.

Lemma basename_join (d n : string) :
  Path.noslash n = true → n ≠ "" → Path.basename (Path.join d n) = n.
Proof.
  intros Hns Hne. destruct (rev_base_join d n Hns Hne) as [H1 _].
  unfold Path.basename. by rewrite H1, rev_involutive, of_chars_chars.
Qed.

Section Listings.

Variable config : AutodocumentConfig.
Variable shouldIgnore : string → bool.
Variable options : CrawlerOptions.
Variable disk : Disk.

Lemma hasSubdirectories_spec (directoryPath : string) (names : list string) :
  readdirSync disk directoryPath = Some names →
  hasSubdirectories shouldIgnore options disk directoryPath = true
  ↔ ∃ n, n ∈ names
         ∧ isSubdirectory shouldIgnore options disk (Path.join directoryPath n) = Ok true.
Proof.
  intros Hread. unfold hasSubdirectories. rewrite Hread.
  rewrite bool_decide_eq_true. split.
  - intros Hlen.
    destruct (List.filter _ _) as [|p subdirs] eqn:Hfilter; [cbn in Hlen; lia|].
    assert (Hp : In p (p :: subdirs)) by by left.
    rewrite <- Hfilter in Hp. apply List.filter_In in Hp as [Hin Htest].
    apply list_elem_of_In, list_elem_of_fmap in Hin as (n & -> & Hn).
    exists n. split; [done|].
    destruct (isSubdirectory _ _ _ _) as [b|m]; [by subst b | done].
  - intros (n & Hn & Hsub).
    assert (Hin : In (Path.join directoryPath n)
                    (List.filter
                       (λ filePath,
                          match isSubdirectory shouldIgnore options disk filePath with
                          | Ok b => b
                          | Throw _ => false
                          end) (Path.join directoryPath <$> names))).
    { apply List.filter_In. split; [|by rewrite Hsub].
      apply list_elem_of_In, list_elem_of_fmap. by exists n. }
    destruct (List.filter _ _); [done | cbn; lia].
Qed.

(** X8. One entry of a directory on which [statSync] throws (a dangling
    link, say) empties three of the crawler's listings of that directory:
    [getCodeFiles], [getSubdirectoryDocs] and
    [getSingleFileSubdirectories] return the empty list, whatever else the
    directory holds, while [hasSubdirectories], which catches the
    exception per entry, still answers from the other entries. With no
    code file found, [shouldDocument] declines the directory. *)
Theorem unreadable_entry_empties_listings (directoryPath name m : string)
    (names : list string) :
  readdirSync disk directoryPath = Some names →
  name ∈ names →
  statSync disk (Path.join directoryPath name) = Throw m →
  getCodeFiles config shouldIgnore options disk directoryPath = []
  ∧ getSubdirectoryDocs config shouldIgnore options disk directoryPath = []
  ∧ getSingleFileSubdirectories config shouldIgnore options disk directoryPath = []
  ∧ (hasSubdirectories shouldIgnore options disk directoryPath = true
     ↔ ∃ n, n ∈ names
            ∧ isSubdirectory shouldIgnore options disk (Path.join directoryPath n)
              = Ok true)
  ∧ ∀ hasSub,
      shouldDocument config directoryPath
        (getCodeFiles config shouldIgnore options disk directoryPath) hasSub = false.
Proof.
  intros Hread Hname Hstat.
  assert (Hcode : ∃ m', filterR (isCodeFile config shouldIgnore options disk directoryPath)
                          names = Throw m').
  { apply (filterR_throws _ _ name m); [done|]. unfold isCodeFile. by rewrite Hstat. }
  assert (Hsub : ∃ m', filterR (isSubdirectory shouldIgnore options disk)
                         (Path.join directoryPath <$> names) = Throw m').
  { apply (filterR_throws _ _ (Path.join directoryPath name) m).
    - by apply list_elem_of_fmap_2.
    - unfold isSubdirectory. by rewrite Hstat. }
  destruct Hcode as [m1 Hcode], Hsub as [m2 Hsub].
  unfold getCodeFiles, getSubdirectoryDocs, getSingleFileSubdirectories.
  rewrite Hread, Hcode, Hsub.
  split; [done|]. split; [done|]. split; [done|]. split.
  - by apply hasSubdirectories_spec.
  - intros hasSub. by destruct hasSub.
Qed.

(** X9. Every path [getCodeFiles] returns is the path of a listed entry
    that is not a directory, is not ignored and, unless hidden files are
    included, does not begin with a dot; the paths come in the order of
    the listing; and the analyzer reads the same extension off the path
    that the crawler read off the name, so that, markdown not being an
    allowed extension, the analyzer takes every one of them for a
    candidate. *)
Theorem getCodeFiles_are_candidates (directoryPath : string) (names : list string) :
  readdirSync disk directoryPath = Some names →
  (∀ n, n ∈ names → Path.noslash n = true ∧ n ≠ "") →
  let files := getCodeFiles config shouldIgnore options disk directoryPath in
  files `sublist_of` (Path.join directoryPath <$> names)
  ∧ (∀ p, p ∈ files →
       ∃ n stats,
         n ∈ names ∧ p = Path.join directoryPath n
         ∧ statSync disk p = Ok stats ∧ st_isDirectory stats = false
         ∧ (respectGitignore options = true → shouldIgnore p = false)
         ∧ (includeHidden options = false → Path.startsWithDot n = false)
         ∧ includes (codeExtensions (fileProcessing config)) (lowerExt p) = true)
  ∧ (includes (codeExtensions (fileProcessing config)) ".md" = false →
     List.filter (isCandidate config) files = files).
Proof.
  intros Hread Hnames files.
  assert (Hfacts : ∀ p, p ∈ files →
       ∃ n stats,
         n ∈ names ∧ p = Path.join directoryPath n
         ∧ statSync disk p = Ok stats ∧ st_isDirectory stats = false
         ∧ (respectGitignore options = true → shouldIgnore p = false)
         ∧ (includeHidden options = false → Path.startsWithDot n = false)
         ∧ includes (codeExtensions (fileProcessing config)) (lowerExt p) = true).
  { subst files. unfold getCodeFiles. rewrite Hread.
    destruct (filterR _ names) as [kept|m'] eqn:Hfilter; [|by intros p ?%elem_of_nil].
    apply filterR_Ok in Hfilter as [_ Hiff].
    intros p (n & -> & Hn)%list_elem_of_fmap. apply Hiff in Hn as [Hn Htest].
    unfold isCodeFile in Htest.
    destruct (statSync disk (Path.join directoryPath n)) as [stats|m'] eqn:Hstat; [|done].
    exists n, stats.
    destruct (st_isDirectory stats); [done|].
    destruct (respectGitignore options && shouldIgnore _) eqn:Hign; [done|].
    destruct (negb (includeHidden options) && Path.startsWithDot n) eqn:Hhid; [done|].
    injection Htest as Hext. destruct (Hnames n Hn) as [Hns Hne].
    repeat split; try done.
    - intros Hresp. rewrite Hresp in Hign. done.
    - intros Hinc. rewrite Hinc in Hhid. done.
    - unfold lowerExt. by rewrite extname_join. }
  split; [|split; [done|]].
  - subst files. unfold getCodeFiles. rewrite Hread.
    destruct (filterR _ names) as [kept|m'] eqn:Hfilter; [|apply sublist_nil_l].
    apply filterR_Ok in Hfilter as [Hsub _]. by apply fmap_sublist.
  - intros Hmd. apply filter_all. intros p Hp.
    destruct (Hfacts p Hp) as (n & stats & _ & _ & _ & _ & _ & _ & Hext).
    unfold isCandidate. rewrite Hext, andb_true_r. apply negb_true_iff.
    unfold isMarkdown. apply String.eqb_neq. intros Heq. rewrite Heq in Hext. congruence.
Qed.

(** X10. What a parent collects from its subdirectories: each item of
    [getSubdirectoryDocs] stands for a listed subdirectory that is not
    ignored and carries the content of the file named
    [documentation.outputFilename] in it; each item of
    [getSingleFileSubdirectories] stands for a listed subdirectory that is
    not ignored and has exactly one code file, whose content is readable,
    within the per-file limit and not empty; and either list has at most
    one item per listed entry, in the order of the listing. *)
Theorem child_content_sound (directoryPath : string) (names : list string) :
  readdirSync disk directoryPath = Some names →
  let entries := Path.join directoryPath <$> names in
  let docs := getSubdirectoryDocs config shouldIgnore options disk directoryPath in
  let single := getSingleFileSubdirectories config shouldIgnore options disk directoryPath in
  cc_path <$> docs `sublist_of` entries
  ∧ cc_path <$> single `sublist_of` entries
  ∧ (∀ item, item ∈ docs →
       isSubdirectory shouldIgnore options disk (cc_path item) = Ok true
       ∧ readFile disk
           (Path.join (cc_path item) (doc_outputFilename (documentation config)))
         = Ok (cc_content item))
  ∧ (∀ item, item ∈ single →
       isSubdirectory shouldIgnore options disk (cc_path item) = Ok true
       ∧ ∃ file text,
           getCodeFiles config shouldIgnore options disk (cc_path item) = [file]
           ∧ readFileContent config disk file = Some text ∧ text ≠ ""
           ∧ cc_content item = singleFileText directoryPath (cc_path item) file text).
Proof.
  intros Hread entries docs single. subst docs single.
  unfold getSubdirectoryDocs, getSingleFileSubdirectories. rewrite Hread. fold entries.
  destruct (filterR _ entries) as [subdirs|m'] eqn:Hfilter.
  2:{ cbn. split; [apply sublist_nil_l|]. split; [apply sublist_nil_l|].
      split; by intros item ?%elem_of_nil. }
  apply filterR_Ok in Hfilter as [Hsub Hiff].
  assert (Hdocs : ∀ l, cc_path <$> (l ≫= subdirectoryDocOf config disk) `sublist_of` l).
  { induction l as [|x l IH]; [done|]. rewrite bind_cons, fmap_app.
    unfold subdirectoryDocOf at 1.
    destruct (getDocumentationFile _ _ _) as [docFile|]; [|by apply sublist_cons].
    destruct (readFile disk docFile); [by apply sublist_skip | by apply sublist_cons]. }
  assert (Hsingle : ∀ l,
    cc_path <$> (l ≫= singleFileOf config shouldIgnore options disk directoryPath)
      `sublist_of` l).
  { induction l as [|x l IH]; [done|]. rewrite bind_cons, fmap_app.
    unfold singleFileOf at 1.
    destruct (getCodeFiles _ _ _ _ _) as [|file [|? ?]]; try by apply sublist_cons.
    destruct (readFileContent _ _ _) as [text|]; [|by apply sublist_cons].
    destruct (truthy text); [by apply sublist_skip | by apply sublist_cons]. }
  split; [etrans; [apply Hdocs | done]|]. split; [etrans; [apply Hsingle | done]|]. split.
  - intros item (subdir & Hitem & Hin)%list_elem_of_bind.
    apply Hiff in Hin as [_ Htest]. unfold subdirectoryDocOf, getDocumentationFile in Hitem.
    destruct (existsSync _ _); [|by apply elem_of_nil in Hitem].
    destruct (readFile disk _) as [text|] eqn:Hdoc; [|by apply elem_of_nil in Hitem].
    apply list_elem_of_singleton in Hitem as ->. by cbn.
  - intros item (subdir & Hitem & Hin)%list_elem_of_bind.
    apply Hiff in Hin as [_ Htest]. unfold singleFileOf in Hitem.
    destruct (getCodeFiles _ _ _ _ _) as [|file [|? ?]] eqn:Hfiles;
      try by apply elem_of_nil in Hitem.
    destruct (readFileContent _ _ _) as [text|] eqn:Htext; [|by apply elem_of_nil in Hitem].
    destruct (truthy text) eqn:Htruthy; [|by apply elem_of_nil in Hitem].
    apply list_elem_of_singleton in Hitem as ->. cbn. split; [done|].
    exists file, text. rewrite Hfiles. repeat split; try done.
    intros ->. done.
Qed.

(** X11. [readFileContent] and the analyzer's [processFile] agree on
    every path: the crawler returns a content exactly when the analyzer
    adds the file, with that content, to the analyzed files; and it
    returns [null] exactly when the analyzer excludes the file. *)
Theorem readFileContent_agrees_with_processFile (filePath : string)
    (result : AnalysisResult) :
  let result' := processFile config disk filePath result in
  match readFileContent config disk filePath with
  | Some text =>
      analyzedFiles result'
      = analyzedFiles result
        ++ [ {| af_path := filePath; af_content := text;
                af_extension := lowerExt filePath |} ]
      ∧ excludedFiles result' = excludedFiles result
  | None =>
      analyzedFiles result' = analyzedFiles result
      ∧ ∃ reason,
          excludedFiles result'
          = excludedFiles result ++ [ {| ef_path := filePath; ef_reason := reason |} ]
  end.
Proof.
  unfold readFileContent, processFile, maxFileSize.
  destruct (statSync disk filePath) as [stats|m]; [|cbn; eauto].
  destruct (_ <? _); [cbn; eauto|].
  destruct (readFile disk filePath) as [text|m]; cbn; eauto.
Qed.

End Listings.

Lemma unreadable_entry_empties_listings_witness :
  let disk := disk_of "/proj" Fixtures.danglingProject in
  getCodeFiles defaultConfig (λ _, false) Fixtures.crawlerOptions disk "/proj" = []
  ∧ getSubdirectoryDocs defaultConfig (λ _, false) Fixtures.crawlerOptions disk "/proj" = []
  ∧ hasSubdirectories (λ _, false) Fixtures.crawlerOptions disk "/proj" = true.
Proof.
  destruct (unreadable_entry_empties_listings defaultConfig (λ _, false)
              Fixtures.crawlerOptions (disk_of "/proj" Fixtures.danglingProject)
              "/proj" "link" "ENOENT: no such file or directory, stat '/proj/link'"
              ["lib"; "one"; "m.ts"; "n.ts"; "link"]
              ltac:(by vm_compute) ltac:(by_compute) ltac:(by vm_compute))
    as (H1 & H2 & _ & _ & _).
  split; [exact H1|]. split; [exact H2 | by vm_compute].
Defined.

Lemma getCodeFiles_are_candidates_witness :
  let files :=
    getCodeFiles defaultConfig (λ _, false) Fixtures.crawlerOptions
      (disk_of "/proj" Fixtures.documentedProject) "/proj" in
  files = ["/proj/m.ts"; "/proj/n.ts"]
  ∧ List.filter (isCandidate defaultConfig) files = files.
Proof.
  destruct (getCodeFiles_are_candidates defaultConfig (λ _, false)
              Fixtures.crawlerOptions (disk_of "/proj" Fixtures.documentedProject)
              "/proj" ["lib"; "one"; "m.ts"; "n.ts"]
              ltac:(by vm_compute)
              ltac:(apply Forall_forall; by_compute))
    as (_ & _ & Hall).
  split; [by vm_compute | apply Hall; by vm_compute].
Defined.

Lemma child_content_sound_witness :
  let disk := disk_of "/proj" Fixtures.documentedProject in
  let docs := getSubdirectoryDocs defaultConfig (λ _, false) Fixtures.crawlerOptions
                disk "/proj" in
  let single := getSingleFileSubdirectories defaultConfig (λ _, false)
                  Fixtures.crawlerOptions disk "/proj" in
  docs = [ {| cc_path := "/proj/lib"; cc_content := "docs" |} ]
  ∧ cc_path <$> single = ["/proj/one"]
  ∧ cc_path <$> docs `sublist_of` ["/proj/lib"; "/proj/one"; "/proj/m.ts"; "/proj/n.ts"].
Proof.
  destruct (child_content_sound defaultConfig (λ _, false) Fixtures.crawlerOptions
              (disk_of "/proj" Fixtures.documentedProject) "/proj"
              ["lib"; "one"; "m.ts"; "n.ts"] ltac:(by vm_compute))
    as (Hdocs & _ & _ & _).
  split; [by vm_compute|]. split; [by vm_compute | exact Hdocs].
Defined.

(** ** The driver, on every project *)

Section DriverInvariants.

Variable this : ToolAggregator.

Lemma processDirectory_accounted (directoryPath : string) (r r' : AggregationResult)
    (disk disk' : Disk) (turns : nat) :
  accounted r turns →
  processDirectory this directoryPath (r, disk) = Ok (r', disk') →
  accounted r' (S turns) ∧ totalDirectories r' = totalDirectories r.
Proof.
  intros (Hsum & Hsub & Herr). unfold processDirectory, generateContent, accounted.
  destruct (c_getCodeFiles _ _ _) as [files|m]; cbn; [|done].
  destruct (c_hasSubdirectories _ _ _) as [hasSub|m]; cbn; [|done].
  destruct (a_shouldDocument _ _ _ _) as [document|m]; cbn; [|done].
  destruct document; cbn; [|intros [= <- <-]; split; [|done]; lia].
  destruct (c_getSubdirectoryDocs _ _ _) as [docs|m]; cbn; [|done].
  destruct (c_getSingleFileSubdirectories _ _ _) as [single|m]; cbn; [|done].
  destruct (a_analyzeFiles _ _ _ _) as [analysis|m]; cbn; [|done].
  destruct (limited analysis).
  { destruct (t_createFallbackContent _ _ _) as [text|m]; cbn; [|done].
    destruct (writeFile _ _ _ _) as [d1|m]; cbn; [|done].
    intros [= <- <-]. cbn. split; [|done]. lia. }
  destruct (t_generate _ _ _ _ _ _) as [[genResult d1]|m].
  - destruct (success genResult);
      destruct (bool_decide (skipped genResult = Some true));
      try destruct (isUpdate genResult);
      intros [= <- <-]; cbn; rewrite ?length_app; cbn; (split; [|done]); lia.
  - cbn. rewrite bool_decide_eq_false_2 by done. cbn.
    intros [= <- <-]; cbn; rewrite ?length_app; cbn; (split; [|done]); lia.
Qed.

Lemma processAll_accounted (directories : list string) :
  ∀ (r : AggregationResult) (disk : Disk) (turns : nat),
    accounted r turns →
    accounted (processAll this directories (r, disk)).1.1 (turns + length directories)
    ∧ totalDirectories (processAll this directories (r, disk)).1.1 = totalDirectories r.
Proof.
  induction directories as [|d directories IH]; intros r disk turns Hacc.
  - cbn. split; [|done]. destruct Hacc as (? & ? & ?). unfold accounted. lia.
  - cbn [processAll length].
    destruct (processDirectory this d (r, disk)) as [[r1 d1]|m] eqn:Hstep.
    + destruct (processDirectory_accounted d r r1 disk d1 turns Hacc Hstep) as [Hacc1 Htot].
      destruct (IH r1 d1 (S turns) Hacc1) as [Hacc2 Htot2].
      replace (turns + S (length directories))%nat
        with (S turns + length directories)%nat by lia.
      split; [done | congruence].
    + cbn. split; [|done]. destruct Hacc as (? & ? & ?). unfold accounted. lia.
Qed.

(** X12. Whatever the crawler, the analyzer and the tool do, the result
    of [run] is consistent: the successful, failed and fallback counts
    together do not exceed [totalDirectories]; the skipped and updated
    counts together do not exceed the successful and failed counts
    together; and the errors are one entry per failure, followed, when an
    exception ended the run, by one [Global error] entry under the root
    path. *)
Theorem run_counters_consistent (root : Node) :
  let r := (run this root).1 in
  (successfulGenerations r + failedGenerations r + fallbackFiles r
   ≤ totalDirectories r)%nat
  ∧ (skippedGenerations r + updatedGenerations r
     ≤ successfulGenerations r + failedGenerations r)%nat
  ∧ (length (errors r) = failedGenerations r
     ∨ ∃ entries m,
         errors r = entries ++ [ {| err_directory := rootPath this;
                                    err_error := "Global error: " +:+ m |} ]
         ∧ length entries = failedGenerations r).
Proof.
  cbv zeta. unfold run.
  destruct (c_createBottomUpOrder (crawler this) root) as [directories|m].
  2:{ cbn. split; [lia|]. split; [lia|]. right. by exists [], m. }
  pose proof (processAll_accounted directories (setTotal (length directories) initialResult)
                (disk_of (rootPath this) root) 0) as Hall.
  destruct Hall as [(Hsum & Hsub & Herr) Htot]; [unfold accounted; cbn; lia|].
  destruct (processAll this directories _) as [[r1 d1] [m|]]; cbn in *.
  - split; [lia|]. split; [lia|]. right. by exists (errors r1), m.
  - split; [lia|]. split; [lia|]. by left.
Qed.

End DriverInvariants.

Lemma root_listing (rootPath : string) (root : Node) :
  (∀ entries, root = NDir (Some entries) → entries = []) →
  readdirSync (disk_of rootPath root) rootPath = None
  ∨ readdirSync (disk_of rootPath root) rootPath = Some [].
Proof.
  intros Hroot. unfold readdirSync, disk_of.
  destruct root as [size text|[entries|]|]; cbn.
  - left. by rewrite lookup_insert_eq.
  - right. rewrite (Hroot entries eq_refl). cbn. by rewrite lookup_insert_eq.
  - left. by rewrite lookup_insert_eq.
  - by left.
Qed.

(** X13. When the root path is not a directory that can be listed (it
    does not exist, is a file, cannot be read) or is an empty directory,
    [run] reports one directory, generates nothing, writes nothing and
    records no error, whatever the tool. *)
Theorem run_on_unreadable_root (config : AutodocumentConfig) (shouldIgnore : string → bool)
    (rootDir : string) (tool : ToolObject) (updateExisting : bool) (root : Node) :
  (∀ entries, root = NDir (Some entries) → entries = []) →
  run (newToolAggregator config shouldIgnore rootDir tool updateExisting) root
  = (setTotal 1 initialResult, disk_of rootDir root).
Proof.
  intros Hroot. unfold run. cbn [crawler newToolAggregator DirectoryCrawler
                                 c_createBottomUpOrder rootPath].
  assert (Horder : createBottomUpOrder
                     (scan shouldIgnore {| respectGitignore := true; includeHidden := false |}
                        rootDir root) = [rootDir]).
  { assert (Hscan : ∃ name files leaf,
              scan shouldIgnore {| respectGitignore := true; includeHidden := false |}
                rootDir root
              = {| dir_path := rootDir; dir_name := name; subdirectories := [];
                   dir_files := files; isLeaf := leaf |}).
    { destruct root as [size text|[entries|]|]; try (by eexists _, _, _).
      rewrite (Hroot entries eq_refl). by eexists _, _, _. }
    destruct Hscan as (name & files & leaf & ->).
    rewrite createBottomUpOrder_postorder; [done|]. apply NoDup_singleton. }
  rewrite Horder. cbn [length processAll].
  rewrite (processDirectory_declined _ rootDir [] false); [done| | |].
  - cbn. f_equal. unfold getCodeFiles.
    by destruct (root_listing rootDir root Hroot) as [-> | ->].
  - cbn. f_equal. unfold hasSubdirectories.
    by destruct (root_listing rootDir root Hroot) as [-> | ->].
  - done.
Qed.

Lemma run_on_unreadable_root_witness :
  run (Fixtures.testPlanAggregator Fixtures.answering) (NFile 3 (Ok "abc"))
  = (setTotal 1 initialResult, disk_of "/proj" (NFile 3 (Ok "abc"))).
Proof.
  apply (run_on_unreadable_root defaultConfig (λ _, false) "/proj"
           (PromptTool (Fixtures.testPlanConfig true) testPlanWording Fixtures.answering)
           true (NFile 3 (Ok "abc"))).
  intros entries Heq. discriminate Heq.
Defined.

(** ** Texts *)

Lemma contains_here (needle after : string) : contains needle (needle +:+ after).
Proof. exists "", after. by rewrite append_nil. Qed.

Lemma contains_refl (needle : string) : contains needle needle.
Proof. exists "", "". by rewrite append_nil, append_empty_r. Qed.

Lemma contains_append_l (needle a b : string) : contains needle a → contains needle (a +:+ b).
Proof.
  intros (before & after & ->). exists before, (after +:+ b). by rewrite !append_assoc.
Qed.

Lemma contains_append_r (needle a b : string) : contains needle b → contains needle (a +:+ b).
Proof.
  intros (before & after & ->). exists (a +:+ before), after. by rewrite !append_assoc.
Qed.

Lemma contains_concatStrings (needle : string) (l : list string) :
  needle ∈ l → contains needle (concatStrings l).
Proof.
  induction l as [|x l IH]; [by intros ?%elem_of_nil|].
  intros [->|Hin]%elem_of_cons; cbn [concatStrings].
  - apply contains_here.
  - by apply contains_append_r, IH.
Qed.

Lemma contains_joinWith (sep needle : string) (l : list string) :
  needle ∈ l → contains needle (joinWith sep l).
Proof.
  induction l as [|x l IH]; [by intros ?%elem_of_nil|].
  intros Hin. cbn [joinWith]. destruct l as [|y l].
  - apply elem_of_cons in Hin as [->|?%elem_of_nil]; [|done]. apply contains_refl.
  - apply elem_of_cons in Hin as [->|Hin].
    + apply contains_here.
    + by apply contains_append_r, contains_append_r, IH.
Qed.

Lemma truthy_append (a b : string) : truthy a = true → truthy (a +:+ b) = true.
Proof. by destruct a. Qed.

Lemma truthy_joinWith (sep x : string) (l : list string) :
  truthy x = true → truthy (joinWith sep (x :: l)) = true.
Proof. intros Hx. cbn [joinWith]. destruct l; [done | by apply truthy_append]. Qed.

Lemma truthy_ne (a : string) : truthy a = true ↔ a ≠ "".
Proof. destruct a; cbn; split; done. Qed.

(** The user message leaves nothing out: it holds the block of every
    file, the block of every child content, and the existing content when
    there is one that is not empty. *)
Lemma userMessage_parts (files : list (string * string))
    (existingContent : option string) (childrenContent : list ChildContent) :
  let message := userMessage files existingContent childrenContent in
  (∀ file, file ∈ files → contains (fileBlock file) message)
  ∧ (∀ doc, doc ∈ childrenContent → contains (childBlock doc) message)
  ∧ (∀ existing, existingContent = Some existing → existing ≠ "" →
       contains ("```markdown" +:+ nl +:+ existing +:+ nl +:+ "```") message).
Proof.
  cbv zeta. unfold userMessage.
  assert (Hchildren : ∀ needle message,
            contains needle message → contains needle (addChildren childrenContent message)).
  { intros needle message H. unfold addChildren.
    destruct (truthy _); [by apply contains_append_l | done]. }
  assert (Hexisting : ∀ needle message,
            contains needle message → contains needle (addExisting existingContent message)).
  { intros needle message H. unfold addExisting.
    destruct existingContent as [existing|]; [|done].
    destruct (truthy existing); [by apply contains_append_l | done]. }
  split; [|split].
  - intros file Hfile. apply contains_append_l, Hexisting, Hchildren.
    unfold messageOpening.
    destruct files as [|f files]; [by apply elem_of_nil in Hfile|].
    cbn [length]. rewrite bool_decide_eq_false_2 by done. cbn [andb fmap list_fmap].
    rewrite truthy_joinWith by done.
    apply contains_append_r, contains_append_r, contains_append_r.
    apply contains_joinWith. by apply (list_elem_of_fmap_2 fileBlock) in Hfile.
  - intros doc Hdoc. apply contains_append_l, Hexisting. unfold addChildren.
    destruct childrenContent as [|c children]; [by apply elem_of_nil in Hdoc|].
    cbn [fmap list_fmap]. rewrite truthy_joinWith by done.
    do 6 apply contains_append_r.
    apply contains_joinWith. by apply (list_elem_of_fmap_2 childBlock) in Hdoc.
  - intros existing -> Hne. apply contains_append_l. unfold addExisting.
    apply truthy_ne in Hne. rewrite Hne.
    do 5 apply contains_append_r. apply contains_refl.
Qed.


(** ** The fallback file *)

Section FallbackFacts.

Variable config : AutodocumentConfig.
Variable disk : Disk.

(** When and why [analyzeFiles] sets [limited]. *)
Lemma analyzeFiles_limited_reason (directoryPath : string) (filePaths : list string) :
  let codeFiles := List.filter (isCandidate config) filePaths in
  let r := analyzeFiles config disk directoryPath filePaths in
  (ceiling config < Z.of_nat (length codeFiles) → limited r = true)
  ∧ (limited r = false → limitReason r = None)
  ∧ (limited r = true → ∃ reason, limitReason r = Some reason ∧ truthy reason = true).
Proof.
  intros codeFiles r. subst r. unfold analyzeFiles. rewrite filterCodeFiles_spec.
  fold codeFiles. fold (ceiling config).
  destruct (ceiling config <? Z.of_nat (length codeFiles)) eqn:Hcount.
  - rewrite countLimitedLoop_spec. cbn. split; [done|]. split; [done|].
    intros _. by eexists.
  - apply Z.ltb_ge in Hcount.
    set (r0 := {| analyzedFiles := analyzedFiles emptyResult;
                  excludedFiles := excludedFiles emptyResult ++ _;
                  limited := limited emptyResult; totalSize := totalSize emptyResult;
                  limitReason := limitReason emptyResult |}).
    destruct (sizeLimitedLoop_cases config disk codeFiles r0) as
      [[Heq _] | (pre & f & post & _ & _ & _ & Heq)];
      rewrite Heq; rewrite !processFiles_spec; cbn.
    + split; [lia|]. split; [done|]. done.
    + split; [done|]. split; [done|]. intros _. by eexists.
Qed.

(** X18. [limited] is set exactly when a limit reason is given, and the
    reason is never empty; so the fallback text made from a limited
    analysis always has its [Reason] section with that reason, and, for
    every analysis, a line for each analyzed file and a line with the
    reason for each excluded file. *)
Theorem fallback_content_complete (toolConfig : ToolConfig) (wording : Wording)
    (directoryPath : string) (filePaths : list string) :
  let r := analyzeFiles config disk directoryPath filePaths in
  let text := createFallbackContent toolConfig wording directoryPath r in
  (limited r = true ↔ limitReason r ≠ None)
  ∧ (limited r = true →
     ∃ reason, limitReason r = Some reason ∧ reason ≠ ""
               ∧ contains ("## Reason" +:+ nl +:+ nl +:+ reason +:+ nl +:+ nl) text)
  ∧ (∀ a, a ∈ analyzedFiles r → contains (bullet directoryPath (af_path a) +:+ nl) text)
  ∧ (∀ e, e ∈ excludedFiles r →
       contains (bullet directoryPath (ef_path e) +:+ ": " +:+ ef_reason e +:+ nl) text).
Proof.
  intros r text.
  destruct (analyzeFiles_limited_reason directoryPath filePaths) as (_ & Hnone & Hsome).
  fold r in Hnone, Hsome. subst text. unfold createFallbackContent.
  split; [|split; [|split]].
  - destruct (limited r).
    + destruct (Hsome eq_refl) as (reason & -> & _). done.
    + rewrite (Hnone eq_refl). split; [done | by intros []].
  - intros Hlim. destruct (Hsome Hlim) as (reason & Hreason & Htruthy).
    exists reason. split; [done|]. split; [by apply truthy_ne|].
    rewrite Hlim, Hreason, Htruthy.
    rewrite !append_assoc. do 6 apply contains_append_r.
    match goal with
    | |- contains _ (_ +:+ _ +:+ _ +:+ _ +:+ _ +:+ _ +:+ ?rest) => exists "", rest
    end.
    by rewrite append_nil, !append_assoc.
  - intros a Ha.
    rewrite bool_decide_eq_true_2
      by (destruct (analyzedFiles r); [by apply elem_of_nil in Ha | cbn; lia]).
    apply contains_append_r, contains_append_r, contains_append_l.
    do 3 apply contains_append_r. apply contains_append_l.
    apply contains_concatStrings.
    by apply (list_elem_of_fmap_2 (λ f, bullet directoryPath (af_path f) +:+ nl)) in Ha.
  - intros e He.
    rewrite (bool_decide_eq_true_2 (0 < length (excludedFiles r))%nat)
      by (destruct (excludedFiles r); [by apply elem_of_nil in He | cbn; lia]).
    apply contains_append_r, contains_append_r, contains_append_r, contains_append_l.
    do 3 apply contains_append_r. apply contains_append_l.
    apply contains_concatStrings.
    by apply (list_elem_of_fmap_2
                (λ f, bullet directoryPath (ef_path f) +:+ ": " +:+ ef_reason f +:+ nl))
      in He.
Qed.

End FallbackFacts.

(** ** Writing and generating *)

Lemma join_not_dir (dir name : string) : Path.join dir name ≠ dir.
Proof.
  intros H. apply (path_not_below_itself dir name ""). by rewrite append_empty_r.
Qed.


(** A write that succeeds: the file can be read back, it is listed in
    its directory, and nothing else changes. *)
(** A write succeeds exactly when the file may be written, and the disk
    it leaves is the old one with the file replaced or created and listed
    in its directory. *)
Lemma writeFile_inv (disk : Disk) (dir name text : string) :
  match writeFile disk dir name text with
  | Ok disk' =>
      canWrite disk dir name = true
      ∧ ∃ dsize listing dwritable,
          disk !! dir = Some (EDir dsize listing dwritable)
          ∧ disk'
            = <[Path.join dir name := EFile (Z.of_nat (String.length text)) (Ok text) true]>
                (<[dir := EDir dsize
                            ((λ names, if bool_decide (name ∈ names) then names
                                       else names ++ [name]) <$> listing)
                            dwritable]> disk)
  | Throw _ => canWrite disk dir name = false
  end.
Proof.
  unfold writeFile, canWrite.
  destruct (disk !! dir) as [[fsize ftext fwritable|dsize listing dwritable]|] eqn:Hdir;
    try done.
  destruct (disk !! Path.join dir name) as [[fsize ftext [|]|fsize flisting fw]|];
    try done; try (split; [done | by eexists _, _, _]).
  destruct dwritable; [|done]. split; [done | by eexists _, _, _].
Qed.

Lemma writeFile_Ok (disk disk' : Disk) (dir name text : string) :
  writeFile disk dir name text = Ok disk' →
  readFile disk' (Path.join dir name) = Ok text
  ∧ existsSync disk' (Path.join dir name) = true
  ∧ (∀ p, p ≠ Path.join dir name → p ≠ dir → disk' !! p = disk !! p)
  ∧ (∀ names, readdirSync disk dir = Some names →
       ∃ names', readdirSync disk' dir = Some names' ∧ name ∈ names'
                 ∧ ∀ n, n ∈ names → n ∈ names').
Proof.
  intros Hwrite. pose proof (writeFile_inv disk dir name text) as Hinv.
  rewrite Hwrite in Hinv. destruct Hinv as (_ & dsize & listing & dwritable & Hdir & ->).
  pose proof (join_not_dir dir name) as Hne.
  unfold readFile, existsSync, readdirSync.
  rewrite lookup_insert_eq. split; [done|]. split.
  { apply bool_decide_eq_true. by eexists. }
  split.
  { intros p Hp Hd. by rewrite !lookup_insert_ne. }
  intros names. rewrite Hdir. intros ->.
  rewrite lookup_insert_ne by done. rewrite lookup_insert_eq. cbn.
  eexists. split; [done|]. destruct (bool_decide (name ∈ names)) eqn:Hin.
  - split; [by apply bool_decide_eq_true in Hin | done].
  - split; [apply elem_of_app; right; by left|]. intros n Hn. apply elem_of_app. by left.
Qed.

Section GenerateFacts.

Variable config : ToolConfig.
Variable wording : Wording.
Variable llm : LlmRequest → DocumentationResponse.

(** The three ways [generate] ends. *)
Lemma generate_cases (disk : Disk) (directoryPath : string) (analysisResult : AnalysisResult)
    (isTopLevel : bool) (childrenContent : list ChildContent) :
  let filePath := Path.join directoryPath (outputFilename config) in
  let existing := readExistingFile disk filePath in
  let res := (generate config wording llm disk directoryPath analysisResult isTopLevel
                childrenContent).1 in
  let disk' := (generate config wording llm disk directoryPath analysisResult isTopLevel
                  childrenContent).2 in
  (∃ text, existing = Some text ∧ updateExisting config = false
           ∧ res = skippedOutcome config directoryPath text ∧ disk' = disk)
  ∨ ((existing = None ∨ updateExisting config = true)
     ∧ (∃ m, res = failure filePath m (bool_decide (existing ≠ None))) ∧ disk' = disk)
  ∨ ((existing = None ∨ updateExisting config = true)
     ∧ writeFile disk directoryPath (outputFilename config) (content res) = Ok disk'
     ∧ res = {| outputPath := filePath; success := true; content := content res;
                error := None; isUpdate := bool_decide (existing ≠ None);
                skipped := None |}).
Proof.
  cbv zeta. unfold generate.
  destruct (readExistingFile disk _) as [text|] eqn:Hex.
  - rewrite bool_decide_eq_true_2 by done. destruct (updateExisting config) eqn:Hpolicy.
    + cbn [andb negb]. right.
      destruct (negb (rs_successful _)).
      * left. cbn. split; [by right|]. split; [by eexists | done].
      * destruct (writeFile _ _ _ _) as [d1|m] eqn:Hwrite.
        -- right. cbn. split; [by right|]. by split.
        -- left. cbn. split; [by right|]. split; [by eexists | done].
    + cbn [andb negb]. left. exists text. by cbn.
  - rewrite bool_decide_eq_false_2 by (by intros ?). cbn [andb]. right.
    destruct (negb (rs_successful _)).
    + left. cbn. split; [by left|]. split; [by eexists | done].
    + destruct (writeFile _ _ _ _) as [d1|m] eqn:Hwrite.
      * right. cbn. split; [by left|]. by split.
      * left. cbn. split; [by left|]. split; [by eexists | done].
Qed.


End GenerateFacts.



(** ** Skips and fallbacks in the driver *)

Section PromptToolDriver.

Variable rootDir : string.
Variable crawlerObject : CrawlerObject.
Variable analyzerObject : AnalyzerObject.
Variable config : ToolConfig.
Variable wording : Wording.
Variable llm : LlmRequest → DocumentationResponse.

Lemma processDirectory_skips (flag : bool) (directoryPath : string)
    (r r' : AggregationResult) (disk disk' : Disk) :
  processDirectory
    {| rootPath := rootDir; agg_updateExisting := flag; crawler := crawlerObject;
       analyzer := analyzerObject; tool := PromptTool config wording llm |}
    directoryPath (r, disk) = Ok (r', disk') →
  (skippedGenerations r ≤ successfulGenerations r)%nat →
  (skippedGenerations r' ≤ successfulGenerations r')%nat
  ∧ (updateExisting config = true → skippedGenerations r' = skippedGenerations r).
Proof.
  unfold processDirectory, generateContent. cbn [crawler analyzer tool rootPath].
  destruct (c_getCodeFiles _ _ _) as [files|m]; cbn; [|done].
  destruct (c_hasSubdirectories _ _ _) as [hasSub|m]; cbn; [|done].
  destruct (a_shouldDocument _ _ _ _) as [document|m]; cbn; [|done].
  destruct document; cbn; [|by intros [= <- <-]].
  destruct (c_getSubdirectoryDocs _ _ _) as [docs|m]; cbn; [|done].
  destruct (c_getSingleFileSubdirectories _ _ _) as [single|m]; cbn; [|done].
  destruct (a_analyzeFiles _ _ _ _) as [analysis|m]; cbn; [|done].
  destruct (limited analysis).
  { destruct (writeFile _ _ _ _) as [d1|m]; cbn; [|done]. by intros [= <- <-]. }
  destruct (generate_cases config wording llm disk directoryPath analysis
              (bool_decide (directoryPath = rootDir)) (docs ++ single))
    as [(text & _ & Hpolicy & Hres & _)
       | [(_ & (m & Hres) & _) | (_ & _ & Hres)]];
    destruct (generate _ _ _ _ _ _ _ _) as [genResult d1]; cbn in Hres; rewrite Hres; cbn.
  - intros [= <- <-] Hle. cbn. split; [lia | congruence].
  - destruct (bool_decide _); intros [= <- <-] Hle; cbn; split; done || lia.
  - destruct (bool_decide _); intros [= <- <-] Hle; cbn; split; done || lia.
Qed.

Lemma processAll_skips (flag : bool) (directories : list string) :
  ∀ (r : AggregationResult) (disk : Disk),
    (skippedGenerations r ≤ successfulGenerations r)%nat →
    let r' :=
      (processAll
         {| rootPath := rootDir; agg_updateExisting := flag; crawler := crawlerObject;
            analyzer := analyzerObject; tool := PromptTool config wording llm |}
         directories (r, disk)).1.1 in
    (skippedGenerations r' ≤ successfulGenerations r')%nat
    ∧ (updateExisting config = true → skippedGenerations r' = skippedGenerations r).
Proof.
  induction directories as [|d directories IH]; intros r disk Hle; [done|].
  cbn [processAll].
  destruct (processDirectory _ d (r, disk)) as [[r1 d1]|m] eqn:Hstep; [|done].
  destruct (processDirectory_skips flag d r r1 disk d1 Hstep Hle) as [Hle1 Hsame].
  destruct (IH r1 d1 Hle1) as [Hle2 Hsame2]. split; [done|].
  intros Hpolicy. rewrite Hsame2, Hsame; done.
Qed.

(** X16. With one of the repository's tools, whatever the crawler and the
    analyzer: no more generations are counted as skipped than as
    successful; when the tool's [updateExisting] is true none is skipped;
    and the flag the aggregator itself was constructed with has no effect
    on the run. *)
Theorem run_skips_only_without_update (flag : bool) (root : Node) :
  let this :=
    {| rootPath := rootDir; agg_updateExisting := flag; crawler := crawlerObject;
       analyzer := analyzerObject; tool := PromptTool config wording llm |} in
  let other :=
    {| rootPath := rootDir; agg_updateExisting := negb flag; crawler := crawlerObject;
       analyzer := analyzerObject; tool := PromptTool config wording llm |} in
  let r := (run this root).1 in
  (skippedGenerations r ≤ successfulGenerations r)%nat
  ∧ (updateExisting config = true → skippedGenerations r = 0%nat)
  ∧ run other root = run this root.
Proof.
  intros this other r. split; [|split]; [| |reflexivity]; subst r; unfold run.
  - destruct (c_createBottomUpOrder _ _) as [directories|m]; [|cbn; lia].
    pose proof (processAll_skips flag directories
                  (setTotal (length directories) initialResult)
                  (disk_of (rootPath this) root) ltac:(cbn; lia)) as [Hle _].
    fold this in Hle.
    destruct (processAll this directories _) as [[r1 d1] [m|]]; by cbn in *.
  - intros Hpolicy. destruct (c_createBottomUpOrder _ _) as [directories|m]; [|done].
    pose proof (processAll_skips flag directories
                  (setTotal (length directories) initialResult)
                  (disk_of (rootPath this) root) ltac:(cbn; lia)) as [_ Hzero].
    fold this in Hzero. specialize (Hzero Hpolicy).
    destruct (processAll this directories _) as [[r1 d1] [m|]]; by cbn in *.
Qed.

End PromptToolDriver.

Section FallbackTurn.

Variable this : ToolAggregator.


End FallbackTurn.



(** ** From a subdirectory's artifact to its parent *)




Section ParentAndChild.

Variable config : AutodocumentConfig.
Variable shouldIgnore : string → bool.
Variable options : CrawlerOptions.



End ParentAndChild.


(** ** What a run leaves on the disk *)

Lemma writeFile_keeps (disk disk' : Disk) (dir name text p : string) :
  writeFile disk dir name text = Ok disk' → is_Some (disk !! p) → is_Some (disk' !! p).
Proof.
  intros Hwrite Hp. pose proof (writeFile_inv disk dir name text) as Hinv.
  rewrite Hwrite in Hinv. destruct Hinv as (_ & dsize & listing & dwritable & Hdir & ->).
  destruct (decide (p = Path.join dir name)) as [->|Hne].
  - rewrite lookup_insert_eq. by eexists.
  - rewrite lookup_insert_ne by done. destruct (decide (p = dir)) as [->|Hne'].
    + rewrite lookup_insert_eq. by eexists.
    + by rewrite lookup_insert_ne.
Qed.

Section PromptToolDisk.

Variable rootDir : string.
Variable crawlerObject : CrawlerObject.
Variable analyzerObject : AnalyzerObject.
Variable config : ToolConfig.
Variable wording : Wording.
Variable llm : LlmRequest → DocumentationResponse.

Lemma processDirectory_writes (flag : bool) (directoryPath : string)
    (r r' : AggregationResult) (disk disk' : Disk) :
  processDirectory
    {| rootPath := rootDir; agg_updateExisting := flag; crawler := crawlerObject;
       analyzer := analyzerObject; tool := PromptTool config wording llm |}
    directoryPath (r, disk) = Ok (r', disk') →
  (∀ p, is_Some (disk !! p) → is_Some (disk' !! p))
  ∧ (∀ p, p ≠ directoryPath →
          p ≠ Path.join directoryPath (outputFilename config) →
          p ≠ Path.join directoryPath (fallbackFilename config) →
          disk' !! p = disk !! p).
Proof.
  unfold processDirectory, generateContent. cbn [crawler analyzer tool rootPath].
  destruct (c_getCodeFiles _ _ _) as [files|m]; cbn; [|done].
  destruct (c_hasSubdirectories _ _ _) as [hasSub|m]; cbn; [|done].
  destruct (a_shouldDocument _ _ _ _) as [document|m]; cbn; [|done].
  destruct document; cbn; [|by intros [= <- <-]].
  destruct (c_getSubdirectoryDocs _ _ _) as [docs|m]; cbn; [|done].
  destruct (c_getSingleFileSubdirectories _ _ _) as [single|m]; cbn; [|done].
  destruct (a_analyzeFiles _ _ _ _) as [analysis|m]; cbn; [|done].
  destruct (limited analysis).
  { destruct (writeFile _ _ _ _) as [d1|m] eqn:Hwrite; cbn; [|done]. intros [= <- <-].
    split.
    - intros p. by apply (writeFile_keeps _ _ _ _ _ _ Hwrite).
    - apply writeFile_Ok in Hwrite as (_ & _ & Hother & _).
      intros p Hd _ Hfb. by apply Hother. }
  destruct (generate_cases config wording llm disk directoryPath analysis
              (bool_decide (directoryPath = rootDir)) (docs ++ single))
    as [(text & _ & _ & Hres & Hdisk)
       | [(_ & (m & Hres) & Hdisk) | (_ & Hwrite & Hres)]];
    destruct (generate _ _ _ _ _ _ _ _) as [genResult d1]; cbn in Hres;
    cbn in Hdisk || cbn in Hwrite.
  - subst d1. rewrite Hres. cbn. by intros [= <- <-].
  - subst d1. rewrite Hres. cbn. by destruct (bool_decide _); intros [= <- <-].
  - assert (Hd1 : disk' = d1 → (∀ p, is_Some (disk !! p) → is_Some (disk' !! p))
                  ∧ (∀ p, p ≠ directoryPath →
                          p ≠ Path.join directoryPath (outputFilename config) →
                          p ≠ Path.join directoryPath (fallbackFilename config) →
                          disk' !! p = disk !! p)).
    { intros ->. split.
      - intros p. by apply (writeFile_keeps _ _ _ _ _ _ Hwrite).
      - apply writeFile_Ok in Hwrite as (_ & _ & Hother & _).
        intros p Hd Hout _. by apply Hother. }
    rewrite Hres. cbn.
    destruct (bool_decide _); intros [= <- <-]; by apply Hd1.
Qed.

Lemma processAll_writes (flag : bool) (directories : list string) :
  ∀ (r : AggregationResult) (disk : Disk),
    let disk' :=
      (processAll
         {| rootPath := rootDir; agg_updateExisting := flag; crawler := crawlerObject;
            analyzer := analyzerObject; tool := PromptTool config wording llm |}
         directories (r, disk)).1.2 in
    (∀ p, is_Some (disk !! p) → is_Some (disk' !! p))
    ∧ (∀ p, (∀ d, d ∈ directories →
                  p ≠ d ∧ p ≠ Path.join d (outputFilename config)
                  ∧ p ≠ Path.join d (fallbackFilename config)) →
            disk' !! p = disk !! p).
Proof.
  induction directories as [|d directories IH]; intros r disk; [done|].
  cbn [processAll].
  destruct (processDirectory _ d (r, disk)) as [[r1 d1]|m] eqn:Hstep; [|done].
  destruct (processDirectory_writes flag d r r1 disk d1 Hstep) as [Hkeep Hother].
  destruct (IH r1 d1) as [Hkeep' Hother']. split.
  - intros p Hp. by apply Hkeep', Hkeep.
  - intros p Hp. rewrite Hother'; [|intros d' Hd'; apply Hp; by right].
    destruct (Hp d ltac:(by left)) as (? & ? & ?). by apply Hother.
Qed.

(** X21. With one of the repository's tools, whatever the crawler and the
    analyzer: a run removes no path from the disk, and it leaves untouched
    every path that is not a directory of the processing order nor the
    output file or the fallback file of one; when the order cannot be
    made, the disk stays as it was. *)
Theorem run_writes_only_artifacts (flag : bool) (root : Node) :
  let this :=
    {| rootPath := rootDir; agg_updateExisting := flag; crawler := crawlerObject;
       analyzer := analyzerObject; tool := PromptTool config wording llm |} in
  let before := disk_of rootDir root in
  let after := (run this root).2 in
  (∀ p, is_Some (before !! p) → is_Some (after !! p))
  ∧ match c_createBottomUpOrder crawlerObject root with
    | Ok directories =>
        ∀ p, (∀ d, d ∈ directories →
                   p ≠ d ∧ p ≠ Path.join d (outputFilename config)
                   ∧ p ≠ Path.join d (fallbackFilename config)) →
             after !! p = before !! p
    | Throw _ => after = before
    end.
Proof.
  intros this before after. subst after. unfold run. cbn [crawler rootPath this].
  destruct (c_createBottomUpOrder crawlerObject root) as [directories|m]; [|done].
  pose proof (processAll_writes flag directories
                (setTotal (length directories) initialResult) before) as [Hkeep Hother].
  fold this in Hkeep, Hother.
  destruct (processAll this directories _) as [[r1 d1] [m|]]; by cbn in *.
Qed.

End PromptToolDisk.

(** ** The order as a traversal *)

(** X22. On the tree of a well-formed file system the bottom-up order is
    the post-order traversal of the tree: the directories below each
    subdirectory, subdirectory by subdirectory in the order of the
    listing, and then the directory itself. The set of processed paths
    never suppresses an entry there. *)
Theorem createBottomUpOrder_is_postorder (shouldIgnore : string → bool)
    (options : CrawlerOptions) (rootDir : string) (root : Node) :
  wf_node root = true →
  let dirTree := scan shouldIgnore options rootDir root in
  createBottomUpOrder dirTree = postorder dirTree
  ∧ ∀ D, D ∈ subtrees dirTree →
         ∃ before after,
           createBottomUpOrder dirTree
           = before ++ (subdirectories D ≫= postorder) ++ [dir_path D] ++ after.
Proof.
  intros Hwf dirTree.
  assert (Horder : createBottomUpOrder dirTree = postorder dirTree)
    by (apply createBottomUpOrder_postorder; by apply scan_NoDup).
  split; [done|]. intros D HD. rewrite Horder.
  destruct (postorder_subtree dirTree D HD) as (a & b & ->).
  exists a, b. by rewrite postorder_unfold, <- !app_assoc.
Qed.

Lemma createBottomUpOrder_is_postorder_witness :
  let dirTree :=
    scan (λ _, false) Fixtures.crawlerOptions "/proj" Fixtures.documentedProject in
  createBottomUpOrder dirTree = postorder dirTree
  ∧ postorder dirTree = ["/proj/lib"; "/proj/one"; "/proj"].
Proof.
  destruct (createBottomUpOrder_is_postorder (λ _, false) Fixtures.crawlerOptions "/proj"
              Fixtures.documentedProject ltac:(by vm_compute)) as [Horder _].
  split; [exact Horder | by vm_compute].
Defined.

(** ** The tree and the disk *)

Lemma flatten_unfold (p : string) (es : list (string * Node)) :
  flatten p (NDir (Some es))
  = (p, EDir 4096 (Some (fst <$> es)) true)
    :: (es ≫= λ e, flatten (Path.join p e.1) e.2).
Proof.
  cbn [flatten]. f_equal.
  induction es as [|[e c] es IH]; [done|]. rewrite bind_cons. cbn [fst snd]. by rewrite IH.
Qed.

Lemma flatten_keys (n : Node) :
  ∀ q k v, (k, v) ∈ flatten q n → ∃ t, tail t ∧ k = q +:+ t.
Proof.
  induction n as [size content| | |es IH] using Node_ind; intros q k v Hin.
  - apply list_elem_of_singleton in Hin as [= -> _]. exists "".
    split; [by left | by rewrite append_empty_r].
  - apply list_elem_of_singleton in Hin as [= -> _]. exists "".
    split; [by left | by rewrite append_empty_r].
  - by apply elem_of_nil in Hin.
  - rewrite flatten_unfold in Hin. apply elem_of_cons in Hin as [[= -> _]|Hin].
    { exists "". split; [by left | by rewrite append_empty_r]. }
    apply list_elem_of_bind in Hin as ([e c] & Hin & He).
    rewrite Forall_forall in IH. destruct (IH _ He _ _ _ Hin) as (t & Ht & ->).
    exists ("/" +:+ e +:+ t). split; [right; by eexists|].
    unfold Path.join. cbn [fst]. by rewrite !append_assoc.
Qed.

Lemma entries_keys (q : string) (l : list (string * Node)) (k : string) :
  k ∈ (l ≫= λ e, flatten (Path.join q e.1) e.2).*1 →
  ∃ e t, e ∈ l.*1 ∧ tail t ∧ k = Path.join q e +:+ t.
Proof.
  intros ([k' v] & -> & Hin)%list_elem_of_fmap.
  apply list_elem_of_bind in Hin as ([e c] & Hin & He).
  destruct (flatten_keys _ _ _ _ Hin) as (t & Ht & Hk).
  exists e, t. split; [by apply (list_elem_of_fmap_2 fst) in He|]. by split.
Qed.

Lemma lookup_flatten_entry (q e t : string) (child : Node) (es : list (string * Node)) :
  NoDup es.*1 → Forall (λ x, Path.noslash x.1 = true) es →
  (e, child) ∈ es → tail t →
  (list_to_map (flatten q (NDir (Some es))) : Disk) !! (Path.join q e +:+ t)
  = (list_to_map (flatten (Path.join q e) child) : Disk) !! (Path.join q e +:+ t).
Proof.
  intros Hnd Hns Hin Ht. rewrite flatten_unfold, list_to_map_cons.
  rewrite lookup_insert_ne by apply path_not_below_itself.
  assert (Hnoslash : ∀ x, x ∈ es.*1 → Path.noslash x = true).
  { intros x ([x' c] & -> & Hx)%list_elem_of_fmap. rewrite Forall_forall in Hns.
    by apply (Hns _ Hx). }
  apply list_elem_of_split in Hin as (l1 & l2 & ->).
  rewrite fmap_app, fmap_cons in Hnd, Hnoslash. cbn [fst] in Hnd, Hnoslash.
  apply NoDup_app in Hnd as (_ & Hdisj & Hnd2). apply NoDup_cons in Hnd2 as [Hnot2 _].
  rewrite bind_app, bind_cons, !list_to_map_app. cbn [fst snd].
  rewrite lookup_union_r.
  2:{ apply not_elem_of_list_to_map_1. intros (e' & t' & He' & Ht' & Heq)%entries_keys.
      assert (e = e').
      { apply (join_tail_inj q e e' t t'); try done; apply Hnoslash.
        - apply elem_of_app. right. by left.
        - apply elem_of_app. by left. }
      subst e'. apply (Hdisj e He'). by left. }
  apply lookup_union_l.
  apply not_elem_of_list_to_map_1. intros (e' & t' & He' & Ht' & Heq)%entries_keys.
  assert (e = e').
  { apply (join_tail_inj q e e' t t'); try done; apply Hnoslash.
    - apply elem_of_app. right. by left.
    - apply elem_of_app. right. by right. }
  by subst e'.
Qed.

Lemma disk_of_at (rootDir : string) (root : Node) (q : string) (n : Node) :
  wf_node root = true → at_path rootDir root q n →
  wf_node n = true
  ∧ ∀ t, tail t →
         disk_of rootDir root !! (q +:+ t)
         = (list_to_map (flatten q n) : Disk) !! (q +:+ t).
Proof.
  intros Hwf Hat. induction Hat as [|dirPath entry entries child Hat [Hwfd IH] Hin].
  - by split.
  - destruct (wf_node_dir entries Hwfd) as (Hnd & Hns & Hwfs). split.
    + rewrite Forall_forall in Hwfs. by apply (Hwfs _ Hin).
    + intros t Ht. rewrite <- (lookup_flatten_entry dirPath entry t child entries) by done.
      unfold Path.join. rewrite !append_assoc. apply IH. right. by eexists.
Qed.

(** What the disk of a tree holds at the path of a node. *)
Lemma lookup_at (rootDir : string) (root : Node) (q : string) (n : Node) :
  wf_node root = true → at_path rootDir root q n →
  disk_of rootDir root !! q = entry_of n.
Proof.
  intros Hwf Hat. destruct (disk_of_at rootDir root q n Hwf Hat) as [_ Hlookup].
  specialize (Hlookup "" ltac:(by left)). rewrite append_empty_r in Hlookup.
  rewrite Hlookup. destruct n as [size content|[es|]|].
  - cbn. by rewrite lookup_insert_eq.
  - rewrite flatten_unfold, list_to_map_cons. by rewrite lookup_insert_eq.
  - cbn. by rewrite lookup_insert_eq.
  - done.
Qed.

Section TreeAndDisk.

Variable config : AutodocumentConfig.
Variable shouldIgnore : string → bool.
Variable options : CrawlerOptions.

#[local] Arguments scanDirectory : simpl never.

Lemma scan_files (p : string) (es : list (string * Node)) :
  dir_files (scanDirectory shouldIgnore options p (NDir (Some es)))
  = omap (scanFile shouldIgnore options p) es.
Proof.
  unfold scanDirectory. fold scanDirectory.
  match goal with |- dir_files (let '(_, _) := ?loop es in _) = _ =>
    set (L := loop) end.
  assert (H : (L es).2 = omap (scanFile shouldIgnore options p) es).
  { induction es as [|[e c] es IH]; [done|].
    cbn [omap list_omap]. unfold scanFile at 1. cbn [fst snd].
    unfold L. fold L. destruct (L es) as [subs files]. cbn [snd] in IH.
    destruct (skipped_entry _ _ _ _); [done|].
    destruct c; cbn [snd]; by rewrite IH. }
  destruct (L es); cbn in *. done.
Qed.

Lemma isLeaf_scan (p : string) (es : list (string * Node)) :
  isLeaf (scanDirectory shouldIgnore options p (NDir (Some es))) = false
  ↔ ∃ e child, (e, child) ∈ es ∧ isDirectory child = true
               ∧ skipped_entry shouldIgnore options (Path.join p e) e = false.
Proof.
  pose proof (scan_isLeaf shouldIgnore options p (NDir (Some es))) as Hflag.
  unfold leafFlagged in Hflag. rewrite scan_subdirectories in Hflag.
  split.
  - intros Hleaf.
    destruct (omap (scanEntry shouldIgnore options p) es) as [|D subs] eqn:Hsubs.
    { rewrite (proj2 Hflag eq_refl) in Hleaf. done. }
    assert (HD : D ∈ omap (scanEntry shouldIgnore options p) es) by (rewrite Hsubs; by left).
    apply list_elem_of_omap in HD as ([e c] & Hin & HD).
    unfold scanEntry in HD. cbn [fst snd] in HD.
    destruct (skipped_entry _ _ _ _) eqn:Hskip; [done|].
    exists e, c. split; [done|]. split; [by destruct c | done].
  - intros (e & child & Hin & Hdir & Hskip).
    destruct (isLeaf _) eqn:Hleaf; [|done]. pose proof (proj1 Hflag eq_refl) as Hnil.
    assert (HD : scanDirectory shouldIgnore options (Path.join p e) child
                 ∈ omap (scanEntry shouldIgnore options p) es).
    { apply list_elem_of_omap. exists (e, child). split; [done|].
      unfold scanEntry. cbn [fst snd]. rewrite Hskip. by destruct child. }
    rewrite Hnil in HD. by apply elem_of_nil in HD.
Qed.

Section AtDirectory.

Variable rootDir : string.
Variable root : Node.
Variable dirPath : string.
Variable entries : list (string * Node).
Hypothesis root_wf : wf_node root = true.
Hypothesis here : at_path rootDir root dirPath (NDir (Some entries)).

Lemma readdirSync_at : readdirSync (disk_of rootDir root) dirPath = Some (fst <$> entries).
Proof using root_wf here. unfold readdirSync. by rewrite (lookup_at rootDir root dirPath _ root_wf here). Qed.

Lemma statSync_at (e : string) (child : Node) :
  (e, child) ∈ entries →
  statSync (disk_of rootDir root) (Path.join dirPath e)
  = match child with
    | NFile size _ => Ok {| st_isDirectory := false; st_size := size |}
    | NDir _ => Ok {| st_isDirectory := true; st_size := 4096 |}
    | NBroken =>
        Throw ("ENOENT: no such file or directory, stat '" +:+ Path.join dirPath e +:+ "'")
    end.
Proof using root_wf here.
  intros Hin. unfold statSync.
  rewrite (lookup_at rootDir root (Path.join dirPath e) child root_wf
             (at_entry _ _ _ _ _ _ here Hin)).
  by destruct child as [size content|[es|]|].
Qed.

Lemma isSubdirectory_at (e : string) (child : Node) :
  (e, child) ∈ entries →
  isSubdirectory shouldIgnore options (disk_of rootDir root) (Path.join dirPath e) = Ok true
  ↔ isDirectory child = true
    ∧ respectGitignore options && shouldIgnore (Path.join dirPath e) = false.
Proof using root_wf here.
  intros Hin. unfold isSubdirectory. rewrite (statSync_at e child Hin).
  destruct child as [size content|l|]; cbn.
  - split; [done | by intros [? _]].
  - destruct (respectGitignore options), (shouldIgnore _); cbn; split; try done;
      by intros [_ ?].
  - split; [done | by intros [? _]].
Qed.

(** X23. For a directory of a well-formed file system, the node the walk
    builds is not a leaf exactly when some entry is a directory that the
    walk does not skip, whereas [hasSubdirectories] is true exactly when
    some entry is a directory that is not ignored, hidden or not. So a
    directory that is not a leaf has subdirectories by either account,
    but the two disagree on a directory whose only subdirectories are
    hidden ones, and only there. *)
Theorem hasSubdirectories_counts_hidden :
  let D := scanDirectory shouldIgnore options dirPath (NDir (Some entries)) in
  let disk := disk_of rootDir root in
  (isLeaf D = false
   ↔ ∃ e child, (e, child) ∈ entries ∧ isDirectory child = true
                ∧ skipped_entry shouldIgnore options (Path.join dirPath e) e = false)
  ∧ (hasSubdirectories shouldIgnore options disk dirPath = true
     ↔ ∃ e child, (e, child) ∈ entries ∧ isDirectory child = true
                  ∧ respectGitignore options && shouldIgnore (Path.join dirPath e) = false)
  ∧ (isLeaf D = false → hasSubdirectories shouldIgnore options disk dirPath = true)
  ∧ (hasSubdirectories shouldIgnore options disk dirPath = true → isLeaf D = true →
     includeHidden options = false
     ∧ ∃ e child, (e, child) ∈ entries ∧ isDirectory child = true
                  ∧ Path.startsWithDot e = true).
Proof using root_wf here.
  intros D disk.
  assert (Hhas : hasSubdirectories shouldIgnore options disk dirPath = true
     ↔ ∃ e child, (e, child) ∈ entries ∧ isDirectory child = true
                  ∧ respectGitignore options && shouldIgnore (Path.join dirPath e) = false).
  { rewrite (hasSubdirectories_spec shouldIgnore options disk dirPath (fst <$> entries))
      by apply readdirSync_at.
    split.
    - intros (n & ([e child] & -> & Hin)%list_elem_of_fmap & Hsub).
      apply (isSubdirectory_at e child Hin) in Hsub as [Hdir Hign]. by exists e, child.
    - intros (e & child & Hin & Hdir & Hign). exists e. split.
      + by apply (list_elem_of_fmap_2 fst) in Hin.
      + by apply (isSubdirectory_at e child Hin). }
  split; [apply isLeaf_scan|]. split; [done|]. split.
  - intros (e & child & Hin & Hdir & Hskip)%isLeaf_scan. apply Hhas.
    exists e, child. split; [done|]. split; [done|].
    unfold skipped_entry in Hskip. by apply orb_false_elim in Hskip as [? _].
  - intros (e & child & Hin & Hdir & Hign)%Hhas Hleaf.
    destruct (skipped_entry shouldIgnore options (Path.join dirPath e) e) eqn:Hskip.
    + unfold skipped_entry in Hskip. rewrite Hign in Hskip. cbn [orb] in Hskip.
      apply andb_prop in Hskip as [Hhid Hdot]. split; [by apply negb_true_iff|].
      by exists e, child.
    + assert (isLeaf D = false) by (apply isLeaf_scan; by exists e, child). congruence.
Qed.

(** X24. For a directory of a well-formed file system none of whose
    entries is dangling or has an empty name, [getCodeFiles] returns
    exactly the files the walk recorded for the directory that have an
    allowed extension, in the same order. *)
Theorem getCodeFiles_matches_scan :
  (∀ e child, (e, child) ∈ entries → e ≠ "" ∧ child ≠ NBroken) →
  getCodeFiles config shouldIgnore options (disk_of rootDir root) dirPath
  = List.filter
      (λ file, includes (codeExtensions (fileProcessing config)) (lowerExt file))
      (dir_files (scanDirectory shouldIgnore options dirPath (NDir (Some entries)))).
Proof using root_wf here.
  intros Hentries. unfold getCodeFiles. rewrite readdirSync_at, scan_files.
  destruct (disk_of_at rootDir root dirPath _ root_wf here) as [Hwf _].
  destruct (wf_node_dir entries Hwf) as (_ & Hns & _). rewrite Forall_forall in Hns.
  assert (Hgen : ∀ l, (∀ x, x ∈ l → x ∈ entries) →
    ∃ kept, filterR (isCodeFile config shouldIgnore options (disk_of rootDir root) dirPath)
              (fst <$> l) = Ok kept
            ∧ Path.join dirPath <$> kept
              = List.filter
                  (λ file, includes (codeExtensions (fileProcessing config)) (lowerExt file))
                  (omap (scanFile shouldIgnore options dirPath) l)).
  { induction l as [|[e child] l IH]; intros Hl; [by exists []|].
    destruct IH as (kept & Hkept & Heq); [intros x Hx; apply Hl; by right|].
    assert (Hin : (e, child) ∈ entries) by (apply Hl; by left).
    destruct (Hentries e child Hin) as [Hne Hbroken].
    pose proof (Hns _ Hin) as Hnoslash. cbn [fst] in Hnoslash.
    cbn [fmap list_fmap fst filterR omap list_omap]. fold (fst <$> l). rewrite Hkept.
    unfold isCodeFile, scanFile at 1, skipped_entry. cbn [fst snd].
    rewrite (statSync_at e child Hin).
    destruct child as [size content|listing|]; [| |done]; cbn [st_isDirectory].
    - destruct (respectGitignore options && shouldIgnore _); cbn [orb];
        [by exists kept|].
      destruct (negb (includeHidden options) && Path.startsWithDot e);
        [by exists kept|].
      cbn [List.filter]. unfold lowerExt at 1. rewrite extname_join by done.
      destruct (includes _ _).
      + exists (e :: kept). split; [done|]. cbn. by rewrite Heq.
      + by exists kept.
    - exists kept. split; [done|].
      by destruct (_ || _). }
  destruct (Hgen entries ltac:(done)) as (kept & -> & Heq). done.
Qed.

End AtDirectory.

End TreeAndDisk.

Lemma hasSubdirectories_counts_hidden_witness :
  let root := Fixtures.hiddenProject in
  let disk := disk_of "/proj" root in
  isLeaf (scan (λ _, false) Fixtures.crawlerOptions "/proj" root) = true
  ∧ hasSubdirectories (λ _, false) Fixtures.crawlerOptions disk "/proj" = true
  ∧ shouldDocument defaultConfig "/proj"
      (getCodeFiles defaultConfig (λ _, false) Fixtures.crawlerOptions disk "/proj")
      (hasSubdirectories (λ _, false) Fixtures.crawlerOptions disk "/proj") = true
  ∧ includeHidden Fixtures.crawlerOptions = false.
Proof.
  destruct (hasSubdirectories_counts_hidden (λ _, false) Fixtures.crawlerOptions "/proj"
              Fixtures.hiddenProject "/proj"
              [("a.ts", NFile 1 (Ok "a"));
               (".git", NDir (Some [("config", NFile 1 (Ok "c"))]))]
              ltac:(by vm_compute) (at_root "/proj" Fixtures.hiddenProject))
    as (_ & _ & _ & Hhidden).
  split; [by vm_compute|]. split; [by vm_compute|]. split; [by vm_compute|].
  apply Hhidden; by vm_compute.
Defined.

Lemma getCodeFiles_matches_scan_witness :
  let root := Fixtures.documentedProject in
  getCodeFiles defaultConfig (λ _, false) Fixtures.crawlerOptions (disk_of "/proj" root)
    "/proj/lib"
  = ["/proj/lib/a.ts"; "/proj/lib/b.ts"].
Proof.
  etrans.
  - apply (getCodeFiles_matches_scan defaultConfig (λ _, false) Fixtures.crawlerOptions
             "/proj" Fixtures.documentedProject (Path.join "/proj" "lib")
             [("a.ts", NFile 1 (Ok "a")); ("b.ts", NFile 1 (Ok "b"));
              ("documentation.md", NFile 4 (Ok "docs"))]
             ltac:(by vm_compute)
             (at_entry "/proj" Fixtures.documentedProject "/proj" "lib" _ _
                (at_root "/proj" Fixtures.documentedProject) ltac:(by left))).
    intros e child Hin.
    repeat (apply elem_of_cons in Hin as [[= -> ->]|Hin]; [by split|]).
    by apply elem_of_nil in Hin.
  - by vm_compute.
Defined.

(** ** What the service is asked *)

(** X19. A tool that generates through the client asks the service one
    question at most, and everything it analyzed is in it: the result of
    [generate] depends on the service only through its answer to the user
    message built from the analyzed files, under their paths relative to
    the directory, the existing content when there is one that is not
    empty, and the child contents; that message holds, verbatim between
    fences, the content of every analyzed file, of every child and of the
    existing artifact when it is not empty. *)
Theorem generate_sends_all_files (config : ToolConfig) (wording : Wording) (disk : Disk)
    (directoryPath : string) (analysisResult : AnalysisResult) (isTopLevel : bool)
    (childrenContent : list ChildContent) :
  let existing := readExistingFile disk (Path.join directoryPath (outputFilename config)) in
  let message :=
    userMessage
      ((λ file, (Path.relative directoryPath (af_path file), af_content file))
         <$> analyzedFiles analysisResult)
      (if truthyOpt existing then existing else None) childrenContent in
  (∀ file, file ∈ analyzedFiles analysisResult →
     contains (fileBlock (Path.relative directoryPath (af_path file), af_content file))
       message)
  ∧ (∀ doc, doc ∈ childrenContent → contains (childBlock doc) message)
  ∧ (∀ text, existing = Some text → text ≠ "" →
       contains ("```markdown" +:+ nl +:+ text +:+ nl +:+ "```") message)
  ∧ ∀ complete complete' : string → string → Result (option string),
      (∀ prompt, complete prompt message = complete' prompt message) →
      generate config wording (generateWithCustomPrompt complete) disk directoryPath
        analysisResult isTopLevel childrenContent
      = generate config wording (generateWithCustomPrompt complete') disk directoryPath
          analysisResult isTopLevel childrenContent.
Proof.
  intros existing message.
  destruct (userMessage_parts
              ((λ file, (Path.relative directoryPath (af_path file), af_content file))
                 <$> analyzedFiles analysisResult)
              (if truthyOpt existing then existing else None) childrenContent)
    as (Hfiles & Hchildren & Hexisting).
  split; [|split; [done|split]].
  - intros file Hfile. apply Hfiles.
    by apply (list_elem_of_fmap_2
                (λ file, (Path.relative directoryPath (af_path file), af_content file))).
  - intros text Htext Hne. apply Hexisting; [|done].
    rewrite Htext. cbn. by rewrite (proj2 (truthy_ne text) Hne).
  - intros complete complete' Hsame. unfold generate. fold existing.
    destruct (bool_decide (existing ≠ None) && negb (updateExisting config)); [done|].
    unfold generateWithCustomPrompt.
    cbn [rq_systemPrompt rq_files rq_existingContent rq_childrenContent].
    fold message. by rewrite Hsame.
Qed.
